(** * editorjs-timesheet: the timesheet block and its formatting helpers

    A shallow embedding of [src/plugin.js] (the block controller
    [TimesheetBlock]) and of [src/utils/timesheet.js] (the two formatting
    functions), with the properties the specification states about them.

    Numbers.  The program computes on JavaScript numbers, that is on IEEE 754
    doubles.  The three numeric functions ([minutesToHoursMinutes],
    [minutesToLabel], [prepareTableData]) are embedded twice: in [utils] and
    at top level over integers ([Z]) with exact quotients in [Q], the reading
    the specification has in mind; and in [Doubles] over [Double.t], the
    numbers the program holds.  The properties of the second part relate the
    two: on integers within stated magnitudes the program returns what the
    exact reading returns, and beyond them it does not.  The controller only
    passes the derived table on, so it is indifferent to the reading. *)

From Stdlib Require Import ZArith QArith Qround Qabs Qpower Lia Lqa.
From Stdlib Require Import Ascii SpecFloat.
From stdpp Require Import base option list strings pretty gmap.

Local Open Scope Z_scope.

(** ** The JavaScript values the plugin relies on *)

Module JS.

(** Truthiness, per type of value.  [None] stands for [undefined]/[null]. *)
Class Truthy (A : Type) := truthy : A -> bool.

#[global] Instance truthy_bool : Truthy bool := fun b => b.
#[global] Instance truthy_string : Truthy string :=
  fun s => match s with EmptyString => false | String _ _ => true end.
(** Every array is an object, hence truthy, the empty one included. *)
#[global] Instance truthy_array {A} : Truthy (list A) := fun _ => true.
#[global] Instance truthy_option {A} `{Truthy A} : Truthy (option A) :=
  fun o => match o with None => false | Some a => truthy a end.

(** [c ? a : b] *)
Definition cond {A B} `{Truthy A} (c : A) (a b : B) : B :=
  if truthy c then a else b.

(** [Math.round]: the nearest integer, halves going up. *)
Definition Math_round (x : Q) : Q := inject_Z (Qfloor (x + (1 # 2))).

(** The digits after the decimal point of [r / d], for [0 <= r < d]. *)
Fixpoint fraction_digits (fuel : nat) (r d : Z) : string :=
  match fuel with
  | O => ""
  | S fuel =>
      if r =? 0 then ""
      else pretty (10 * r / d) +:+ fraction_digits fuel (10 * r mod d) d
  end.

(** Number-to-string conversion, as string concatenation applies it to a
    number, on an exact rational.  Integers print in decimal; a fraction
    prints its decimal expansion (the program only prints hundredths, which
    end after two digits).  [Double.toString] is the conversion on doubles;
    the two agree on the integers and the hundredths below [10^15] in
    magnitude ([toString_of_Z], [toString_hundredths]). *)
Definition Number_toString (x : Q) : string :=
  let x := Qred x in
  let n := Z.abs (Qnum x) in
  let d := Z.pos (Qden x) in
  (if Qnum x <? 0 then "-" else "") +:+ pretty (n / d) +:+
  (if n mod d =? 0 then "" else "." +:+ fraction_digits 17 (n mod d) d).

End JS.

(** ** The numbers JavaScript computes with

    A JavaScript number is an IEEE 754 binary64 value.  The type is the
    Standard Library's [spec_float]: a signed zero, a signed infinity, NaN,
    or a finite [(-1)^s * m * 2^e] in canonical form (a significand of 53
    bits, or fewer at the least exponent [-1074]).  Every operation computes
    the exact rational result and rounds it once to the nearest double, a tie
    going to the even significand. *)

Module Double.

Definition t := spec_float.

Definition pow2 (e : Z) : Q := (2 ^ e)%Q.

(** [floor (log2 x)], for [0 < x]. *)
Definition ilog2 (x : Q) : Z :=
  let e := Z.log2 (Qnum x) - Z.log2 (Z.pos (Qden x)) in
  if Qle_bool (pow2 e) x then e else e - 1.

(** The integer nearest to [x], a tie going to the even one. *)
Definition nearest_even (x : Q) : Z :=
  let f := Qfloor x in
  match (x - inject_Z f ?= 1 # 2)%Q with
  | Lt => f
  | Gt => f + 1
  | Eq => if Z.even f then f else f + 1
  end.

(** The value of a double; the infinities and NaN have none and read 0. *)
Definition val (x : t) : Q :=
  match x with
  | S754_finite s m e =>
      ((if s then - (1) else 1) * inject_Z (Z.pos m) * pow2 e)%Q
  | _ => 0%Q
  end.

(** The exponent of the last place of a double of magnitude [a], and the
    integer significand nearest to [a] at that place. *)
Definition place (a : Q) : Z := Z.max (ilog2 a - 52) (-1074).
Definition significand (a : Q) : Z := nearest_even (a / pow2 (place a)).

(** Rounding to the nearest double: the significand at the last place, one
    place up when it carries to [2^53], the infinity past the largest
    exponent [971], a signed zero below half the least double.  This is also
    how a numeric literal and a JSON number are read. *)
Definition of_Q (x : Q) : t :=
  match Qnum x with
  | 0 => S754_zero false
  | _ =>
      let s := Qnum x <? 0 in
      let a := Qabs x in
      let '(n, q) :=
        if significand a =? 2 ^ 53 then (2 ^ 52, place a + 1)
        else (significand a, place a) in
      match n with
      | Z.pos m => if q <=? 971 then S754_finite s m q else S754_infinity s
      | _ => S754_zero s
      end
  end.

Definition of_Z (n : Z) : t := of_Q (inject_Z n).

Definition sign (x : t) : bool :=
  match x with
  | S754_zero s | S754_infinity s | S754_finite s _ _ => s
  | S754_nan => false
  end.

Definition is_finite (x : t) : bool :=
  match x with
  | S754_zero _ | S754_finite _ _ _ => true
  | _ => false
  end.

Definition opp (x : t) : t :=
  match x with
  | S754_nan => S754_nan
  | S754_zero s => S754_zero (negb s)
  | S754_infinity s => S754_infinity (negb s)
  | S754_finite s m e => S754_finite (negb s) m e
  end.

(** An exact result that is zero takes the sign [s]; any other one is
    rounded. *)
Definition round_signed (s : bool) (x : Q) : t :=
  match Qnum x with
  | 0 => S754_zero s
  | _ => of_Q x
  end.

(** [x * y] *)
Definition mul (x y : t) : t :=
  match x, y with
  | S754_nan, _ | _, S754_nan => S754_nan
  | S754_infinity _, S754_zero _ | S754_zero _, S754_infinity _ => S754_nan
  | S754_infinity _, _ | _, S754_infinity _ =>
      S754_infinity (xorb (sign x) (sign y))
  | _, _ => round_signed (xorb (sign x) (sign y)) (val x * val y)
  end.

(** [x / y] *)
Definition div (x y : t) : t :=
  match x, y with
  | S754_nan, _ | _, S754_nan => S754_nan
  | S754_infinity _, S754_infinity _ | S754_zero _, S754_zero _ => S754_nan
  | S754_infinity _, _ | _, S754_zero _ =>
      S754_infinity (xorb (sign x) (sign y))
  | _, S754_infinity _ => S754_zero (xorb (sign x) (sign y))
  | _, _ => round_signed (xorb (sign x) (sign y)) (val x / val y)
  end.

(** [x + y]; an exact sum that is zero is [-0] only for [-0 + -0]. *)
Definition add (x y : t) : t :=
  match x, y with
  | S754_nan, _ | _, S754_nan => S754_nan
  | S754_infinity sx, S754_infinity sy =>
      if Bool.eqb sx sy then x else S754_nan
  | S754_infinity _, _ => x
  | _, S754_infinity _ => y
  | _, _ => round_signed (sign x && sign y) (val x + val y)
  end.

(** [x - y] *)
Definition sub (x y : t) : t := add x (opp y).

(** [x === y] on numbers: NaN equals nothing, the two zeros are equal. *)
Definition eqb (x y : t) : bool :=
  match x, y with
  | S754_zero _, S754_zero _ => true
  | S754_infinity sx, S754_infinity sy => Bool.eqb sx sy
  | S754_finite sx mx ex, S754_finite sy my ey =>
      Bool.eqb sx sy && (mx =? my)%positive && (ex =? ey)
  | _, _ => false
  end.

(** [Math.floor]: zeros, infinities and NaN are returned as they are. *)
Definition Math_floor (x : t) : t :=
  match x with
  | S754_finite _ _ _ => round_signed false (inject_Z (Qfloor (val x)))
  | _ => x
  end.

(** [Math.round]: the nearest integer, halves going up; a result that is
    zero keeps the sign of the argument. *)
Definition Math_round (x : t) : t :=
  match x with
  | S754_finite s _ _ => round_signed s (inject_Z (Qfloor (val x + (1 # 2))))
  | _ => x
  end.

(** Being the same double (unlike [eqb], which is [===]). *)
Definition same (x y : t) : bool :=
  match x, y with
  | S754_nan, S754_nan => true
  | S754_zero a, S754_zero b | S754_infinity a, S754_infinity b => Bool.eqb a b
  | S754_finite sx mx ex, S754_finite sy my ey =>
      Bool.eqb sx sy && (mx =? my)%positive && (ex =? ey)
  | _, _ => false
  end.

Definition pow10 (n : Z) : Q := (10 ^ n)%Q.

Fixpoint climb (fuel : nat) (v : Q) (n : Z) : Z :=
  match fuel with
  | O => n
  | S fuel => if Qle_bool (pow10 n) v then climb fuel v (n + 1) else n
  end.

(** The [n] with [10^(n-1) <= v < 10^n], for [v] a positive double: the
    search starts from an estimate by the binary logarithm that is at most
    three below. *)
Definition decimal_exponent (v : Q) : Z :=
  climb 4 v (ilog2 v * 1233 / 4096).

(** The [k]-digit decimals next to [v] on the grid [10^(n-k)]: the one that
    reads back as [x], the nearer of the two if both do. *)
Definition digits_at (x : t) (v : Q) (n k : Z) : option Z :=
  let u := pow10 (n - k) in
  let lo := Qfloor (v / u) in
  let hi := lo + 1 in
  let reads s := same (of_Q (inject_Z s * u)) x in
  match reads lo, reads hi with
  | true, true =>
      Some match (v / u - inject_Z lo ?= 1 # 2)%Q with
           | Lt => lo
           | Gt => hi
           | Eq => if Z.even lo then lo else hi
           end
  | true, false => Some lo
  | false, true => Some hi
  | false, false => None
  end.

(** The shortest decimal that reads back as [x]: its digits and their
    number.  Seventeen digits always do. *)
Fixpoint shortest (fuel : nat) (x : t) (v : Q) (n k : Z) : Z * Z :=
  match fuel with
  | O => (Qfloor (v / pow10 (n - k)), k)
  | S fuel =>
      match digits_at x v n k with
      | Some s => (s, k)
      | None => shortest fuel x v n (k + 1)
      end
  end.

Fixpoint zeros (n : nat) : string :=
  match n with O => "" | S n => "0" +:+ zeros n end.

(** The notation of the decimal with the [k] digits [s] and the decimal
    point after [n] of them: plain for [-6 < n <= 21], with an exponent
    otherwise. *)
Definition notation (s k n : Z) : string :=
  let d := pretty s in
  if (k <=? n) && (n <=? 21) then d +:+ zeros (Z.to_nat (n - k))
  else if (0 <? n) && (n <=? 21) then
    String.substring 0 (Z.to_nat n) d +:+ "." +:+
    String.substring (Z.to_nat n) (Z.to_nat (k - n)) d
  else if (-6 <? n) && (n <=? 0) then
    "0." +:+ zeros (Z.to_nat (- n)) +:+ d
  else
    let e := n - 1 in
    let exponent := (if e <? 0 then "e-" else "e+") +:+ pretty (Z.abs e) in
    if k =? 1 then d +:+ exponent
    else String.substring 0 1 d +:+ "." +:+
         String.substring 1 (Z.to_nat (k - 1)) d +:+ exponent.

(** [Number::toString] in radix 10, the conversion string concatenation
    applies to a number: the shortest digits that read back as the number,
    in the notation above. *)
Definition toString (x : t) : string :=
  match x with
  | S754_nan => "NaN"
  | S754_zero _ => "0"
  | S754_infinity s => if s then "-Infinity" else "Infinity"
  | S754_finite sx m e =>
      let a := S754_finite false m e in
      let v := val a in
      let n := decimal_exponent v in
      let '(s, k) := shortest 17 a v n 1 in
      let '(s, n) := if s =? 10 ^ k then (10 ^ (k - 1), n + 1) else (s, n) in
      (if sx then "-" else "") +:+ notation s k n
  end.

(** *** Vocabulary of the rounding lemmas *)

(** The sign, as a factor. *)
Definition signed (s : bool) (x : Q) : Q := if s then (- x)%Q else x.

(** A rational that a double holds exactly: an integer below [2^53] at a
    place not below the least one. *)
Definition fits (x : Q) : Prop :=
  exists n j, (x == inject_Z n * pow2 j)%Q /\ Z.abs n < 2 ^ 53 /\
              -1074 <= j /\ (Qabs x < pow2 1023)%Q.

(** Half a unit in the last place, relative to the value: [2^-53]. *)
Definition unit_roundoff : Q := 1 # 9007199254740992.

End Double.

(** ** [src/utils/timesheet.js]

    The exact reading: the minutes are an integer and [Math.floor] of the
    quotient is the integer quotient.  [Doubles], below, has the same two
    functions on the numbers the program holds; the two readings agree on
    the integers up to [2^53] in magnitude ([minutesToHoursMinutes_safe],
    [minutesToLabel_refines]) and part beyond. *)

Module utils.

Definition minutesToHoursMinutes (minutes : Z) : Z * Z :=
  let hours := minutes / 60 in
  let minutes := minutes - hours * 60 in
  (hours, minutes).

(** The argument is [None] when the caller passes [null] or [undefined]. *)
Definition minutesToLabel (minutes : option Z) : string :=
  match minutes with
  | None => ""
  | Some minutes =>
      if minutes =? 0 then ""
      else
        let hm := minutesToHoursMinutes minutes in
        if hm.1 =? 0 then pretty hm.2 +:+ " minutes"
        else if hm.2 =? 0 then pretty hm.1 +:+ " hours"
        else pretty hm.1 +:+ "h:" +:+ pretty hm.2 +:+ "m"
  end.

End utils.

(** ** The remote response and the rows derived from it

    The exact reading again: [minutes_spent] and [per_hour] are integers and
    the bills exact rationals.  A response with other numbers, a rate of
    10.5 say, is a [Doubles.Response]; on integers within the bound of
    [prepareTableData_refines] the program on doubles derives the table
    derived here. *)

Record Entry := {
  story_name : string;
  minutes_spent : Z;
  notes : string
}.

Record Response := {
  entries : list Entry;
  per_hour : Z
}.

Definition header_row : list string :=
  ["Work Details"; "Billable time"; "Note"; "Billing (/hr)"; "Total Billing"].

(** [prepareTableData]: the [for ... of] loop pushes one row per entry, the
    [reduce] sums the minutes from the left starting at 0. *)
Definition prepareTableData (response : Response) : list (list string) :=
  let data := [header_row] in
  let data :=
    fold_left
      (fun data entry =>
         let entryBill :=
           (inject_Z (minutes_spent entry)
            * (inject_Z (per_hour response) / 60))%Q in
         let entryBill := (JS.Math_round (entryBill * 100) / 100)%Q in
         data ++ [[story_name entry;
                   utils.minutesToLabel (Some (minutes_spent entry));
                   notes entry;
                   "$" +:+ pretty (per_hour response);
                   "$" +:+ JS.Number_toString entryBill]])
      (entries response) data in
  let totalMins :=
    fold_left (fun accumulator entry => accumulator + minutes_spent entry)
      (entries response) 0 in
  let totalBill :=
    (inject_Z totalMins * (inject_Z (per_hour response) / 60))%Q in
  let totalBill := (JS.Math_round (totalBill * 100) / 100)%Q in
  data ++ [["<b>Total</b>";
            "<b>" +:+ utils.minutesToLabel (Some totalMins) +:+ "</b>";
            "";
            "";
            "<b>$" +:+ JS.Number_toString totalBill +:+ "</b>"]].

(** ** The same three functions on the numbers the program holds

    The definitions above read minutes and rate as integers and compute
    exactly.  The program computes on doubles; here are the same source
    lines with every operator, [Math.floor], [Math.round] and the
    conversion to string taken on [Double.t].  The properties below relate
    the two readings: they agree on integers within stated bounds and part
    beyond them. *)

Module Doubles.

Definition minutesToHoursMinutes (minutes : Double.t) : Double.t * Double.t :=
  let hours := Double.Math_floor (Double.div minutes (Double.of_Z 60)) in
  let minutes := Double.sub minutes (Double.mul hours (Double.of_Z 60)) in
  (hours, minutes).

(** The argument is [None] when the caller passes [null] or [undefined]. *)
Definition minutesToLabel (minutes : option Double.t) : string :=
  match minutes with
  | None => ""
  | Some minutes =>
      if Double.eqb minutes (Double.of_Z 0) then ""
      else
        let hm := minutesToHoursMinutes minutes in
        if Double.eqb hm.1 (Double.of_Z 0) then
          Double.toString hm.2 +:+ " minutes"
        else if Double.eqb hm.2 (Double.of_Z 0) then
          Double.toString hm.1 +:+ " hours"
        else Double.toString hm.1 +:+ "h:" +:+ Double.toString hm.2 +:+ "m"
  end.

(** A parsed response: [minutes_spent] and [per_hour] are any JSON
    numbers. *)
Record Entry := {
  story_name : string;
  minutes_spent : Double.t;
  notes : string
}.

Record Response := {
  entries : list Entry;
  per_hour : Double.t
}.

Definition prepareTableData (response : Response) : list (list string) :=
  let data := [header_row] in
  let data :=
    fold_left
      (fun data entry =>
         let entryBill :=
           Double.mul (minutes_spent entry)
             (Double.div (per_hour response) (Double.of_Z 60)) in
         let entryBill :=
           Double.div
             (Double.Math_round (Double.mul entryBill (Double.of_Z 100)))
             (Double.of_Z 100) in
         data ++ [[story_name entry;
                   minutesToLabel (Some (minutes_spent entry));
                   notes entry;
                   "$" +:+ Double.toString (per_hour response);
                   "$" +:+ Double.toString entryBill]])
      (entries response) data in
  let totalMins :=
    fold_left
      (fun accumulator entry => Double.add accumulator (minutes_spent entry))
      (entries response) (Double.of_Z 0) in
  let totalBill :=
    Double.mul totalMins (Double.div (per_hour response) (Double.of_Z 60)) in
  let totalBill :=
    Double.div (Double.Math_round (Double.mul totalBill (Double.of_Z 100)))
      (Double.of_Z 100) in
  data ++ [["<b>Total</b>";
            "<b>" +:+ minutesToLabel (Some totalMins) +:+ "</b>";
            "";
            "";
            "<b>$" +:+ Double.toString totalBill +:+ "</b>"]].

(** The bill [prepareTableData] computes, for an entry and for the total:
    the two statements that assign [entryBill] (and [totalBill]), on their
    own. *)
Definition bill (minutes rate : Double.t) : Double.t :=
  let entryBill := Double.mul minutes (Double.div rate (Double.of_Z 60)) in
  Double.div (Double.Math_round (Double.mul entryBill (Double.of_Z 100)))
    (Double.of_Z 100).

(** The [reduce] of [prepareTableData]: the minutes added from the left,
    starting at 0. *)
Definition totalMins (entries : list Entry) : Double.t :=
  fold_left
    (fun accumulator entry => Double.add accumulator (minutes_spent entry))
    entries (Double.of_Z 0).

(** The row pushed for an entry, and the last row. *)
Definition entry_row (rate : Double.t) (entry : Entry) : list string :=
  [story_name entry;
   minutesToLabel (Some (minutes_spent entry));
   notes entry;
   "$" +:+ Double.toString rate;
   "$" +:+ Double.toString (bill (minutes_spent entry) rate)].

Definition total_row (rate : Double.t) (entries : list Entry) : list string :=
  ["<b>Total</b>";
   "<b>" +:+ minutesToLabel (Some (totalMins entries)) +:+ "</b>";
   "";
   "";
   "<b>$" +:+ Double.toString (bill (totalMins entries) rate) +:+ "</b>"].

End Doubles.

(** A response whose numbers are integers, as the program holds it once
    parsed. *)
Definition parsed_entry (entry : Entry) : Doubles.Entry :=
  {| Doubles.story_name := story_name entry;
     Doubles.minutes_spent := Double.of_Z (minutes_spent entry);
     Doubles.notes := notes entry |}.

Definition parsed (response : Response) : Doubles.Response :=
  {| Doubles.entries := map parsed_entry (entries response);
     Doubles.per_hour := Double.of_Z (per_hour response) |}.

(** ** The DOM, as far as the plugin touches it

    Only what the properties below depend on is kept of an element: its
    tag, its class list and its text.  The tree ([appendChild],
    [removeChild]) is left out; no class list depends on it. *)

Module DOM.

Record Element := {
  tagName : string;
  classList : gset string;
  textContent : string
}.

(** Modelled from the spec: [make] of [src/utils/dom.js], the
    DOM-construction helper that takes an element kind and a class-name set
    and returns a fresh element carrying those classes. *)
Definition make (tagName : string) (classNames : list string) : Element :=
  {| tagName := tagName; classList := list_to_set classNames;
     textContent := "" |}.

Definition classList_add (c : string) (e : Element) : Element :=
  {| tagName := tagName e; classList := classList e ∪ {[c]};
     textContent := textContent e |}.

Definition classList_remove (c : string) (e : Element) : Element :=
  {| tagName := tagName e; classList := classList e ∖ {[c]};
     textContent := textContent e |}.

Definition set_textContent (s : string) (e : Element) : Element :=
  {| tagName := tagName e; classList := classList e; textContent := s |}.

End DOM.

(** ** The host editor and the configuration *)

(** The services of the host (Editor.js) the plugin consumes. *)
Record Api := {
  styles_block : string;
  styles_input : string;
  i18n_t : string -> string;
  blocks_getCurrentBlockIndex : Z
}.

(** [regex] is the configured pattern, seen through its [test] method (a
    pattern without the global or sticky flag, whose [test] keeps no
    position between calls). *)
Record TableConfig := {
  rows : option Z;
  cols : option Z;
  config_placeholder : option string;
  config_regex : string -> bool;
  additionalRequestHeaders : option (list (string * string))
}.

(** The block's own data, [this.data]; [snippet] is [None] for [null]. *)
Record BlockData := {
  withHeadings : bool;
  content : list (list string);
  snippet : option string
}.

(** The [data] handed to the constructor: any field may be missing. *)
Module TableData.
Record t := {
  withHeadings : option bool;
  content : option (list (list string));
  snippet : option string
}.
End TableData.

(** A well-formed persisted block, as the host hands it back. *)
Definition persisted (d : BlockData) : TableData.t :=
  {| TableData.withHeadings := Some (withHeadings d);
     TableData.content := Some (content d);
     TableData.snippet := snippet d |}.

(** The table view of [src/table.js], through the methods the controller
    calls. *)
Class TableView (Table : Type) := {
  Table_new : bool -> Api -> BlockData -> TableConfig -> Table;
  getWrapper : Table -> DOM.Element;
  setHeadingsSetting : bool -> Table -> Table;
  getData : Table -> list (list string)
}.

(** What the specification says of the table view: it serialises back the
    grid it was built from, whatever the headings toggle. *)
Class TableRoundTrip (Table : Type) `{!TableView Table} : Prop := {
  getData_new : forall readOnly api data config,
    getData (Table_new readOnly api data config) = content data;
  getData_setHeadingsSetting : forall h table,
    getData (setHeadingsSetting h table) = getData table
}.

(** Modelled from the spec: the table view ([src/table.js]), which owns a
    two-dimensional grid of cells and a headings toggle and serialises to and
    from the plain data shape. *)
Record Grid := {
  grid_cells : list (list string);
  grid_headings : bool
}.

#[global] Instance Grid_view : TableView Grid := {|
  Table_new := fun _ _ data _ =>
    {| grid_cells := content data; grid_headings := false |};
  getWrapper := fun _ => DOM.make "div" ["tc-wrap"];
  setHeadingsSetting := fun h t =>
    {| grid_cells := grid_cells t; grid_headings := h |};
  getData := grid_cells
|}.

#[global] Instance Grid_round_trip : TableRoundTrip Grid.
Proof. split; reflexivity. Qed.

Module CSS.
Definition settingsWrapper : string := "tc-settings".
Definition baseClass (api : Api) : string := styles_block api.
Definition hide : string := "hide".
Definition btn : string := "cdx-btn".
Definition container : string := "timesheetContainer".
Definition input : string := "timesheetContainer__input".
Definition inputHolder : string := "timesheetContainer__inputHolder".
Definition inputText : string := "timesheetContainer__input--text".
Definition buttonLinkHolder : string := "timesheetContainer__buttonLinkHolder".
Definition tableHolder : string := "timesheetContainer-tableHolder".
Definition loadingHolder : string := "timesheetContainer__preloader".
Definition loadingContent : string := "timesheetContainer__preloader-content".
End CSS.

Inductive STATE := EDIT | VIEW | LOADING.

Record Request := {
  url : string;
  method : string;
  headers : option (list (string * string))
}.

(** How a request ends: the promise rejects, the body is not JSON, or the
    body parses to a response. *)
Inductive FetchOutcome :=
  | Rejected (error : string)
  | BodyNotJSON (error : string)
  | Body (response : Response).

Record PasteEvent := {
  type : string;
  detail_data : string
}.

Record Args := {
  args_data : option TableData.t;
  args_config : TableConfig;
  args_api : Api;
  args_readOnly : bool
}.

(** ** The block controller, [TimesheetBlock] *)

Section Controller.

Context {Table : Type} `{!TableView Table}.

(** The fields of [this].  [nodes] maps a property name of [this.nodes] to
    the element it holds; a property that is [null] has no entry. *)
Record TimesheetBlock := {
  api : Api;
  readOnly : bool;
  data : BlockData;
  config : TableConfig;
  placeholder : string;
  table : option Table;
  regex : string -> bool;
  nodes : gmap string DOM.Element
}.

(** The block together with what it acts on outside itself: the requests
    in flight and the operator's console. *)
Record World := {
  this : TimesheetBlock;
  network : list Request;
  console : list string
}.

(** A method either returns or throws; what it wrote before throwing
    stays written. *)
Inductive Completion (A : Type) :=
  | Normal (a : A)
  | Throw (error : string).

Definition M (A : Type) : Type := World -> Completion A * World.

#[local] Instance M_ret : MRet M := fun A a w => (Normal A a, w).

#[local] Instance M_bind : MBind M := fun A B k m w =>
  match m w with
  | (Normal _ a, w') => k a w'
  | (Throw _ e, w') => (Throw B e, w')
  end.

Definition throw {A} (e : string) : M A := fun w => (Throw A e, w).

(** [m.catch(h)] *)
Definition catch {A} (m : M A) (h : string -> M A) : M A := fun w =>
  match m w with
  | (Normal _ a, w') => (Normal A a, w')
  | (Throw _ e, w') => h e w'
  end.

Definition get_this : M TimesheetBlock := fun w => (Normal _ (this w), w).

Definition modify_this (f : TimesheetBlock -> TimesheetBlock) : M unit :=
  fun w =>
    (Normal _ (),
     {| this := f (this w); network := network w; console := console w |}).

Definition set_data (d : BlockData) (b : TimesheetBlock) : TimesheetBlock :=
  {| api := api b; readOnly := readOnly b; data := d; config := config b;
     placeholder := placeholder b; table := table b; regex := regex b;
     nodes := nodes b |}.

Definition set_table (t : option Table) (b : TimesheetBlock) : TimesheetBlock :=
  {| api := api b; readOnly := readOnly b; data := data b; config := config b;
     placeholder := placeholder b; table := t; regex := regex b;
     nodes := nodes b |}.

Definition set_nodes (n : gmap string DOM.Element) (b : TimesheetBlock)
  : TimesheetBlock :=
  {| api := api b; readOnly := readOnly b; data := data b; config := config b;
     placeholder := placeholder b; table := table b; regex := regex b;
     nodes := n |}.

(** [this.nodes.name = e] *)
Definition assign_node (name : string) (e : DOM.Element) : M unit :=
  modify_this (fun b => set_nodes (<[name := e]> (nodes b)) b).

(** [this.nodes.name.f(...)]: a [TypeError] when the node is [null]. *)
Definition on_node (name : string) (f : DOM.Element -> DOM.Element) : M unit :=
  b ← get_this;
  match nodes b !! name with
  | Some e => assign_node name (f e)
  | None => throw "TypeError"
  end.

(** [this.table.f(...)]: a [TypeError] when the table is [null]. *)
Definition the_table : M Table :=
  b ← get_this;
  match table b with
  | Some t => mret t
  | None => throw "TypeError"
  end.

Definition constructor (a : Args) : TimesheetBlock :=
  let data := args_data a in
  let config := args_config a in
  {| api := args_api a;
     readOnly := args_readOnly a;
     data :=
       {| withHeadings :=
            JS.cond (data ≫= TableData.withHeadings)
              (default false (data ≫= TableData.withHeadings)) false;
          content :=
            JS.cond (data ≫= TableData.content)
              (default [] (data ≫= TableData.content)) [];
          snippet :=
            JS.cond (data ≫= TableData.snippet)
              (data ≫= TableData.snippet) None |};
     config := config;
     placeholder :=
       JS.cond (config_placeholder config)
         (default "" (config_placeholder config)) "Timesheet Snippet";
     table := None;
     regex := config_regex config;
     nodes := ∅ |}.

Definition changeState (state : STATE) : M unit :=
  match state with
  | EDIT =>
      on_node "inputHolder" (DOM.classList_remove CSS.hide);;
      on_node "tableHolder" (DOM.classList_add CSS.hide);;
      on_node "loadingHolder" (DOM.classList_add CSS.hide)
  | VIEW =>
      on_node "tableHolder" (DOM.classList_remove CSS.hide);;
      on_node "inputHolder" (DOM.classList_add CSS.hide);;
      on_node "loadingHolder" (DOM.classList_add CSS.hide)
  | LOADING =>
      on_node "loadingHolder" (DOM.classList_remove CSS.hide);;
      on_node "tableHolder" (DOM.classList_add CSS.hide);;
      on_node "inputHolder" (DOM.classList_add CSS.hide)
  end.

Definition show (state : STATE) : M unit := changeState state.

(** [fetch] hands the request to the network and returns at once; the
    continuations run when the request is settled (see [settle]). *)
Definition loadData (url : string) : M unit := fun w =>
  (Normal _ (),
   {| this := this w;
      network :=
        network w ++
        [{| url := url; method := "GET";
            headers := additionalRequestHeaders (config (this w)) |}];
      console := console w |}).

Definition console_error (error : string) : M unit := fun w =>
  (Normal _ (),
   {| this := this w; network := network w;
      console := console w ++ ["Error: " +:+ error] |}).

(** [makeInputHolder] builds the holder and the text input; the listener it
    registers is [input_listener] below. *)
Definition makeInputHolder : M DOM.Element :=
  b ← get_this;
  let inputHolder := DOM.make "div" [CSS.inputHolder] in
  assign_node "textInput"
    (DOM.make "div" [styles_input (api b); CSS.input; CSS.inputText]);;
  mret inputHolder.

Definition createPreloader : M DOM.Element :=
  let preloader := DOM.make "preloader" [CSS.hide; CSS.loadingHolder] in
  mret preloader.

Definition render : M DOM.Element :=
  b ← get_this;
  modify_this
    (set_table (Some (Table_new (readOnly b) (api b) (data b) (config b))));;
  assign_node "tableHolder" (DOM.make "div" [CSS.hide; CSS.tableHolder]);;
  let wrapper := DOM.make "div" [CSS.baseClass (api b)] in
  assign_node "wrapper" wrapper;;
  assign_node "container" (DOM.make "div" [CSS.container]);;
  loadingHolder ← createPreloader;
  assign_node "loadingHolder" loadingHolder;;
  inputHolder ← makeInputHolder;
  assign_node "inputHolder" inputHolder;;
  t ← the_table;
  assign_node "tableContentHolder" (getWrapper t);;
  modify_this
    (set_table (Some (setHeadingsSetting (withHeadings (data b)) t)));;
  (if JS.truthy (snippet (data b)) then show VIEW else mret ());;
  mret wrapper.

Definition save : M BlockData :=
  t ← the_table;
  let tableContent := getData t in
  b ← get_this;
  mret {| withHeadings := withHeadings (data b);
          content := tableContent;
          snippet := snippet (data b) |}.

(** The host renders the block and saves it with no edit in between. *)
Definition render_then_save : M BlockData := render;; save.

Definition embedTable (response : Response) : M unit :=
  b ← get_this;
  let index := blocks_getCurrentBlockIndex (api b) in
  let tableData := prepareTableData response in
  let data' :=
    {| withHeadings := true; content := tableData;
       snippet := snippet (data b) |} in
  modify_this (set_data data');;
  modify_this
    (set_table (Some (Table_new (readOnly b) (api b) data' (config b))));;
  (* tableHolder.removeChild(...): the holder is dereferenced *)
  on_node "tableHolder" id;;
  t ← the_table;
  assign_node "tableContentHolder" (getWrapper t);;
  show VIEW.

(** The listener on the text input: it runs on every [input] event and
    reads the text the element then holds. *)
Definition input_listener : M unit :=
  b ← get_this;
  match nodes b !! "textInput" with
  | None => throw "TypeError"
  | Some textInput =>
      if regex b (DOM.textContent textInput) then
        modify_this
          (set_data {| withHeadings := withHeadings (data b);
                       content := content (data b);
                       snippet := Some (DOM.textContent textInput) |});;
        show LOADING;;
        b' ← get_this;
        loadData (default "null" (snippet (data b')))
      else mret ()
  end.

Definition onPaste (event : PasteEvent) : M unit :=
  if decide (type event = "pattern") then loadData (detail_data event)
  else mret ().

(** The continuations of [loadData]: [embedTable] on a parsed body, the
    [catch] handler on a rejection, on an unparsable body and on anything
    [embedTable] throws. *)
Definition settle (outcome : FetchOutcome) : M unit :=
  match outcome with
  | Rejected error | BodyNotJSON error => console_error error
  | Body response => catch (embedTable response) console_error
  end.

(** What can happen to a rendered block. *)
Inductive Event :=
  | Input (text : string)
  | Settled (i : nat) (outcome : FetchOutcome)
  | Paste (event : PasteEvent).

(** The user's typing changes the text of the input element, then the
    listener runs; a settled request leaves the network. *)
Definition dispatch (ev : Event) : M unit :=
  match ev with
  | Input text =>
      on_node "textInput" (DOM.set_textContent text);;
      input_listener
  | Settled i outcome =>
      (fun w =>
         (Normal _ (),
          {| this := this w; network := delete i (network w);
             console := console w |}));;
      settle outcome
  | Paste event => onPaste event
  end.

(** Only a request in flight can be settled. *)
Definition enabled (ev : Event) (w : World) : Prop :=
  match ev with
  | Settled i _ => is_Some (network w !! i)
  | _ => True
  end.

Definition exec {A} (m : M A) (w : World) : World := (m w).2.

Definition result {A} (m : M A) (w : World) : Completion A := (m w).1.

Definition new_TimesheetBlock (a : Args) : World :=
  {| this := constructor a; network := []; console := [] |}.

(** The worlds the host can bring about: it constructs the block, calls
    [render], and from then on delivers events. *)
Inductive reachable (a : Args) : World -> Prop :=
  | reach_render : reachable a (exec render (new_TimesheetBlock a))
  | reach_event w ev :
      reachable a w -> enabled ev w -> reachable a (exec (dispatch ev) w).

(** *** Which region shows *)

Inductive Region := InputRegion | TableRegion | LoadingRegion.

#[global] Instance Region_eq_dec : EqDecision Region.
Proof. solve_decision. Defined.

Definition holder (r : Region) : string :=
  match r with
  | InputRegion => "inputHolder"
  | TableRegion => "tableHolder"
  | LoadingRegion => "loadingHolder"
  end.

(** A region shows when its holder exists and does not carry [hide]. *)
Definition visible (r : Region) (w : World) : bool :=
  match nodes (this w) !! holder r with
  | Some e => bool_decide (CSS.hide ∉ DOM.classList e)
  | None => false
  end.

Definition visible_regions (w : World) : list Region :=
  filter (fun r => visible r w = true)
    [InputRegion; TableRegion; LoadingRegion].

Definition region_of (state : STATE) : Region :=
  match state with
  | EDIT => InputRegion
  | VIEW => TableRegion
  | LOADING => LoadingRegion
  end.

(** *** The vocabulary of the properties *)

(** [render] has run: the holders, the text input and the table exist. *)
Definition rendered (w : World) : Prop :=
  is_Some (nodes (this w) !! "inputHolder")
  /\ is_Some (nodes (this w) !! "tableHolder")
  /\ is_Some (nodes (this w) !! "loadingHolder")
  /\ is_Some (nodes (this w) !! "textInput")
  /\ is_Some (table (this w)).

(** The block is in state [st]: the region of [st] shows, alone. *)
Definition shows (state : STATE) (w : World) : Prop :=
  visible_regions w = [region_of state].

(** What holds of every world the host can bring about. *)
Definition steady (w : World) : Prop := rendered w /\ exists st, shows st w.

Definition with_nodes (n : gmap string DOM.Element) (w : World) : World :=
  {| this := set_nodes n (this w); network := network w;
     console := console w |}.

Definition request_for (url : string) (w : World) : Request :=
  {| url := url; method := "GET";
     headers := additionalRequestHeaders (config (this w)) |}.

(** A request that fails: it rejects, or its body is not JSON. *)
Definition failure (outcome : FetchOutcome) (error : string) : Prop :=
  outcome = Rejected error \/ outcome = BodyNotJSON error.

End Controller.

Arguments TimesheetBlock : clear implicits.
Arguments World : clear implicits.
Arguments M : clear implicits.

(** ** What the specification calls the derived values *)

(** Rounding to two decimal places: round half up on the value scaled by
    100. *)
Definition round2 (x : Q) : Q :=
  (inject_Z (Qfloor (x * 100 + (1 # 2))) / 100)%Q.

(** The bill for a number of minutes at an hourly rate. *)
Definition billing (minutes rate : Z) : Q :=
  round2 (inject_Z minutes * inject_Z rate / 60)%Q.

(** The sum of the minutes over the entries. *)
Definition total_minutes (E : list Entry) : Z :=
  foldr (fun entry sum => minutes_spent entry + sum) 0 E.

(** The row the specification expects for an entry. *)
Definition entry_row (rate : Z) (entry : Entry) : list string :=
  [story_name entry;
   utils.minutesToLabel (Some (minutes_spent entry));
   notes entry;
   "$" +:+ pretty rate;
   "$" +:+ JS.Number_toString (billing (minutes_spent entry) rate)].

Definition total_row (rate : Z) (E : list Entry) : list string :=
  ["<b>Total</b>";
   "<b>" +:+ utils.minutesToLabel (Some (total_minutes E)) +:+ "</b>";
   "";
   "";
   "<b>$" +:+ JS.Number_toString (billing (total_minutes E) rate) +:+ "</b>"].

(** The sum of the magnitudes of the minutes over the entries. *)
Definition total_magnitude (E : list Entry) : Z :=
  foldr (fun entry sum => Z.abs (minutes_spent entry) + sum) 0 E.

(** The exact bill in cents, [floor (100 * m * p / 60 + 1/2)]. *)
Definition bill_in_cents (m p : Z) : Z := (10 * (m * p) + 3) / 6.

(** ** Sample inputs *)

Definition sample_entry : Entry :=
  {| story_name := "A"; minutes_spent := 60; notes := "x" |}.

Definition sample_response : Response :=
  {| entries := [sample_entry]; per_hour := 10 |}.

Definition sample_api : Api :=
  {| styles_block := "cdx-block"; styles_input := "cdx-input";
     i18n_t := fun s => s; blocks_getCurrentBlockIndex := 0 |}.

(** A configuration whose pattern accepts the one address ["http://x"]. *)
Definition sample_config : TableConfig :=
  {| rows := None; cols := None; config_placeholder := None;
     config_regex := fun s => bool_decide (s = "http://x");
     additionalRequestHeaders := None |}.

Definition sample_args (data : option TableData.t) : Args :=
  {| args_data := data; args_config := sample_config;
     args_api := sample_api; args_readOnly := false |}.

(** Block data a host could have saved after a remote load. *)
Definition sample_saved : BlockData :=
  {| withHeadings := true; content := [["a"; "b"]];
     snippet := Some "http://x" |}.

(** The sample block, constructed with no data and rendered. *)
Definition fresh_block : World Grid :=
  exec render (new_TimesheetBlock (sample_args None)).

Definition pattern_paste (text : string) : PasteEvent :=
  {| type := "pattern"; detail_data := text |}.

(** ** Sample doubles

    The zeros, 1, 3, 60, 100, 10.5, 0.1, 0.525, 52.49999999999999, -2.5,
    280000000000000000, 417008578777, the least positive double, the
    greatest one, the least normal one, 1e21, the infinities and NaN. *)
Definition sample_doubles : list Double.t :=
  [S754_zero false; S754_zero true;
   S754_finite false 4503599627370496 (-52);
   S754_finite false 6755399441055744 (-51);
   S754_finite false 8444249301319680 (-47);
   S754_finite false 7036874417766400 (-46);
   S754_finite false 5910974510923776 (-49);
   S754_finite false 7205759403792794 (-56);
   S754_finite false 4728779608739021 (-53);
   S754_finite false 7388718138654719 (-47);
   S754_finite true 5629499534213120 (-51);
   S754_finite false 8750000000000000 5;
   S754_finite false 6832268554682368 (-14);
   S754_finite false 1 (-1074);
   S754_finite false 9007199254740991 971;
   S754_finite false 4503599627370496 (-1074);
   S754_finite false 7629394531250000 17;
   S754_infinity false; S754_infinity true; S754_nan].

(** Two operations return the same double on every pair of samples. *)
Definition agree_on_samples (f g : Double.t -> Double.t -> Double.t) : bool :=
  forallb
    (fun x => forallb (fun y => Double.same (f x y) (g x y)) sample_doubles)
    sample_doubles.

(** ** Further vocabulary: labels, bills, event sequences, settings *)




(** The bill [prepareTableData] prints for [minutes] at [rate]. *)
Definition printed_bill (minutes rate : Z) : string :=
  JS.Number_toString
    (JS.Math_round (inject_Z minutes * (inject_Z rate / 60) * 100) / 100)%Q.

(** The row [prepareTableData] pushes for an entry, and its last row. *)
Definition bill_row (rate : Z) (entry : Entry) : list string :=
  [story_name entry;
   utils.minutesToLabel (Some (minutes_spent entry));
   notes entry;
   "$" +:+ pretty rate;
   "$" +:+ printed_bill (minutes_spent entry) rate].

Definition bill_total (rate : Z) (E : list Entry) : list string :=
  ["<b>Total</b>";
   "<b>" +:+ utils.minutesToLabel (Some (total_minutes E)) +:+ "</b>";
   "";
   "";
   "<b>$" +:+ printed_bill (total_minutes E) rate +:+ "</b>"].

(** [element.classList.toggle(c)] *)
Definition classList_toggle (c : string) (e : DOM.Element) : DOM.Element :=
  if decide (c ∈ DOM.classList e) then DOM.classList_remove c e
  else DOM.classList_add c e.

Section Steps.

Context {Table : Type} `{!TableView Table}.

Implicit Types (w : World Table).

(** The host delivers a sequence of events, one after the other. *)
Definition run (events : list Event) w : World Table :=
  fold_left (fun w ev => exec (dispatch ev) w) events w.

(** What one event does to a rendered block, case by case. *)
Inductive step_shape (ev : Event) w w' : Prop :=
  | shape_match text n' :
      ev = Input text -> regex (this w) text = true ->
      w' = {| this :=
                set_nodes n'
                  (set_data {| withHeadings := withHeadings (data (this w));
                               content := content (data (this w));
                               snippet := Some text |} (this w));
              network := network w ++ [request_for text w];
              console := console w |} ->
      step_shape ev w w'
  | shape_mismatch text n' :
      ev = Input text -> regex (this w) text = false ->
      w' = with_nodes n' w ->
      visible_regions w' = visible_regions w ->
      step_shape ev w w'
  | shape_body i response n' :
      ev = Settled i (Body response) ->
      w' = {| this :=
                set_nodes n'
                  (set_table
                     (Some (Table_new (readOnly (this w)) (api (this w))
                              {| withHeadings := true;
                                 content := prepareTableData response;
                                 snippet := snippet (data (this w)) |}
                              (config (this w))))
                     (set_data {| withHeadings := true;
                                  content := prepareTableData response;
                                  snippet := snippet (data (this w)) |}
                        (this w)));
              network := delete i (network w);
              console := console w |} ->
      step_shape ev w w'
  | shape_failure i outcome error :
      ev = Settled i outcome -> failure outcome error ->
      w' = {| this := this w; network := delete i (network w);
              console := console w ++ ["Error: " +:+ error] |} ->
      step_shape ev w w'
  | shape_paste event :
      ev = Paste event ->
      w' = {| this := this w;
              network :=
                if decide (type event = "pattern")
                then network w ++ [request_for (detail_data event) w]
                else network w;
              console := console w |} ->
      step_shape ev w w'.

(** The state the handler of an event asks [show] for, if any: LOADING when
    the typed text matches the pattern, VIEW when a parsed response
    arrives.  No handler asks for EDIT. *)
Definition requested (ev : Event) w : option STATE :=
  match ev with
  | Input text => if regex (this w) text then Some LOADING else None
  | Settled _ (Body _) => Some VIEW
  | Settled _ _ => None
  | Paste _ => None
  end.

(** The state [render] leaves the block in: VIEW when it asks [show] for
    it, EDIT as the holders are built otherwise. *)
Definition state_after_render w : STATE :=
  if JS.truthy (snippet (data (this w))) then VIEW else EDIT.

End Steps.

(** *** The settings panel: [renderSettings] and [toggleTune] *)

Section Settings.

Context {Table : Type} `{!TableView Table}.

#[local] Existing Instances M_ret M_bind.

(** The class names of the host for a settings button and for the active
    one, [this.api.styles.settingsButton] and
    [this.api.styles.settingsButtonActive], and the two icons the plugin
    imports. *)
Variables (settingsButton settingsButtonActive : string).
Variables (withHeadings_svg withoutHeadings_svg : string).

Record Tune := {
  name : string;
  icon : string;
  isActive : bool;
  setTune : M Table unit
}.

(** [this.data.withHeadings = h] *)
Definition set_withHeadings (h : bool) : M Table unit := fun w =>
  (Normal unit (),
   {| this :=
        set_data {| withHeadings := h;
                    content := content (data (this w));
                    snippet := snippet (data (this w)) |} (this w);
      network := network w; console := console w |}).

(** The wrapper [renderSettings] returns, with the buttons appended to it
    and the tune each button's click listener holds. *)
Record SettingsPanel := {
  panel_wrapper : DOM.Element;
  panel_buttons : list (Tune * DOM.Element)
}.

(** [renderSettings]: one button per tune, the active one marked.  The
    icon a button shows and the tooltip the host attaches to it are not
    kept. *)
Definition renderSettings : M Table SettingsPanel := fun w =>
  let wrapper := DOM.make "div" [CSS.settingsWrapper] in
  let tunes :=
    [ {| name := i18n_t (api (this w)) "With headings";
         icon := withHeadings_svg;
         isActive := withHeadings (data (this w));
         setTune := set_withHeadings true |};
      {| name := i18n_t (api (this w)) "Without headings";
         icon := withoutHeadings_svg;
         isActive := negb (withHeadings (data (this w)));
         setTune := set_withHeadings false |} ] in
  (Normal SettingsPanel
     {| panel_wrapper := wrapper;
        panel_buttons :=
          map (fun tune =>
                 let tuneButton := DOM.make "div" [settingsButton] in
                 (tune,
                  if isActive tune
                  then DOM.classList_add settingsButtonActive tuneButton
                  else tuneButton))
            tunes |},
   w).

(** [toggleTune(tune, tuneButton)], for the button at position [k] among
    the children [buttons] of the wrapper: the buttons after the click, and
    what the click does to the block.  [querySelectorAll] finds the children
    that carry the class of a settings button. *)
Definition toggleTune (tune : Tune) (k : nat) (buttons : list DOM.Element)
  : list DOM.Element * M Table unit :=
  let cleared :=
    map (fun button =>
           if decide (settingsButton ∈ DOM.classList button)
           then DOM.classList_remove settingsButtonActive button
           else button)
      buttons in
  let marked := alter (classList_toggle settingsButtonActive) k cleared in
  (marked,
   setTune tune;;
   b ← get_this;
   match table b with
   | Some t =>
       modify_this
         (set_table (Some (setHeadingsSetting (withHeadings (data b)) t)))
   | None => throw "TypeError"
   end).

(** A button is marked active. *)
Definition active (button : DOM.Element) : Prop :=
  settingsButtonActive ∈ DOM.classList button.

End Settings.

Arguments Tune : clear implicits.
Arguments SettingsPanel : clear implicits.

(** Sample class names for the settings buttons, and a sample icon. *)
Definition sample_button : string := "cdx-settings-button".
Definition sample_button_active : string := "cdx-settings-button--active".
Definition sample_svg : string := "<svg></svg>".


(** The panel of the sample block, and its second button with its tune. *)
Definition sample_off_tune : Tune Grid :=
  {| name := "Without headings"; icon := sample_svg; isActive := true;
     setTune := set_withHeadings false |}.

Definition sample_panel : SettingsPanel Grid :=
  {| panel_wrapper := DOM.make "div" [CSS.settingsWrapper];
     panel_buttons :=
       [({| name := "With headings"; icon := sample_svg; isActive := false;
            setTune := set_withHeadings true |},
         DOM.make "div" [sample_button]);
        (sample_off_tune,
         DOM.classList_add sample_button_active
           (DOM.make "div" [sample_button]))] |}.

(** The sample block after the address was typed. *)
Definition typed_block : World Grid :=
  exec (dispatch (Input "http://x")) fresh_block.

(** * Properties *)

(** ** Double-precision arithmetic *)

Module DoubleFacts.

Import Double.

(** *** Powers of two, the binary exponent, rounding to nearest even *)

Lemma pow2_pos e : (0 < pow2 e)%Q.
Proof. apply Qpower_0_lt. reflexivity. Qed.

Lemma pow2_add a b : (pow2 (a + b) == pow2 a * pow2 b)%Q.
Proof. apply Qpower_plus. discriminate. Qed.

Lemma pow2_Z e : 0 <= e -> (pow2 e == inject_Z (2 ^ e))%Q.
Proof. intros He. symmetry. apply (Zpower_Qpower 2 e He). Qed.

Lemma pow2_le a b : a <= b -> (pow2 a <= pow2 b)%Q.
Proof. intros H. apply Qpower_le_compat_l; [exact H|]. discriminate. Qed.

Lemma pow2_lt a b : a < b -> (pow2 a < pow2 b)%Q.
Proof. intros H. apply Qpower_lt_compat_l; [exact H|]. reflexivity. Qed.

Lemma pow2_lt_inv a b : (pow2 a < pow2 b)%Q -> a < b.
Proof.
  intros H. destruct (Z_lt_le_dec a b) as [|Hle]; [assumption|].
  apply pow2_le in Hle. lra.
Qed.

Lemma pow2_succ e : (pow2 (e + 1) == 2 * pow2 e)%Q.
Proof. rewrite pow2_add. change (pow2 1) with 2%Q. ring. Qed.

Lemma pow2_pred e : (pow2 (e - 1) == pow2 e / 2)%Q.
Proof.
  assert (H := pow2_succ (e - 1)). replace (e - 1 + 1) with e in H by lia.
  rewrite H. field.
Qed.

Lemma inject_Z_log2 a : 0 < a ->
  (pow2 (Z.log2 a) <= inject_Z a /\ inject_Z a < pow2 (Z.log2 a + 1))%Q.
Proof.
  intros Ha. destruct (Z.log2_spec a Ha) as [H1 H2].
  assert (H0 := Z.log2_nonneg a).
  rewrite !pow2_Z by lia. split.
  - rewrite <- Zle_Qle. exact H1.
  - rewrite <- Zlt_Qlt. replace (Z.log2 a + 1) with (Z.succ (Z.log2 a)) by lia.
    exact H2.
Qed.

Lemma ilog2_spec x : (0 < x)%Q ->
  (pow2 (ilog2 x) <= x /\ x < pow2 (ilog2 x + 1))%Q.
Proof.
  intros Hx. destruct x as [a b].
  assert (Ha : 0 < a) by (unfold Qlt in Hx; simpl in Hx; lia).
  destruct (inject_Z_log2 a Ha) as [A1 A2].
  destruct (inject_Z_log2 (Z.pos b)) as [B1 B2]; [lia|].
  assert (Hx' : (a # b == inject_Z a / inject_Z (Z.pos b))%Q)
    by apply Qmake_Qdiv.
  assert (Hb : (0 < inject_Z (Z.pos b))%Q) by (rewrite <- (Zlt_Qlt 0); lia).
  unfold ilog2. cbn [Qnum Qden].
  set (la := Z.log2 a) in *. set (lb := Z.log2 (Z.pos b)) in *.
  assert (P1 := pow2_pos (la - lb)). assert (P2 := pow2_pos lb).
  assert (E1 : (pow2 la == pow2 (la - lb) * pow2 lb)%Q)
    by (rewrite <- pow2_add; f_equiv; lia).
  assert (E2 : (pow2 (la + 1) == 2 * pow2 la)%Q) by apply pow2_succ.
  assert (E3 : (pow2 (lb + 1) == 2 * pow2 lb)%Q) by apply pow2_succ.
  assert (E4 : (pow2 (la - lb + 1) == 2 * pow2 (la - lb))%Q) by apply pow2_succ.
  assert (E5 : (pow2 (la - lb - 1) == pow2 (la - lb) / 2)%Q) by apply pow2_pred.
  assert (Hxb : ((a # b) * inject_Z (Z.pos b) == inject_Z a)%Q)
    by (rewrite Hx'; field; lra).
  destruct (Qle_bool (pow2 (la - lb)) (a # b)) eqn:Hc.
  - apply Qle_bool_iff in Hc. split; [exact Hc|].
    rewrite E4. apply Qnot_le_lt. intros Hn.
    assert ((2 * pow2 (la - lb)) * pow2 lb <= (a # b) * inject_Z (Z.pos b))%Q.
    { apply Qle_trans with ((a # b) * pow2 lb)%Q.
      - apply Qmult_le_compat_r; lra.
      - apply Qmult_le_l; lra || (apply Qlt_le_trans with (pow2 (la - lb)); lra). }
    lra.
  - assert (Hlt : (a # b < pow2 (la - lb))%Q).
    { apply Qnot_le_lt. intros Hn. apply Qle_bool_iff in Hn. congruence. }
    replace (la - lb - 1 + 1) with (la - lb) by lia. split; [|exact Hlt].
    rewrite E5. apply Qnot_lt_le. intros Hn.
    assert ((a # b) * inject_Z (Z.pos b) < pow2 (la - lb) / 2 * (2 * pow2 lb))%Q.
    { apply Qle_lt_trans with ((a # b) * (2 * pow2 lb))%Q.
      - apply Qmult_le_l; lra.
      - apply Qmult_lt_r; lra. }
    assert (pow2 (la - lb) / 2 * (2 * pow2 lb) == pow2 la)%Q by (rewrite E1; field).
    lra.
Qed.

Lemma ilog2_lt x k : (0 < x)%Q -> (x < pow2 k)%Q -> ilog2 x < k.
Proof.
  intros Hx H. destruct (ilog2_spec x Hx) as [H1 _].
  apply pow2_lt_inv. lra.
Qed.

Lemma ilog2_ge x k : (0 < x)%Q -> (pow2 k <= x)%Q -> k <= ilog2 x.
Proof.
  intros Hx H. destruct (ilog2_spec x Hx) as [_ H2].
  assert (k < ilog2 x + 1); [|lia]. apply pow2_lt_inv. lra.
Qed.

Lemma ilog2_unique x e :
  (pow2 e <= x)%Q -> (x < pow2 (e + 1))%Q -> ilog2 x = e.
Proof.
  intros H1 H2. assert (Hx : (0 < x)%Q) by (assert (P := pow2_pos e); lra).
  assert (A := ilog2_lt x (e + 1) Hx H2). assert (B := ilog2_ge x e Hx H1).
  lia.
Qed.

Lemma ilog2_comp x y : (0 < x)%Q -> (x == y)%Q -> ilog2 x = ilog2 y.
Proof.
  intros Hx E. destruct (ilog2_spec x Hx) as [H1 H2].
  symmetry. apply ilog2_unique; rewrite <- E; assumption.
Qed.

Lemma nearest_even_cases t :
  (nearest_even t = Qfloor t /\ (t - inject_Z (Qfloor t) <= 1 # 2)%Q) \/
  (nearest_even t = Qfloor t + 1 /\ (1 # 2 <= t - inject_Z (Qfloor t))%Q).
Proof.
  unfold nearest_even.
  destruct (Qcompare_spec (t - inject_Z (Qfloor t)) (1 # 2)) as [E|L|G].
  - destruct (Z.even (Qfloor t)); [left|right]; split; try reflexivity; lra.
  - left. split; [reflexivity|lra].
  - right. split; [reflexivity|lra].
Qed.

Lemma nearest_even_close t :
  (Qabs (inject_Z (nearest_even t) - t) <= 1 # 2)%Q.
Proof.
  assert (L := Qfloor_le t). assert (U := Qlt_floor t).
  rewrite inject_Z_plus in U. change (inject_Z 1) with 1%Q in U.
  apply Qabs_Qle_condition.
  destruct (nearest_even_cases t) as [[-> H]|[-> H]];
    rewrite ?inject_Z_plus; change (inject_Z 1) with 1%Q; split; lra.
Qed.

Lemma Qfloor_eq t n : (t == inject_Z n)%Q -> Qfloor t = n.
Proof. intros E. rewrite E. apply Qfloor_Z. Qed.

Lemma nearest_even_Z t n : (t == inject_Z n)%Q -> nearest_even t = n.
Proof.
  intros E. assert (F := Qfloor_eq t n E).
  destruct (nearest_even_cases t) as [[-> H]|[-> H]]; [exact F|].
  rewrite F in H. lra.
Qed.

Lemma nearest_even_le t N : (t <= inject_Z N)%Q -> nearest_even t <= N.
Proof.
  intros H. assert (L := Qfloor_le t).
  assert (F : Qfloor t <= N) by (rewrite Zle_Qle; lra).
  destruct (nearest_even_cases t) as [[-> _]|[-> H1]]; [exact F|].
  assert (Qfloor t <> N); [|lia]. intros E. rewrite E in H1. lra.
Qed.

Lemma nearest_even_ge t N : (inject_Z N <= t)%Q -> N <= nearest_even t.
Proof.
  intros H. assert (F : N <= Qfloor t).
  { rewrite <- (Qfloor_Z N). apply Qfloor_resp_le. exact H. }
  destruct (nearest_even_cases t) as [[-> _]|[-> _]]; lia.
Qed.

Lemma nearest_even_comp t u : (t == u)%Q -> nearest_even t = nearest_even u.
Proof.
  intros E. unfold nearest_even. rewrite (Qfloor_comp _ _ E).
  assert (C : ((t - inject_Z (Qfloor u) ?= 1 # 2) =
               (u - inject_Z (Qfloor u) ?= 1 # 2))%Q) by (rewrite E; reflexivity).
  rewrite C. reflexivity.
Qed.

Lemma val_finite s m e :
  (val (S754_finite s m e) == signed s (inject_Z (Z.pos m) * pow2 e))%Q.
Proof. unfold val, signed. destruct s; ring. Qed.

Lemma Qnum_0 x : Qnum x = 0 <-> (x == 0)%Q.
Proof. unfold Qeq. simpl. lia. Qed.

Lemma Qnum_neg x : (Qnum x <? 0) = true <-> (x < 0)%Q.
Proof. unfold Qlt. simpl. rewrite Z.ltb_lt. lia. Qed.

Lemma signed_abs x : (signed (Qnum x <? 0) (Qabs x) == x)%Q.
Proof.
  unfold signed. destruct (Qnum x <? 0) eqn:E.
  - apply Qnum_neg in E. rewrite Qabs_neg by lra. ring.
  - assert (~ (x < 0)%Q) by (rewrite <- Qnum_neg; congruence).
    rewrite Qabs_pos by lra. reflexivity.
Qed.

Lemma of_Q_unfold x : ~ (x == 0)%Q ->
  of_Q x =
  let s := Qnum x <? 0 in
  let a := Qabs x in
  let '(n, q) :=
    if significand a =? 2 ^ 53 then (2 ^ 52, place a + 1)
    else (significand a, place a) in
  match n with
  | Z.pos m => if q <=? 971 then S754_finite s m q else S754_infinity s
  | _ => S754_zero s
  end.
Proof.
  intros Hx. unfold of_Q. destruct (Qnum x) eqn:E.
  - exfalso. apply Hx. apply Qnum_0. exact E.
  - reflexivity.
  - reflexivity.
Qed.

Lemma significand_bounds a : (0 < a)%Q ->
  0 <= significand a <= 2 ^ 53 /\
  (ilog2 a - 52 >= -1074 -> 2 ^ 52 <= significand a).
Proof.
  intros Ha. destruct (ilog2_spec a Ha) as [L U].
  unfold significand. set (q := place a).
  assert (Pq := pow2_pos q).
  assert (Hq : ilog2 a - 52 <= q) by (unfold q, place; lia).
  assert (T : (a / pow2 q < inject_Z (2 ^ 53))%Q).
  { rewrite <- pow2_Z by lia. apply Qlt_shift_div_r; [exact Pq|].
    rewrite <- pow2_add. apply Qlt_le_trans with (1 := U).
    apply pow2_le. lia. }
  split; [split|].
  - apply nearest_even_ge. change (inject_Z 0) with 0%Q.
    apply Qle_shift_div_l; [exact Pq|]. lra.
  - apply nearest_even_le. lra.
  - intros Hn. assert (q = ilog2 a - 52) as Eq by (unfold q, place; lia).
    apply nearest_even_ge. rewrite <- pow2_Z by lia.
    apply Qle_shift_div_l; [exact Pq|]. rewrite <- pow2_add.
    apply Qle_trans with (2 := L). apply pow2_le. lia.
Qed.

(** Within the range of the finite doubles, [of_Q] yields a finite double
    whose value is the significand at its place. *)
Lemma of_Q_finite x :
  (pow2 (-1074) <= Qabs x)%Q -> (Qabs x < pow2 1023)%Q ->
  exists m e,
    of_Q x = S754_finite (Qnum x <? 0) m e /\
    (val (of_Q x) ==
     signed (Qnum x <? 0)
       (inject_Z (significand (Qabs x)) * pow2 (place (Qabs x))))%Q.
Proof.
  intros Hlo Hhi. set (a := Qabs x) in *.
  assert (Ha : (0 < a)%Q) by (assert (P := pow2_pos (-1074)); lra).
  assert (Hx : ~ (x == 0)%Q).
  { intros E. unfold a in Ha. rewrite E in Ha. revert Ha. apply Qlt_irrefl. }
  rewrite (of_Q_unfold x Hx). cbv zeta. fold a.
  destruct (significand_bounds a Ha) as [[N0 N1] N2].
  assert (He : ilog2 a < 1023) by (apply ilog2_lt; assumption).
  assert (He' : -1074 <= ilog2 a) by (apply ilog2_ge; assumption).
  assert (Hq : place a <= 970) by (unfold place; lia).
  assert (Hpos : 0 < significand a).
  { destruct (Z_le_gt_dec (-1074) (ilog2 a - 52)) as [Hn|Hs].
    - assert (2 ^ 52 <= significand a) by (apply N2; lia). lia.
    - assert (place a = -1074) as Ep by (unfold place; lia).
      unfold significand. rewrite Ep.
      assert (1 <= nearest_even (a / pow2 (-1074))); [|lia].
      apply nearest_even_ge. change (inject_Z 1) with 1%Q.
      apply Qle_shift_div_l; [apply pow2_pos|]. lra. }
  destruct (significand a =? 2 ^ 53) eqn:Ec.
  - apply Z.eqb_eq in Ec. change (2 ^ 52) with (Z.pos (Z.to_pos (2 ^ 52))).
    assert ((place a + 1 <=? 971) = true) as -> by (apply Z.leb_le; lia).
    eexists _, _. split; [reflexivity|].
    rewrite val_finite. assert (E := pow2_succ (place a)).
    assert (E' : (inject_Z (significand a) == 2 * inject_Z (2 ^ 52))%Q)
      by (rewrite Ec; reflexivity).
    change (inject_Z (Z.pos (Z.to_pos (2 ^ 52)))) with (inject_Z (2 ^ 52)).
    unfold signed. destruct (Qnum x <? 0); rewrite E, E'; ring.
  - destruct (significand a) as [|m|m] eqn:Es; try lia.
    assert ((place a <=? 971) = true) as -> by (apply Z.leb_le; lia).
    eexists _, _. split; [reflexivity|].
    rewrite val_finite. reflexivity.
Qed.

(** The rounding error is at most half a unit in the last place. *)
Lemma of_Q_error x :
  (pow2 (-1074) <= Qabs x)%Q -> (Qabs x < pow2 1023)%Q ->
  (Qabs (val (of_Q x) - x) <= pow2 (place (Qabs x) - 1))%Q.
Proof.
  intros Hlo Hhi. destruct (of_Q_finite x Hlo Hhi) as (m & e & _ & V).
  rewrite V. set (a := Qabs x). set (q := place a).
  assert (Pq := pow2_pos q).
  assert (C : (Qabs (inject_Z (significand a) - a / pow2 q) <= 1 # 2)%Q)
    by apply nearest_even_close.
  assert (E : (signed (Qnum x <? 0) (inject_Z (significand a) * pow2 q) - x ==
               signed (Qnum x <? 0)
                 ((inject_Z (significand a) - a / pow2 q) * pow2 q))%Q).
  { rewrite <- (signed_abs x) at 2. fold a. unfold signed.
    destruct (Qnum x <? 0); field; lra. }
  rewrite E. assert (S : forall s y, (Qabs (signed s y) == Qabs y)%Q).
  { intros [] y; unfold signed; [apply Qabs_opp|reflexivity]. }
  rewrite S, Qabs_Qmult, (Qabs_pos (pow2 q)) by lra.
  rewrite pow2_pred.
  apply Qle_trans with ((1 # 2) * pow2 q)%Q.
  - apply Qmult_le_compat_r; [exact C|lra].
  - apply Qle_lteq. right. field.
Qed.

(** A value that fits the last place is kept. *)
Lemma of_Q_exact x n j :
  (x == inject_Z n * pow2 j)%Q -> Z.abs n < 2 ^ 53 -> -1074 <= j ->
  (Qabs x < pow2 1023)%Q -> (val (of_Q x) == x)%Q.
Proof.
  intros E Hn Hj Hhi.
  destruct (Z.eq_dec n 0) as [->|Hn0].
  { assert (x == 0)%Q as Ex by (rewrite E; ring).
    unfold of_Q. apply Qnum_0 in Ex. rewrite Ex. simpl. symmetry.
    apply Qnum_0. exact Ex. }
  set (a := Qabs x) in *.
  assert (Pj := pow2_pos j).
  assert (Ea : (a == inject_Z (Z.abs n) * pow2 j)%Q).
  { unfold a. rewrite E, Qabs_Qmult, (Qabs_pos (pow2 j)) by lra.
    reflexivity. }
  assert (Hn1 : (1 <= inject_Z (Z.abs n))%Q) by (rewrite <- (Zle_Qle 1); lia).
  assert (Hn2 : (inject_Z (Z.abs n) < pow2 53)%Q).
  { rewrite pow2_Z by lia. rewrite <- Zlt_Qlt. exact Hn. }
  assert (Ha : (0 < a)%Q).
  { rewrite Ea. apply Qlt_le_trans with (1 * pow2 j)%Q; [lra|].
    apply Qmult_le_compat_r; lra. }
  assert (Hlo : (pow2 (-1074) <= a)%Q).
  { rewrite Ea. apply Qle_trans with (1 * pow2 j)%Q.
    - rewrite Qmult_1_l. apply pow2_le. lia.
    - apply Qmult_le_compat_r; lra. }
  destruct (of_Q_finite x Hlo Hhi) as (m & e & _ & V).
  rewrite V. fold a.
  assert (He : ilog2 a < 53 + j).
  { apply ilog2_lt; [exact Ha|]. rewrite Ea, pow2_add.
    apply Qmult_lt_r; lra. }
  assert (Hq : place a <= j) by (unfold place; lia).
  set (q := place a) in *. assert (Pq := pow2_pos q).
  assert (Ej : (pow2 j == inject_Z (2 ^ (j - q)) * pow2 q)%Q).
  { rewrite <- pow2_Z by lia. rewrite <- pow2_add. f_equiv. lia. }
  assert (Es : significand a = Z.abs n * 2 ^ (j - q)).
  { unfold significand. fold q. apply nearest_even_Z.
    rewrite inject_Z_mult, Ea, Ej. field. lra. }
  rewrite Es, inject_Z_mult.
  assert (Ex := signed_abs x). fold a in Ex. rewrite <- Ex at 2.
  unfold signed. destruct (Qnum x <? 0); rewrite Ea, Ej; ring.
Qed.

Lemma Qnum_neg_comp x y : (x == y)%Q -> (Qnum x <? 0) = (Qnum y <? 0).
Proof.
  intros E. apply eq_true_iff_eq. rewrite !Qnum_neg, E. reflexivity.
Qed.

Lemma place_comp a b : (0 < a)%Q -> (a == b)%Q -> place a = place b.
Proof. intros Ha E. unfold place. rewrite (ilog2_comp a b Ha E). reflexivity. Qed.

Lemma significand_comp a b :
  (0 < a)%Q -> (a == b)%Q -> significand a = significand b.
Proof.
  intros Ha E. unfold significand. rewrite (place_comp a b Ha E).
  apply nearest_even_comp. rewrite E. reflexivity.
Qed.

Lemma of_Q_comp x y : (x == y)%Q -> of_Q x = of_Q y.
Proof.
  intros E. destruct (Qeq_dec x 0) as [Z|N].
  - assert (Z' : (y == 0)%Q) by (rewrite <- E; exact Z).
    unfold of_Q. apply Qnum_0 in Z, Z'. rewrite Z, Z'. reflexivity.
  - assert (N' : ~ (y == 0)%Q) by (rewrite <- E; exact N).
    rewrite (of_Q_unfold x N), (of_Q_unfold y N'). cbv zeta.
    assert (Ha : (0 < Qabs x)%Q).
    { assert (P := Qabs_nonneg x). apply Qle_lteq in P. destruct P as [P|P]; [exact P|].
      exfalso. apply N. symmetry in P. revert P. apply Qabs_case; intros ? P; lra. }
    assert (Ea : (Qabs x == Qabs y)%Q) by (rewrite E; reflexivity).
    rewrite (Qnum_neg_comp x y E), (place_comp _ _ Ha Ea),
      (significand_comp _ _ Ha Ea). reflexivity.
Qed.

Lemma round_signed_comp s x y : (x == y)%Q -> round_signed s x = round_signed s y.
Proof.
  intros E. unfold round_signed. rewrite (of_Q_comp x y E).
  destruct (Qeq_dec x 0) as [Z|N].
  - assert (Z' : (y == 0)%Q) by (rewrite <- E; exact Z).
    apply Qnum_0 in Z, Z'. rewrite Z, Z'. reflexivity.
  - assert (N' : ~ (y == 0)%Q) by (rewrite <- E; exact N).
    rewrite <- Qnum_0 in N, N'.
    destruct (Qnum x), (Qnum y); congruence.
Qed.

Lemma round_signed_zero s x : (x == 0)%Q -> round_signed s x = S754_zero s.
Proof. intros E. apply Qnum_0 in E. unfold round_signed. rewrite E. reflexivity. Qed.

Lemma round_signed_nonzero s x : ~ (x == 0)%Q -> round_signed s x = of_Q x.
Proof.
  intros N. rewrite <- Qnum_0 in N. unfold round_signed.
  destruct (Qnum x); congruence.
Qed.

Lemma of_Q_zero x : (x == 0)%Q -> of_Q x = S754_zero false.
Proof. intros E. apply Qnum_0 in E. unfold of_Q. rewrite E. reflexivity. Qed.

Lemma round_signed_false x : round_signed false x = of_Q x.
Proof.
  destruct (Qeq_dec x 0) as [Z|N].
  - rewrite round_signed_zero, of_Q_zero by exact Z. reflexivity.
  - apply round_signed_nonzero. exact N.
Qed.

Lemma Qabs_pos_iff x : ~ (x == 0)%Q -> (0 < Qabs x)%Q.
Proof.
  intros N. assert (P := Qabs_nonneg x). apply Qle_lteq in P.
  destruct P as [P|P]; [exact P|]. exfalso. apply N. symmetry in P.
  revert P. apply Qabs_case; intros ? P; lra.
Qed.

Lemma fits_range x : fits x -> ~ (x == 0)%Q ->
  (pow2 (-1074) <= Qabs x)%Q /\ (Qabs x < pow2 1023)%Q.
Proof.
  intros (n & j & E & Hn & Hj & Hhi) N. split; [|exact Hhi].
  assert (Pj := pow2_pos j).
  assert (Hn0 : n <> 0).
  { intros ->. apply N. rewrite E. ring. }
  assert (Ea : (Qabs x == inject_Z (Z.abs n) * pow2 j)%Q).
  { rewrite E, Qabs_Qmult, (Qabs_pos (pow2 j)) by lra. reflexivity. }
  assert (Hn1 : (1 <= inject_Z (Z.abs n))%Q) by (rewrite <- (Zle_Qle 1); lia).
  rewrite Ea. apply Qle_trans with (1 * pow2 j)%Q.
  - rewrite Qmult_1_l. apply pow2_le. lia.
  - apply Qmult_le_compat_r; lra.
Qed.

Lemma of_Q_fits x : fits x ->
  (val (of_Q x) == x)%Q /\ is_finite (of_Q x) = true /\
  sign (of_Q x) = (Qnum x <? 0).
Proof.
  intros F. split; [|].
  - destruct F as (n & j & E & Hn & Hj & Hhi). exact (of_Q_exact x n j E Hn Hj Hhi).
  - destruct (Qeq_dec x 0) as [Z|N].
    + rewrite (of_Q_zero x Z). apply Qnum_0 in Z. rewrite Z. split; reflexivity.
    + destruct (fits_range x F N) as [Hlo Hhi].
      destruct (of_Q_finite x Hlo Hhi) as (m & e & -> & _). split; reflexivity.
Qed.

Lemma fits_Z n : Z.abs n <= 2 ^ 53 -> fits (inject_Z n).
Proof.
  intros Hn. assert (Hhi : (Qabs (inject_Z n) < pow2 1023)%Q).
  { change (Qabs (inject_Z n)) with (inject_Z (Z.abs n)).
    apply Qle_lt_trans with (pow2 53).
    - rewrite pow2_Z by lia. rewrite <- Zle_Qle. exact Hn.
    - apply pow2_lt. lia. }
  destruct (Z.eq_dec (Z.abs n) (2 ^ 53)) as [E|N].
  - exists (n / 2), 1. change (2 ^ 53) with 9007199254740992 in *.
    assert (n = 9007199254740992 \/ n = - 9007199254740992) as [-> | ->]
      by lia; (split; [|split; [|split]]; [reflexivity|reflexivity|lia|exact Hhi]).
  - exists n, 0. split; [|split; [|split]]; [|lia|lia|exact Hhi].
    change (pow2 0) with 1%Q. ring.
Qed.

(** A multiple of four up to [2^55] fits as well. *)
Lemma fits_4Z n : Z.abs n < 2 ^ 53 -> fits (inject_Z (4 * n)).
Proof.
  intros Hn. exists n, 2. split; [|split; [|split]]; [|lia|lia|].
  - change (pow2 2) with (inject_Z 4). rewrite <- inject_Z_mult.
    rewrite Z.mul_comm. reflexivity.
  - change (Qabs (inject_Z (4 * n))) with (inject_Z (Z.abs (4 * n))).
    apply Qle_lt_trans with (pow2 55).
    + rewrite pow2_Z by lia. rewrite <- Zle_Qle. lia.
    + apply pow2_lt. lia.
Qed.

Lemma of_Z_fits n : fits (inject_Z n) ->
  (val (of_Z n) == inject_Z n)%Q /\ is_finite (of_Z n) = true /\
  sign (of_Z n) = (n <? 0).
Proof. intros F. exact (of_Q_fits _ F). Qed.

Lemma mul_finite x y : is_finite x = true -> is_finite y = true ->
  mul x y = round_signed (xorb (sign x) (sign y)) (val x * val y).
Proof. destruct x, y; try discriminate; reflexivity. Qed.

Lemma add_finite x y : is_finite x = true -> is_finite y = true ->
  add x y = round_signed (sign x && sign y) (val x + val y).
Proof. destruct x, y; try discriminate; reflexivity. Qed.

Lemma div_finite x y : is_finite x = true -> is_finite y = true ->
  ~ (val y == 0)%Q ->
  div x y = round_signed (xorb (sign x) (sign y)) (val x / val y).
Proof.
  destruct x, y; try discriminate; try reflexivity;
    intros _ _ N; exfalso; apply N; reflexivity.
Qed.

Lemma opp_finite x : is_finite x = true ->
  is_finite (opp x) = true /\ (val (opp x) == - val x)%Q /\
  sign (opp x) = negb (sign x).
Proof.
  destruct x as [s|s| |s m e]; try discriminate; intros _;
    (split; [reflexivity|split; [|reflexivity]]).
  - reflexivity.
  - cbn [opp]. rewrite !val_finite. destruct s; unfold signed; cbn [negb]; ring.
Qed.

Lemma Math_floor_finite x : is_finite x = true ->
  Math_floor x = S754_zero true /\ x = S754_zero true \/
  Math_floor x = of_Z (Qfloor (val x)).
Proof.
  destruct x as [[]|s| |s m e]; try discriminate; intros _.
  - left. split; reflexivity.
  - right. reflexivity.
  - right. unfold Math_floor. apply round_signed_false.
Qed.

(** Integer arithmetic within the doubles. *)
Lemma add_of_Z a b : fits (inject_Z a) -> fits (inject_Z b) ->
  add (of_Z a) (of_Z b) = of_Z (a + b).
Proof.
  intros Fa Fb. destruct (of_Z_fits a Fa) as (Va & Ia & Sa).
  destruct (of_Z_fits b Fb) as (Vb & Ib & Sb).
  rewrite (add_finite _ _ Ia Ib), Sa, Sb.
  rewrite (round_signed_comp _ _ (inject_Z (a + b)))
    by (rewrite Va, Vb, inject_Z_plus; reflexivity).
  destruct (Z.eq_dec (a + b) 0) as [E|N].
  - rewrite E. rewrite round_signed_zero by reflexivity.
    assert ((a <? 0) && (b <? 0) = false) as -> by lia. reflexivity.
  - apply round_signed_nonzero. intros E. apply N.
    apply inject_Z_injective. exact E.
Qed.

Lemma sub_of_Z a b : fits (inject_Z a) -> fits (inject_Z b) ->
  sub (of_Z a) (of_Z b) = of_Z (a - b).
Proof.
  intros Fa Fb. destruct (of_Z_fits a Fa) as (Va & Ia & Sa).
  destruct (of_Z_fits b Fb) as (Vb & Ib & Sb).
  destruct (opp_finite _ Ib) as (Io & Vo & So).
  unfold sub. rewrite (add_finite _ _ Ia Io), Sa, So, Sb.
  rewrite (round_signed_comp _ _ (inject_Z (a - b)))
    by (rewrite Va, Vo, Vb; unfold Z.sub; rewrite inject_Z_plus, inject_Z_opp;
        reflexivity).
  destruct (Z.eq_dec (a - b) 0) as [E|N].
  - rewrite E. rewrite round_signed_zero by reflexivity.
    assert ((a <? 0) && negb (b <? 0) = false) as -> by lia. reflexivity.
  - apply round_signed_nonzero. intros E. apply N.
    apply inject_Z_injective. exact E.
Qed.

Lemma mul_of_Z a b : fits (inject_Z a) -> fits (inject_Z b) ->
  0 <= a -> 0 <= b -> mul (of_Z a) (of_Z b) = of_Z (a * b).
Proof.
  intros Fa Fb Ha Hb. destruct (of_Z_fits a Fa) as (Va & Ia & Sa).
  destruct (of_Z_fits b Fb) as (Vb & Ib & Sb).
  rewrite (mul_finite _ _ Ia Ib), Sa, Sb.
  rewrite (round_signed_comp _ _ (inject_Z (a * b)))
    by (rewrite Va, Vb, inject_Z_mult; reflexivity).
  assert ((a <? 0) = false) as -> by lia.
  assert ((b <? 0) = false) as -> by lia.
  apply round_signed_false.
Qed.

Lemma mul_of_Z_nonzero a b : fits (inject_Z a) -> fits (inject_Z b) ->
  a * b <> 0 -> mul (of_Z a) (of_Z b) = of_Z (a * b).
Proof.
  intros Fa Fb N. destruct (of_Z_fits a Fa) as (Va & Ia & Sa).
  destruct (of_Z_fits b Fb) as (Vb & Ib & Sb).
  rewrite (mul_finite _ _ Ia Ib).
  rewrite (round_signed_comp _ _ (inject_Z (a * b)))
    by (rewrite Va, Vb, inject_Z_mult; reflexivity).
  apply round_signed_nonzero. intros E. apply N.
  apply inject_Z_injective. exact E.
Qed.

Lemma of_Z_inj a b : fits (inject_Z a) -> fits (inject_Z b) ->
  of_Z a = of_Z b -> a = b.
Proof.
  intros Fa Fb E. destruct (of_Z_fits a Fa) as (Va & _).
  destruct (of_Z_fits b Fb) as (Vb & _). apply inject_Z_injective.
  rewrite <- Va, <- Vb, E. reflexivity.
Qed.

Lemma Qfloor_between v k :
  (inject_Z k <= v)%Q -> (v < inject_Z (k + 1))%Q -> Qfloor v = k.
Proof.
  intros L U. assert (A := Qfloor_le v). assert (B := Qlt_floor v).
  assert (Qfloor v < k + 1) by (rewrite Zlt_Qlt; lra).
  assert (k < Qfloor v + 1) by (rewrite Zlt_Qlt; lra).
  lia.
Qed.

Lemma mul_of_Z_signed a b : fits (inject_Z a) -> fits (inject_Z b) ->
  (a * b = 0 -> xorb (a <? 0) (b <? 0) = false) ->
  mul (of_Z a) (of_Z b) = of_Z (a * b).
Proof.
  intros Fa Fb S. destruct (of_Z_fits a Fa) as (Va & Ia & Sa).
  destruct (of_Z_fits b Fb) as (Vb & Ib & Sb).
  rewrite (mul_finite _ _ Ia Ib), Sa, Sb.
  rewrite (round_signed_comp _ _ (inject_Z (a * b)))
    by (rewrite Va, Vb, inject_Z_mult; reflexivity).
  destruct (Z.eq_dec (a * b) 0) as [E|N].
  - rewrite (S E), E. apply round_signed_false.
  - apply round_signed_nonzero. intros E. apply N.
    apply inject_Z_injective. exact E.
Qed.

Lemma fits_60 : fits (inject_Z 60).
Proof. apply fits_Z. vm_compute. discriminate. Qed.

Lemma Qabs_inject_Z n : Qabs (inject_Z n) = inject_Z (Z.abs n).
Proof. reflexivity. Qed.

(** Dividing a safe integer by sixty: the rounded quotient has the floor of
    the exact one. *)
Lemma div_60_floor m : Z.abs m <= 2 ^ 53 ->
  Math_floor (div (of_Z m) (of_Z 60)) = of_Z (m / 60).
Proof.
  intros Hm. assert (Fm := fits_Z m Hm).
  destruct (of_Z_fits m Fm) as (Vm & Im & Sm).
  destruct (of_Z_fits 60 fits_60) as (V60 & I60 & S60).
  rewrite div_finite; [|exact Im|exact I60|rewrite V60; discriminate].
  rewrite Sm, S60, Bool.xorb_false_r.
  rewrite (round_signed_comp _ _ (inject_Z m / 60))
    by (rewrite Vm, V60; reflexivity).
  destruct (Z.eq_dec m 0) as [->|Hm0]; [reflexivity|].
  assert (Nq : ~ (inject_Z m / 60 == 0)%Q).
  { intros E. apply Hm0. apply inject_Z_injective.
    assert (inject_Z m == (inject_Z m / 60) * 60)%Q as -> by field.
    rewrite E. reflexivity. }
  rewrite (round_signed_nonzero _ _ Nq).
  set (q := (inject_Z m / 60)%Q) in *. set (k := m / 60).
  assert (Hk : m = 60 * k + m mod 60) by (apply Z.div_mod; lia).
  assert (Hr := Z.mod_pos_bound m 60 ltac:(lia)).
  assert (Eq : (q == inject_Z k + inject_Z (m mod 60) * (1 # 60))%Q).
  { unfold q. rewrite Hk at 1. rewrite inject_Z_plus, inject_Z_mult. field. }
  change (2 ^ 53) with 9007199254740992 in Hm.
  assert (Ha : (Qabs q == inject_Z (Z.abs m) * (1 # 60))%Q).
  { unfold q, Qdiv. rewrite Qabs_Qmult. reflexivity. }
  assert (Hm1 : (1 <= inject_Z (Z.abs m))%Q) by (rewrite <- (Zle_Qle 1); lia).
  assert (Hm2 : (inject_Z (Z.abs m) <= 9007199254740992)%Q)
    by (rewrite <- (Zle_Qle _ 9007199254740992); lia).
  assert (Hlo : (pow2 (-1074) <= Qabs q)%Q).
  { rewrite Ha. apply Qle_trans with (pow2 (-6)); [apply pow2_le; lia|].
    change (pow2 (-6)) with (1 # 64)%Q. lra. }
  assert (Hhi48 : (Qabs q < pow2 48)%Q).
  { rewrite Ha. change (pow2 48) with 281474976710656%Q. lra. }
  assert (Hhi : (Qabs q < pow2 1023)%Q).
  { apply Qlt_trans with (1 := Hhi48). apply pow2_lt. lia. }
  destruct (of_Q_finite q Hlo Hhi) as (mq & eq & Ey & _).
  assert (Fl : Qfloor (val (of_Q q)) = k).
  { destruct (Z.eq_dec (m mod 60) 0) as [R0|R1].
    - assert (Eqk : (q == inject_Z k)%Q).
      { rewrite Eq, R0. change (inject_Z 0) with 0%Q. field. }
      assert (Fk : fits (inject_Z k)) by (apply fits_Z; unfold k; lia).
      destruct (of_Q_fits _ Fk) as (Vk & _).
      rewrite (of_Q_comp q _ Eqk), Vk. apply Qfloor_Z.
    - assert (Er := of_Q_error q Hlo Hhi).
      assert (Hp : place (Qabs q) <= -5).
      { assert (ilog2 (Qabs q) < 48); [|unfold place; lia].
        apply ilog2_lt; [|exact Hhi48].
        apply Qlt_le_trans with (2 := Hlo). apply pow2_pos. }
      assert (Hb : (pow2 (place (Qabs q) - 1) <= 1 # 64)%Q).
      { change (1 # 64)%Q with (pow2 (-6)). apply pow2_le. lia. }
      apply Qabs_diff_Qle_condition in Er.
      assert (R1' : (1 <= inject_Z (m mod 60))%Q) by (rewrite <- (Zle_Qle 1); lia).
      assert (R2' : (inject_Z (m mod 60) <= 59)%Q) by (rewrite <- (Zle_Qle _ 59); lia).
      apply Qfloor_between; rewrite ?inject_Z_plus; change (inject_Z 1) with 1%Q.
      + lra.
      + lra. }
  rewrite Ey in *. unfold Math_floor. rewrite Fl. apply round_signed_false.
Qed.

Lemma minutesToHoursMinutes_safe m : Z.abs m <= 2 ^ 53 ->
  Doubles.minutesToHoursMinutes (of_Z m) = (of_Z (m / 60), of_Z (m mod 60)).
Proof.
  intros Hm. unfold Doubles.minutesToHoursMinutes.
  rewrite (div_60_floor m Hm).
  change (2 ^ 53) with 9007199254740992 in Hm.
  assert (Hk : m = 60 * (m / 60) + m mod 60) by (apply Z.div_mod; lia).
  assert (Hr := Z.mod_pos_bound m 60 ltac:(lia)).
  assert (Fk : fits (inject_Z (m / 60)))
    by (apply fits_Z; change (2 ^ 53) with 9007199254740992; lia).
  rewrite mul_of_Z_signed; [|exact Fk|exact fits_60|].
  2:{ intros E. assert (m / 60 = 0) as -> by lia. reflexivity. }
  assert (F60k : fits (inject_Z (m / 60 * 60))).
  { replace (m / 60 * 60) with (4 * (15 * (m / 60))) by lia. apply fits_4Z.
    change (2 ^ 53) with 9007199254740992. lia. }
  rewrite sub_of_Z; [|apply fits_Z; exact Hm|exact F60k].
  f_equal. f_equal. lia.
Qed.

Lemma of_Q_relative x :
  (pow2 (-1022) <= Qabs x)%Q -> (Qabs x < pow2 1023)%Q ->
  (Qabs (val (of_Q x) - x) <= Qabs x * unit_roundoff)%Q.
Proof.
  intros Hlo Hhi.
  assert (Hlo' : (pow2 (-1074) <= Qabs x)%Q).
  { apply Qle_trans with (2 := Hlo). apply pow2_le. lia. }
  apply Qle_trans with (1 := of_Q_error x Hlo' Hhi).
  assert (Ha : (0 < Qabs x)%Q).
  { apply Qlt_le_trans with (2 := Hlo). apply pow2_pos. }
  assert (He : -1022 <= ilog2 (Qabs x)) by (apply ilog2_ge; assumption).
  assert (Ep : place (Qabs x) - 1 = ilog2 (Qabs x) + (-53)) by (unfold place; lia).
  rewrite Ep, pow2_add. change (pow2 (-53)) with unit_roundoff.
  apply Qmult_le_compat_r; [|discriminate].
  apply (ilog2_spec _ Ha).
Qed.

(** One rounding step, with the magnitude of the argument bracketed. *)
Lemma of_Q_step x lo hi :
  (lo <= Qabs x)%Q -> (Qabs x <= hi)%Q ->
  (pow2 (-1022) <= lo)%Q -> (hi < pow2 1023)%Q ->
  (Qabs (val (of_Q x) - x) <= hi * unit_roundoff)%Q /\
  is_finite (of_Q x) = true /\ sign (of_Q x) = (Qnum x <? 0) /\
  ~ (x == 0)%Q.
Proof.
  intros L H Hlo Hhi.
  assert (R1 : (pow2 (-1022) <= Qabs x)%Q) by lra.
  assert (R2 : (Qabs x < pow2 1023)%Q) by lra.
  split; [|split; [|split]].
  - apply Qle_trans with (1 := of_Q_relative x R1 R2).
    apply Qmult_le_compat_r; [exact H|discriminate].
  - assert (R1' : (pow2 (-1074) <= Qabs x)%Q).
    { apply Qle_trans with (2 := R1). apply pow2_le. lia. }
    destruct (of_Q_finite x R1' R2) as (m & e & -> & _). reflexivity.
  - assert (R1' : (pow2 (-1074) <= Qabs x)%Q).
    { apply Qle_trans with (2 := R1). apply pow2_le. lia. }
    destruct (of_Q_finite x R1' R2) as (m & e & -> & _). reflexivity.
  - intros E. rewrite E in R1. assert (P := pow2_pos (-1022)).
    change (Qabs 0) with 0%Q in R1. lra.
Qed.

Lemma Qabs_near x a e :
  (Qabs (x - a) <= e)%Q -> (Qabs a - e <= Qabs x /\ Qabs x <= Qabs a + e)%Q.
Proof.
  intros H. split.
  - assert (T := Qabs_triangle_reverse a x). rewrite Qabs_Qminus in H. lra.
  - assert (T := Qabs_triangle_reverse x a). lra.
Qed.

Lemma Qabs_chain x y z e1 e2 :
  (Qabs (x - y) <= e1)%Q -> (Qabs (y - z) <= e2)%Q ->
  (Qabs (x - z) <= e1 + e2)%Q.
Proof.
  intros H1 H2. assert (T := Qabs_triangle (x - y) (y - z)).
  assert (E : (x - y + (y - z) == x - z)%Q) by ring. rewrite E in T. lra.
Qed.

Lemma bill_in_cents_floor m p :
  Qfloor (inject_Z m * inject_Z p / 60 * 100 + (1 # 2)) = bill_in_cents m p.
Proof.
  unfold bill_in_cents. rewrite Zdiv_Qdiv.
  apply Qfloor_comp. rewrite inject_Z_plus, !inject_Z_mult. field.
Qed.

Lemma fits_100 : fits (inject_Z 100).
Proof. apply fits_Z. vm_compute. discriminate. Qed.

Lemma pow2_m1022_small : (pow2 (-1022) <= 1 # 1000)%Q.
Proof.
  apply Qle_trans with (pow2 (-10)); [apply pow2_le; lia|].
  vm_compute. discriminate.
Qed.

Lemma pow2_1023_big : (100000000000000000 < pow2 1023)%Q.
Proof.
  apply Qlt_le_trans with (pow2 60); [reflexivity|apply pow2_le; lia].
Qed.

Lemma zero_times_100 s :
  exists s', div (Math_round (mul (S754_zero s) (of_Z 100))) (of_Z 100)
             = S754_zero s'.
Proof. destruct s; vm_compute; eauto. Qed.

Lemma bill_zero m p : Z.abs m <= 2 ^ 53 -> Z.abs p <= 2 ^ 53 -> m * p = 0 ->
  exists s, Doubles.bill (of_Z m) (of_Z p) = S754_zero s.
Proof.
  intros Hm Hp E. unfold Doubles.bill.
  destruct (of_Z_fits m (fits_Z m Hm)) as (Vm & Im & Sm).
  destruct (of_Z_fits p (fits_Z p Hp)) as (Vp & Ip & Sp).
  destruct (of_Z_fits 60 fits_60) as (V60 & I60 & S60).
  assert (D : exists s', mul (of_Z m) (div (of_Z p) (of_Z 60)) = S754_zero s').
  { rewrite (div_finite _ _ Ip I60) by (rewrite V60; discriminate).
    destruct (Z.eq_dec p 0) as [->|Np].
    - change (round_signed _ _) with (S754_zero false).
      rewrite (mul_finite (of_Z m) (S754_zero false) Im eq_refl). eexists.
      apply round_signed_zero. cbn [val]. ring.
    - assert (m = 0) as -> by lia.
      rewrite (round_signed_comp _ _ (inject_Z p * (1 # 60)))
        by (rewrite Vp, V60; reflexivity).
      rewrite round_signed_nonzero.
      2:{ intros Z. apply Np. apply inject_Z_injective.
          assert (inject_Z p == inject_Z p * (1 # 60) * 60)%Q as -> by ring.
          rewrite Z. reflexivity. }
      assert (Hp1 : (1 <= inject_Z (Z.abs p))%Q) by (rewrite <- (Zle_Qle 1); lia).
      assert (Hp2 : (inject_Z (Z.abs p) <= 9007199254740992)%Q)
        by (rewrite <- (Zle_Qle _ 9007199254740992); exact Hp).
      assert (Ha : (Qabs (inject_Z p * (1 # 60)) == inject_Z (Z.abs p) * (1 # 60))%Q).
      { rewrite Qabs_Qmult. reflexivity. }
      destruct (of_Q_step (inject_Z p * (1 # 60)) (1 # 60) 9007199254740992)
        as (_ & I1 & _); try (rewrite Ha; lra).
      { assert (P := pow2_m1022_small). lra. }
      { assert (P := pow2_1023_big). lra. }
      change (of_Z 0) with (S754_zero false).
      rewrite (mul_finite (S754_zero false) _ eq_refl I1). eexists.
      apply round_signed_zero. cbn [val]. ring. }
  destruct D as (s' & ->). apply zero_times_100.
Qed.

Local Abbreviation u := (1 # 9007199254740992)%Q.

Lemma bill_nonzero m p : Z.abs (m * p) <= 10 ^ 14 -> m * p <> 0 ->
  Doubles.bill (of_Z m) (of_Z p) = of_Q (inject_Z (bill_in_cents m p) / 100).
Proof.
  intros HP NP. change (10 ^ 14) with 100000000000000 in HP.
  assert (Hab := Z.abs_mul m p).
  assert (Hm1 : 1 <= Z.abs m) by lia. assert (Hp1' : 1 <= Z.abs p) by lia.
  assert (Hm' : Z.abs m <= 100000000000000) by nia.
  assert (Hp' : Z.abs p <= 100000000000000) by nia.
  assert (Hm : Z.abs m <= 2 ^ 53) by (change (2 ^ 53) with 9007199254740992; lia).
  assert (Hp : Z.abs p <= 2 ^ 53) by (change (2 ^ 53) with 9007199254740992; lia).
  destruct (of_Z_fits m (fits_Z m Hm)) as (Vm & Im & Sm).
  destruct (of_Z_fits p (fits_Z p Hp)) as (Vp & Ip & Sp).
  destruct (of_Z_fits 60 fits_60) as (V60 & I60 & S60).
  destruct (of_Z_fits 100 fits_100) as (V100 & I100 & S100).
  assert (L := pow2_m1022_small). assert (U := pow2_1023_big).
  (* the magnitudes *)
  set (T := (inject_Z (Z.abs (m * p)) * (1 # 60))%Q).
  assert (T1 : (1 # 60 <= T)%Q).
  { unfold T. assert (1 <= inject_Z (Z.abs (m * p)))%Q; [|lra].
    rewrite <- (Zle_Qle 1). lia. }
  assert (T2 : (T <= 100000000000000 * (1 # 60))%Q).
  { unfold T. assert (inject_Z (Z.abs (m * p)) <= 100000000000000)%Q; [|lra].
    rewrite <- (Zle_Qle _ 100000000000000). exact HP. }
  set (A := (inject_Z (m * p) * (1 # 60))%Q).
  assert (EA : (Qabs A == T)%Q) by (unfold A; rewrite Qabs_Qmult; reflexivity).
  (* per_hour / 60 *)
  set (x1 := (inject_Z p * (1 # 60))%Q).
  assert (Ex1 : (Qabs x1 == inject_Z (Z.abs p) * (1 # 60))%Q)
    by (unfold x1; rewrite Qabs_Qmult; reflexivity).
  assert (Hp1 : (1 <= inject_Z (Z.abs p))%Q) by (rewrite <- (Zle_Qle 1); lia).
  assert (Hp2 : (inject_Z (Z.abs p) <= 100000000000000)%Q)
    by (rewrite <- (Zle_Qle _ 100000000000000); exact Hp').
  destruct (of_Q_step x1 (1 # 60) 100000000000000) as (_ & I1 & S1 & N1);
    try (rewrite Ex1; lra); try lra.
  assert (R1 : (Qabs (val (of_Q x1) - x1) <= Qabs x1 * u)%Q).
  { apply (of_Q_relative x1); rewrite Ex1; lra. }
  assert (D1 : div (of_Z p) (of_Z 60) = of_Q x1).
  { rewrite (div_finite _ _ Ip I60) by (rewrite V60; discriminate).
    rewrite (round_signed_comp _ _ x1) by (rewrite Vp, V60; reflexivity).
    apply round_signed_nonzero. exact N1. }
  set (v1 := val (of_Q x1)) in *.
  (* minutes * (per_hour / 60) *)
  set (y := (inject_Z m * v1)%Q).
  assert (Ey : (Qabs (y - A) <= T * u)%Q).
  { assert (E : (y - A == inject_Z m * (v1 - x1))%Q).
    { unfold y, A, x1. rewrite inject_Z_mult. ring. }
    rewrite E, Qabs_Qmult.
    assert (ET : (T * u == Qabs (inject_Z m) * (Qabs x1 * u))%Q).
    { unfold T. rewrite Ex1, Z.abs_mul, inject_Z_mult.
      change (Qabs (inject_Z m)) with (inject_Z (Z.abs m)). ring. }
    rewrite ET. apply Qmult_le_l; [|exact R1].
    change (Qabs (inject_Z m)) with (inject_Z (Z.abs m)).
    rewrite <- (Zlt_Qlt 0). lia. }
  destruct (Qabs_near _ _ _ Ey) as [Y1 Y2]. rewrite EA in Y1, Y2.
  destruct (of_Q_step y (T - T * u) (T + T * u)) as (R2 & I2 & S2 & N2);
    try lra. unfold unit_roundoff in R2.
  assert (D2 : mul (of_Z m) (of_Q x1) = of_Q y).
  { rewrite (mul_finite _ _ Im I1).
    rewrite (round_signed_comp _ _ y) by (unfold y, v1; rewrite Vm; reflexivity).
    apply round_signed_nonzero. exact N2. }
  set (v2 := val (of_Q y)) in *.
  assert (E2 : (Qabs (v2 - A) <= (T + T * u) * u + T * u)%Q)
    by (apply (Qabs_chain v2 y A); assumption).
  (* ... * 100 *)
  set (z := (v2 * 100)%Q).
  set (W := (inject_Z (m * p) * (5 # 3))%Q).
  assert (EW : (Qabs W == 100 * T)%Q).
  { unfold W, T. rewrite Qabs_Qmult.
    change (Qabs (inject_Z (m * p))) with (inject_Z (Z.abs (m * p))).
    change (Qabs (5 # 3)) with (5 # 3)%Q. ring. }
  assert (Ez : (Qabs (z - W) <= 100 * ((T + T * u) * u + T * u))%Q).
  { assert (E : (z - W == 100 * (v2 - A))%Q) by (unfold z, W, A; ring).
    rewrite E, Qabs_Qmult. change (Qabs 100) with 100%Q.
    apply Qmult_le_l; [reflexivity|exact E2]. }
  destruct (Qabs_near _ _ _ Ez) as [Z1 Z2]. rewrite EW in Z1, Z2.
  destruct (of_Q_step z (100 * T - 100 * ((T + T * u) * u + T * u))
              (100 * T + 100 * ((T + T * u) * u + T * u)))
    as (R3 & I3 & S3 & N3); try lra. unfold unit_roundoff in R3.
  assert (D3 : mul (of_Q y) (of_Z 100) = of_Q z).
  { rewrite (mul_finite _ _ I2 I100).
    rewrite (round_signed_comp _ _ z) by (unfold z, v2; rewrite V100; reflexivity).
    apply round_signed_nonzero. exact N3. }
  set (v3 := val (of_Q z)) in *.
  assert (E3 : (Qabs (v3 - W) <= 1 # 10)%Q).
  { apply Qle_trans with (1 := Qabs_chain v3 z W _ _ R3 Ez). lra. }
  (* Math.round *)
  set (c := bill_in_cents m p).
  assert (Hc : 6 * c + 1 <= 10 * (m * p) + 3 <= 6 * c + 5).
  { unfold c, bill_in_cents.
    assert (H1 := Z.div_mod (10 * (m * p) + 3) 6 ltac:(lia)).
    assert (H2 := Z.mod_pos_bound (10 * (m * p) + 3) 6 ltac:(lia)).
    assert (H3 : (10 * (m * p) + 3) mod 2 = 1).
    { replace (10 * (m * p) + 3) with (1 + (5 * (m * p) + 1) * 2) by lia.
      rewrite Z.mod_add by lia. reflexivity. }
    assert (H4 := Z.div_mod (10 * (m * p) + 3) 2 ltac:(lia)).
    lia. }
  assert (Hc0 : c <> 0) by lia.
  assert (HW : (inject_Z c + (1 # 6) <= W + (1 # 2) /\
                W + (1 # 2) <= inject_Z c + (5 # 6))%Q).
  { assert (E : (W + (1 # 2) == inject_Z (10 * (m * p) + 3) * (1 # 6))%Q).
    { unfold W. rewrite inject_Z_plus, !inject_Z_mult.
      change (inject_Z 10) with 10%Q. change (inject_Z 3) with 3%Q. ring. }
    rewrite E. destruct Hc as [C1 C2]. rewrite Zle_Qle in C1, C2.
    rewrite !inject_Z_plus, !inject_Z_mult in C1, C2.
    rewrite !inject_Z_plus, !inject_Z_mult.
    change (inject_Z 6) with 6%Q in *. change (inject_Z 10) with 10%Q in *.
    change (inject_Z 3) with 3%Q in *. change (inject_Z 1) with 1%Q in *.
    change (inject_Z 5) with 5%Q in *. lra. }
  assert (Fl : Qfloor (v3 + (1 # 2)) = c).
  { apply Qabs_diff_Qle_condition in E3. destruct HW as [W1 W2].
    apply Qfloor_between; rewrite ?inject_Z_plus; change (inject_Z 1) with 1%Q; lra. }
  assert (D4 : Math_round (of_Q z) = of_Z c).
  { assert (R1' : (pow2 (-1074) <= Qabs z)%Q).
    { apply Qle_trans with (pow2 (-1022)); [apply pow2_le; lia|lra]. }
    assert (R2' : (Qabs z < pow2 1023)%Q) by lra.
    destruct (of_Q_finite z R1' R2') as (mz & ez & Ez' & _).
    unfold v3 in Fl. rewrite Ez' in *. unfold Math_round. rewrite Fl.
    apply round_signed_nonzero. intros E. apply Hc0.
    apply inject_Z_injective. exact E. }
  (* / 100 *)
  assert (Fc : fits (inject_Z c)).
  { apply fits_Z. change (2 ^ 53) with 9007199254740992. lia. }
  destruct (of_Z_fits c Fc) as (Vc & Ic & Sc).
  unfold Doubles.bill. rewrite D1, D2, D3, D4.
  rewrite (div_finite _ _ Ic I100) by (rewrite V100; discriminate).
  rewrite (round_signed_comp _ _ (inject_Z c / 100))
    by (rewrite Vc, V100; reflexivity).
  apply round_signed_nonzero. intros E. apply Hc0.
  apply inject_Z_injective.
  assert (inject_Z c == inject_Z c / 100 * 100)%Q as -> by field.
  rewrite E. reflexivity.
Qed.

(** The four operations round as the Standard Library's specification of
    binary64 ([SpecFloat], precision 53, maximal exponent 1024) does, on
    the sample doubles. *)
Lemma operations_agree_with_SpecFloat :
  agree_on_samples mul (SFmul 53 1024) = true
  /\ agree_on_samples div (SFdiv 53 1024) = true
  /\ agree_on_samples add (SFadd 53 1024) = true
  /\ agree_on_samples sub (SFsub 53 1024) = true.
Proof.
  split; [vm_compute; reflexivity|].
  split; [vm_compute; reflexivity|].
  split; [vm_compute; reflexivity|].
  vm_compute; reflexivity.
Qed.

End DoubleFacts.

(** ** The formatting helpers *)

Lemma Number_toString_comp (x y : Q) :
  (x == y)%Q -> JS.Number_toString x = JS.Number_toString y.
Proof.
  intros Hxy. unfold JS.Number_toString.
  rewrite (Qred_complete x y Hxy). reflexivity.
Qed.

Lemma code_bill_round2 (m p : Z) :
  (JS.Math_round (inject_Z m * (inject_Z p / 60) * 100) / 100
   == billing m p)%Q.
Proof.
  unfold billing, round2, JS.Math_round.
  assert (E : (inject_Z m * (inject_Z p / 60) * 100 + (1 # 2)
               == inject_Z m * inject_Z p / 60 * 100 + (1 # 2))%Q) by field.
  rewrite (Qfloor_comp _ _ E). reflexivity.
Qed.

Lemma reduce_total_minutes (E : list Entry) (acc : Z) :
  fold_left (fun accumulator entry => accumulator + minutes_spent entry) E acc
  = acc + total_minutes E.
Proof.
  revert acc. induction E as [|e E IH]; intros acc; simpl.
  - lia.
  - rewrite IH. lia.
Qed.

Lemma push_rows {A B} (f : A -> B) (l : list A) (acc : list B) :
  fold_left (fun data x => data ++ [f x]) l acc = acc ++ map f l.
Proof.
  revert acc. induction l as [|x l IH]; intros acc; simpl.
  - by rewrite app_nil_r.
  - rewrite IH. by rewrite <- app_assoc.
Qed.

Lemma prepareTableData_rows (response : Response) :
  prepareTableData response
  = header_row :: map (entry_row (per_hour response)) (entries response)
    ++ [total_row (per_hour response) (entries response)].
Proof.
  unfold prepareTableData. cbv zeta.
  rewrite (push_rows
    (fun entry => [story_name entry;
                   utils.minutesToLabel (Some (minutes_spent entry));
                   notes entry;
                   "$" +:+ pretty (per_hour response);
                   "$" +:+ JS.Number_toString
                     (JS.Math_round
                        (inject_Z (minutes_spent entry)
                         * (inject_Z (per_hour response) / 60) * 100)
                      / 100)%Q])).
  rewrite reduce_total_minutes, Z.add_0_l. simpl. f_equal. f_equal.
  - apply map_ext. intros entry. unfold entry_row.
    by rewrite (Number_toString_comp _ _ (code_bill_round2 _ _)).
  - unfold total_row.
    by rewrite (Number_toString_comp _ _ (code_bill_round2 _ _)).
Qed.


Lemma Qred_integer (k : Z) : Qred (inject_Z k) = inject_Z k.
Proof.
  unfold Qred, inject_Z.
  pose proof (Z.ggcd_gcd k 1) as Hg.
  pose proof (Z.ggcd_correct_divisors k 1) as Hd.
  destruct (Z.ggcd k 1) as [g [r1 r2]]. cbn [fst snd] in *.
  rewrite Z.gcd_1_r in Hg. subst g. destruct Hd as [Hk H1].
  assert (Hr1 : r1 = k) by lia. assert (Hr2 : r2 = 1) by lia.
  rewrite Hr1, Hr2. reflexivity.
Qed.

Lemma append_empty_r (s : string) : s +:+ "" = s.
Proof.
  induction s as [|c s IH]; [reflexivity|].
  change (String c (s +:+ "") = String c s). by rewrite IH.
Qed.

Lemma Number_toString_integer (k : Z) :
  JS.Number_toString (inject_Z k) = pretty k.
Proof.
  unfold JS.Number_toString. rewrite Qred_integer.
  cbn [inject_Z Qnum Qden]. rewrite Z.div_1_r, Z.mod_1_r. cbn [Z.eqb].
  rewrite append_empty_r. destruct k as [|p|p]; reflexivity.
Qed.

(** ** Printing doubles *)

Module PrintingFacts.

Import Double DoubleFacts.

(** *** Powers of ten and the decimal exponent *)

Lemma pow10_pos n : (0 < pow10 n)%Q.
Proof. apply Qpower_0_lt. reflexivity. Qed.

Lemma pow10_add a b : (pow10 (a + b) == pow10 a * pow10 b)%Q.
Proof. apply Qpower_plus. discriminate. Qed.

Lemma pow10_Z e : 0 <= e -> (pow10 e == inject_Z (10 ^ e))%Q.
Proof. intros He. symmetry. apply (Zpower_Qpower 10 e He). Qed.

Lemma pow10_le a b : a <= b -> (pow10 a <= pow10 b)%Q.
Proof. intros H. apply Qpower_le_compat_l; [exact H|]. discriminate. Qed.

Lemma pow10_lt a b : a < b -> (pow10 a < pow10 b)%Q.
Proof. intros H. apply Qpower_lt_compat_l; [exact H|]. reflexivity. Qed.

Lemma climb_spec (fuel : nat) v start n :
  start <= n -> n - start <= Z.of_nat fuel ->
  (pow10 (n - 1) <= v)%Q -> (v < pow10 n)%Q -> climb fuel v start = n.
Proof.
  revert start. induction fuel as [|fuel IH]; intros start H1 H2 L U.
  - simpl. lia.
  - simpl. destruct (Qle_bool (pow10 start) v) eqn:E.
    + apply Qle_bool_iff in E.
      assert (start < n).
      { destruct (Z_lt_le_dec start n) as [|Hge]; [assumption|].
        apply pow10_le in Hge. lra. }
      apply IH; try lia; assumption.
    + destruct (Z.eq_dec start n) as [|N]; [assumption|].
      assert (Hle : start <= n - 1) by lia. apply pow10_le in Hle.
      assert (Qle_bool (pow10 start) v = true); [|congruence].
      apply Qle_bool_iff. lra.
Qed.

Lemma ilog2_mono x y : (0 < x)%Q -> (x <= y)%Q -> ilog2 x <= ilog2 y.
Proof.
  intros Hx Hxy. apply ilog2_ge; [lra|].
  destruct (ilog2_spec x Hx) as [L _]. lra.
Qed.

Ltac exponent_case v L U c :=
  let a := eval vm_compute in (ilog2 (pow10 (c - 1))) in
  let b := eval vm_compute in (ilog2 (pow10 c)) in
  let Ha := fresh in let Hb := fresh in
  assert (Ha : a <= ilog2 v)
    by (change a with (ilog2 (pow10 (c - 1))); apply ilog2_mono;
        [apply pow10_pos|exact L]);
  assert (Hb : ilog2 v <= b)
    by (change b with (ilog2 (pow10 c)); apply ilog2_mono;
        [apply Qlt_le_trans with (2 := L); apply pow10_pos
        |apply Qlt_le_weak; exact U]);
  pose proof (Z.div_mod (ilog2 v * 1233) 4096 ltac:(lia));
  pose proof (Z.mod_pos_bound (ilog2 v * 1233) 4096 ltac:(lia));
  apply climb_spec; [lia|change (Z.of_nat 4) with 4; lia|exact L|exact U].

Ltac exponent_cases v L U n c :=
  destruct (Z.eq_dec n c) as [->|];
  [exponent_case v L U c
  |first [exfalso; lia
         |let c' := eval vm_compute in (c + 1) in exponent_cases v L U n c']].

Lemma decimal_exponent_spec v n :
  -6 <= n <= 21 -> (pow10 (n - 1) <= v)%Q -> (v < pow10 n)%Q ->
  decimal_exponent v = n.
Proof.
  intros Hn L U. unfold decimal_exponent.
  exponent_cases v L U n (-6).
Qed.

(** *** The shortest digits of the double nearest to a short decimal *)

Lemma same_eq x y : same x y = true <-> x = y.
Proof.
  split.
  - destruct x as [a|a| |a m e], y as [b|b| |b m' e']; simpl;
      try discriminate; try reflexivity.
    + intros H. apply Bool.eqb_prop in H. congruence.
    + intros H. apply Bool.eqb_prop in H. congruence.
    + intros H. apply andb_prop in H as [H He]. apply andb_prop in H as [Hs Hm].
      apply Bool.eqb_prop in Hs. apply Pos.eqb_eq in Hm. apply Z.eqb_eq in He.
      congruence.
  - intros ->. destruct y as [b|b| |b m e]; simpl;
      rewrite ?Bool.eqb_reflx, ?Pos.eqb_refl, ?Z.eqb_refl; reflexivity.
Qed.

Lemma unscale a b c g :
  (0 < g)%Q -> (Qabs (a * g - b * g) <= c * g)%Q ->
  (b - c <= a /\ a <= b + c)%Q.
Proof.
  intros Hg H. apply Qabs_diff_Qle_condition in H. destruct H as [H1 H2].
  split.
  - apply (Qmult_le_r _ _ g Hg). lra.
  - apply (Qmult_le_r _ _ g Hg). lra.
Qed.

Lemma inject_Z_pred a : (inject_Z (a - 1) == inject_Z a - 1)%Q.
Proof.
  unfold Z.sub. rewrite inject_Z_plus, inject_Z_opp. reflexivity.
Qed.

Lemma inject_Z_succ a : (inject_Z (a + 1) == inject_Z a + 1)%Q.
Proof. rewrite inject_Z_plus. reflexivity. Qed.

Lemma Qdiv_mult_cancel v g : (0 < g)%Q -> (v / g * g == v)%Q.
Proof. intros Hg. field. lra. Qed.

Section Digits.

Variables (s k n : Z).
Hypothesis Hk : 1 <= k <= 15.
Hypothesis Hs : 10 ^ (k - 1) <= s < 10 ^ k.
Hypothesis Hs10 : s mod 10 <> 0.
Hypothesis Hn : -6 <= n <= 21.

Local Abbreviation g := (pow10 (n - k)).
Local Abbreviation D := (inject_Z s * pow10 (n - k))%Q.
Local Abbreviation x := (of_Q (inject_Z s * pow10 (n - k))).
Local Abbreviation v := (val (of_Q (inject_Z s * pow10 (n - k)))).
Local Abbreviation V := (val (of_Q (inject_Z s * pow10 (n - k))) / pow10 (n - k))%Q.
Local Abbreviation u := (1 # 9007199254740992)%Q.

Hypothesis Hv : (pow10 (n - 1) <= v)%Q.

Lemma digits_g : (0 < g /\ pow10 (-21) <= g /\ g <= pow10 20)%Q.
Proof.
  split; [apply pow10_pos|]. split; apply pow10_le; lia.
Qed.

Lemma digits_s : (1 <= inject_Z s /\ inject_Z s <= 999999999999999)%Q.
Proof.
  assert (H1 : 1 <= 10 ^ (k - 1)) by (apply Z.pow_le_mono_r with (b := 0) (c := k - 1) (a := 10); lia).
  assert (H2 : 10 ^ k <= 10 ^ 15) by (apply Z.pow_le_mono_r; lia).
  change (10 ^ 15) with 1000000000000000 in H2.
  split.
  - rewrite <- (Zle_Qle 1). lia.
  - rewrite <- (Zle_Qle _ 999999999999999). lia.
Qed.

Lemma digits_D :
  (0 < D /\ pow2 (-1022) <= Qabs D /\ Qabs D < pow2 1023)%Q.
Proof.
  destruct digits_g as (G0 & G1 & G2). destruct digits_s as (S1 & S2).
  assert (L : (g <= D)%Q).
  { rewrite <- (Qmult_1_l g) at 1. apply Qmult_le_compat_r; lra. }
  assert (U : (D <= 999999999999999 * g)%Q)
    by (apply Qmult_le_compat_r; lra).
  assert (P0 : (0 < D)%Q) by lra.
  rewrite (Qabs_pos D) by lra.
  split; [exact P0|]. split.
  - apply Qle_trans with (pow10 (-21)); [|lra].
    apply Qle_trans with (pow2 (-70)); [apply pow2_le; lia|].
    vm_compute. discriminate.
  - apply Qle_lt_trans with (999999999999999 * pow10 20)%Q; [lra|].
    apply Qlt_le_trans with (pow2 120); [reflexivity|apply pow2_le; lia].
Qed.

Lemma digits_x : exists m e, x = S754_finite false m e.
Proof.
  destruct digits_D as (P0 & L & U).
  assert (L' : (pow2 (-1074) <= Qabs D)%Q).
  { apply Qle_trans with (2 := L). apply pow2_le. lia. }
  destruct (of_Q_finite D L' U) as (m & e & E & _).
  exists m, e. rewrite E. f_equal.
  destruct (Qnum D <? 0) eqn:N; [|reflexivity].
  apply Qnum_neg in N. lra.
Qed.

(** In units of the last digit the double is within a ninth of [s]. *)
Lemma digits_V : (inject_Z s - inject_Z s * u <= V /\ V <= inject_Z s + inject_Z s * u)%Q.
Proof.
  destruct digits_g as (G0 & _). destruct digits_D as (P0 & L & U).
  assert (R := of_Q_relative D L U). rewrite (Qabs_pos D) in R by lra.
  unfold unit_roundoff in R.
  apply (unscale V (inject_Z s) (inject_Z s * u) g G0).
  rewrite (Qdiv_mult_cancel v g G0).
  apply Qle_trans with (1 := R). apply Qle_lteq. right. ring.
Qed.

Lemma digits_upper : (v < pow10 n)%Q.
Proof.
  destruct digits_g as (G0 & _). destruct digits_V as (_ & V2).
  assert (H2 : s + 1 <= 10 ^ k) by lia.
  assert (H3 : 10 ^ k <= 10 ^ 15) by (apply Z.pow_le_mono_r; lia).
  change (10 ^ 15) with 1000000000000000 in H3.
  rewrite Zle_Qle in H2, H3. rewrite inject_Z_succ in H2.
  rewrite <- pow10_Z in H2, H3 by lia.
  change (inject_Z 1000000000000000) with 1000000000000000%Q in H3.
  assert (E : (pow10 n == pow10 k * g)%Q).
  { rewrite <- pow10_add. f_equiv. lia. }
  rewrite E. rewrite <- (Qdiv_mult_cancel v g G0).
  apply Qmult_lt_r; [exact G0|]. lra.
Qed.

Lemma digits_exponent : decimal_exponent v = n.
Proof. apply decimal_exponent_spec; [exact Hn|exact Hv|exact digits_upper]. Qed.

Lemma digits_found : digits_at x v n k = Some s.
Proof.
  destruct digits_V as (V1 & V2). destruct digits_s as (S1 & S2).
  assert (R : same (of_Q (inject_Z s * g)) x = true) by (apply same_eq; reflexivity).
  unfold digits_at. cbv zeta.
  destruct (Qlt_le_dec V (inject_Z s)) as [Lt|Ge].
  - assert (F : Qfloor V = s - 1).
    { apply Qfloor_between.
      - rewrite inject_Z_pred. lra.
      - replace (s - 1 + 1) with s by lia. exact Lt. }
    rewrite F. replace (s - 1 + 1) with s by lia. rewrite R.
    destruct (same (of_Q (inject_Z (s - 1) * g)) x); [|reflexivity].
    assert (C : (V - inject_Z (s - 1) ?= 1 # 2)%Q = Gt).
    { apply (proj1 (Qgt_alt _ _)). rewrite inject_Z_pred. lra. }
    rewrite C. reflexivity.
  - assert (F : Qfloor V = s).
    { apply Qfloor_between; [exact Ge|]. rewrite inject_Z_succ. lra. }
    rewrite F, R.
    destruct (same (of_Q (inject_Z (s + 1) * g)) x); [|reflexivity].
    assert (C : (V - inject_Z s ?= 1 # 2)%Q = Lt)
      by (apply (proj1 (Qlt_alt _ _)); lra).
    rewrite C. reflexivity.
Qed.

Section Shorter.

Variable k' : Z.
Hypothesis Hk' : 1 <= k' < k.

Local Abbreviation P := (10 ^ (k - k')).

Lemma shorter_P : 10 <= P <= 100000000000000 /\ P mod 10 = 0.
Proof.
  assert (H1 : 10 ^ 1 <= P) by (apply Z.pow_le_mono_r; lia).
  assert (H2 : P <= 10 ^ 14) by (apply Z.pow_le_mono_r; lia).
  change (10 ^ 1) with 10 in H1. change (10 ^ 14) with 100000000000000 in H2.
  split; [lia|].
  replace (k - k') with (1 + (k - k' - 1)) by lia.
  rewrite Z.pow_add_r by lia. change (10 ^ 1) with 10.
  rewrite Z.mul_comm. apply Z.mod_mul. lia.
Qed.

Lemma shorter_unit : (pow10 (n - k') == inject_Z P * g)%Q.
Proof.
  rewrite <- pow10_Z by lia. rewrite <- pow10_add. f_equiv. lia.
Qed.

(** No decimal on the coarser grid reads back as the double. *)
Lemma shorter_no_read t :
  1 <= t -> (inject_Z (t * P) <= V + inject_Z P)%Q ->
  same (of_Q (inject_Z t * pow10 (n - k'))) x = false.
Proof.
  intros Ht Hb. destruct (same _ x) eqn:E; [|reflexivity]. exfalso.
  apply same_eq in E.
  destruct digits_g as (G0 & G1 & G2). destruct digits_V as (V1 & V2).
  destruct digits_s as (S1 & S2). destruct shorter_P as ((P1 & P2) & P3).
  assert (Ey : (inject_Z t * pow10 (n - k') == inject_Z (t * P) * g)%Q).
  { rewrite shorter_unit, inject_Z_mult. ring. }
  rewrite (of_Q_comp _ _ Ey) in E.
  set (T := t * P) in *.
  assert (T1 : (1 <= inject_Z T)%Q) by (rewrite <- (Zle_Qle 1); unfold T; nia).
  assert (P2' : (inject_Z P <= 100000000000000)%Q)
    by (rewrite <- (Zle_Qle _ 100000000000000); lia).
  assert (T2 : (inject_Z T <= 1200000000000000)%Q) by lra.
  set (y := (inject_Z T * g)%Q) in *.
  assert (Ly : (g <= y)%Q).
  { unfold y. rewrite <- (Qmult_1_l g) at 1. apply Qmult_le_compat_r; lra. }
  assert (Uy : (y <= 1200000000000000 * g)%Q)
    by (apply Qmult_le_compat_r; lra).
  assert (Y0 : (0 < y)%Q) by lra.
  assert (L : (pow2 (-1022) <= Qabs y)%Q).
  { rewrite (Qabs_pos y) by lra.
    apply Qle_trans with (pow10 (-21)); [|lra].
    apply Qle_trans with (pow2 (-70)); [apply pow2_le; lia|].
    vm_compute. discriminate. }
  assert (U : (Qabs y < pow2 1023)%Q).
  { rewrite (Qabs_pos y) by lra.
    apply Qle_lt_trans with (1200000000000000 * pow10 20)%Q; [lra|].
    apply Qlt_le_trans with (pow2 120); [reflexivity|apply pow2_le; lia]. }
  assert (R := of_Q_relative y L U). rewrite (Qabs_pos y) in R by lra.
  unfold unit_roundoff in R. rewrite E in R.
  destruct (unscale V (inject_Z T) (inject_Z T * u) g G0) as [W1 W2].
  { rewrite (Qdiv_mult_cancel v g G0).
    apply Qle_trans with (1 := R). apply Qle_lteq. right. unfold y. ring. }
  assert (A : (inject_Z T < inject_Z (s + 1))%Q)
    by (rewrite inject_Z_succ; lra).
  assert (B : (inject_Z (s - 1) < inject_Z T)%Q)
    by (rewrite inject_Z_pred; lra).
  rewrite <- Zlt_Qlt in A, B.
  assert (T = s) by lia.
  apply Hs10. rewrite <- H. unfold T.
  rewrite <- Z.mul_mod_idemp_r, P3, Z.mul_0_r by lia. reflexivity.
Qed.

Lemma shorter_none : digits_at x v n k' = None.
Proof.
  destruct digits_g as (G0 & _). destruct digits_V as (V1 & V2).
  destruct digits_s as (S1 & S2). destruct shorter_P as ((P1 & P2) & P3).
  assert (P0 : (0 < inject_Z P)%Q) by (rewrite <- (Zlt_Qlt 0); lia).
  assert (EW : (v / pow10 (n - k') * inject_Z P == V)%Q).
  { rewrite shorter_unit. field. split; lra. }
  set (W := (v / pow10 (n - k'))%Q) in *.
  assert (FL := Qfloor_le W). assert (FU := Qlt_floor W).
  (* the double is at least one unit of the coarser grid *)
  assert (W1 : (1 <= W)%Q).
  { assert (E1 : (pow10 (n - 1) == pow10 (k' - 1) * pow10 (n - k'))%Q).
    { rewrite <- pow10_add. f_equiv. lia. }
    assert (Pk : (1 <= pow10 (k' - 1))%Q).
    { change 1%Q with (pow10 0). apply pow10_le. lia. }
    assert (Pu := pow10_pos (n - k')).
    unfold W. apply Qle_shift_div_l; [exact Pu|].
    apply Qle_trans with (2 := Hv). rewrite E1.
    apply Qmult_le_compat_r; lra. }
  assert (F1 : 1 <= Qfloor W).
  { rewrite <- (Qfloor_Z 1). apply Qfloor_resp_le. exact W1. }
  assert (B1 : (inject_Z (Qfloor W * P) <= V + inject_Z P)%Q).
  { rewrite inject_Z_mult, <- EW.
    apply Qle_trans with (W * inject_Z P)%Q; [|lra].
    apply Qmult_le_compat_r; lra. }
  assert (B2 : (inject_Z ((Qfloor W + 1) * P) <= V + inject_Z P)%Q).
  { rewrite inject_Z_mult, inject_Z_succ, <- EW.
    assert (inject_Z (Qfloor W) * inject_Z P <= W * inject_Z P)%Q
      by (apply Qmult_le_compat_r; lra).
    lra. }
  unfold digits_at. cbv zeta. fold W.
  rewrite (shorter_no_read (Qfloor W) F1 B1).
  rewrite (shorter_no_read (Qfloor W + 1) ltac:(lia) B2). reflexivity.
Qed.

End Shorter.

Lemma digits_shortest (fuel : nat) j :
  1 <= j <= k -> k - j < Z.of_nat fuel -> shortest fuel x v n j = (s, k).
Proof.
  revert j. induction fuel as [|fuel IH]; intros j Hj Hf; [lia|].
  simpl. destruct (Z.eq_dec j k) as [->|N].
  - rewrite digits_found. reflexivity.
  - rewrite (shorter_none j) by lia. apply IH; lia.
Qed.

(** The decimal [s * 10^(n-k)] prints as its own [k] digits. *)
Lemma toString_digits : toString x = notation s k n.
Proof.
  destruct digits_x as (m & e & E).
  assert (Ev := digits_exponent). assert (Es := digits_shortest 17 1).
  rewrite E in *. unfold toString. cbv zeta. rewrite Ev.
  rewrite Es by (simpl; lia).
  assert ((s =? 10 ^ k) = false) as -> by (apply Z.eqb_neq; lia).
  reflexivity.
Qed.

End Digits.

(** ** Strings of digits *)

Lemma append_cons c (a b : string) : String c a +:+ b = String c (a +:+ b).
Proof. reflexivity. Qed.

Lemma append_assoc (a b c : string) : (a +:+ b) +:+ c = a +:+ (b +:+ c).
Proof.
  induction a as [|x a IH]; [reflexivity|].
  rewrite !append_cons, IH. reflexivity.
Qed.

Lemma length_append (a b : string) :
  String.length (a +:+ b) = (String.length a + String.length b)%nat.
Proof.
  induction a as [|x a IH]; [reflexivity|].
  rewrite append_cons. simpl. rewrite IH. reflexivity.
Qed.

Lemma substring_prefix (a b : string) :
  String.substring 0 (String.length a) (a +:+ b) = a.
Proof.
  induction a as [|x a IH].
  - destruct b; reflexivity.
  - rewrite append_cons. simpl. rewrite IH. reflexivity.
Qed.

Lemma substring_all (b : string) :
  String.substring 0 (String.length b) b = b.
Proof.
  induction b as [|x b IH]; [reflexivity|]. simpl. rewrite IH. reflexivity.
Qed.

Lemma substring_suffix (a b : string) :
  String.substring (String.length a) (String.length b) (a +:+ b) = b.
Proof.
  induction a as [|x a IH].
  - apply substring_all.
  - rewrite append_cons. simpl. exact IH.
Qed.

Lemma pretty_N_go_app (x : N) (s : string) :
  pretty_N_go x s = pretty_N_go x "" +:+ s.
Proof.
  revert s. induction (N.lt_wf_0 x) as [x _ IH]. intros s.
  assert (x = 0 \/ 0 < x)%N as [-> | Hpos] by lia.
  - rewrite !pretty_N_go_0. reflexivity.
  - rewrite (pretty_N_go_step x s), (pretty_N_go_step x "") by done.
    assert (Hlt : (x `div` 10 < x)%N) by (by apply N.div_lt).
    rewrite (IH _ Hlt (String _ s)), (IH _ Hlt (String _ "")).
    rewrite append_assoc. reflexivity.
Qed.

Lemma pretty_N_digit (d : N) :
  (d < 10)%N -> pretty d = String (pretty_N_char d) "".
Proof.
  intros Hd. unfold pretty, pretty_N. case_decide as E.
  - subst d. reflexivity.
  - rewrite pretty_N_go_step by lia.
    rewrite (N.div_small d 10), (N.mod_small d 10) by lia.
    apply pretty_N_go_0.
Qed.

Lemma pretty_N_snoc (a d : N) :
  (0 < a)%N -> (d < 10)%N -> pretty (10 * a + d)%N = pretty a +:+ pretty d.
Proof.
  intros Ha Hd. rewrite (pretty_N_digit d Hd).
  unfold pretty at 1 2, pretty_N.
  case_decide as E1; [lia|]. case_decide as E2; [lia|].
  rewrite pretty_N_go_step by lia.
  replace ((10 * a + d) `div` 10)%N with a
    by (apply (N.div_unique _ 10 a d); lia).
  replace ((10 * a + d) `mod` 10)%N with d
    by (apply (N.mod_unique _ 10 a d); lia).
  apply pretty_N_go_app.
Qed.

Lemma pretty_Z_N (z : Z) : 0 <= z -> pretty z = pretty (Z.to_N z).
Proof. destruct z as [|p|p]; [reflexivity|reflexivity|lia]. Qed.

Lemma pretty_snoc (a d : Z) :
  0 < a -> 0 <= d < 10 -> pretty (10 * a + d) = pretty a +:+ pretty d.
Proof.
  intros Ha Hd. rewrite !pretty_Z_N by lia.
  replace (Z.to_N (10 * a + d)) with (10 * Z.to_N a + Z.to_N d)%N by lia.
  apply pretty_N_snoc; lia.
Qed.

Lemma pretty_digit_length (d : Z) :
  0 <= d < 10 -> String.length (pretty d) = 1%nat.
Proof.
  intros Hd. rewrite pretty_Z_N by lia. rewrite pretty_N_digit by lia.
  reflexivity.
Qed.

Lemma pretty_length (k : nat) (a : Z) :
  10 ^ Z.of_nat k <= a < 10 ^ (Z.of_nat k + 1) ->
  String.length (pretty a) = S k.
Proof.
  revert a. induction k as [|k IH]; intros a Ha.
  - apply pretty_digit_length. change (10 ^ Z.of_nat 0) with 1 in Ha.
    change (10 ^ (Z.of_nat 0 + 1)) with 10 in Ha. lia.
  - rewrite Nat2Z.inj_succ in Ha. unfold Z.succ in Ha.
    rewrite !Z.pow_add_r in Ha by lia. change (10 ^ 1) with 10 in Ha.
    pose proof (Z.div_mod a 10 ltac:(lia)) as Hdm.
    pose proof (Z.mod_pos_bound a 10 ltac:(lia)) as Hr.
    assert (Hp : 0 < 10 ^ Z.of_nat k) by (apply Z.pow_pos_nonneg; lia).
    assert (Hq : 10 ^ Z.of_nat k <= a / 10 < 10 ^ (Z.of_nat k + 1)).
    { rewrite Z.pow_add_r by lia. change (10 ^ 1) with 10. split.
      - apply Z.div_le_lower_bound; lia.
      - apply Z.div_lt_upper_bound; lia. }
    rewrite Hdm, pretty_snoc by lia.
    rewrite length_append, (IH _ Hq), pretty_digit_length by lia. lia.
Qed.

Lemma zeros_snoc (n : nat) : zeros n +:+ "0" = "0" +:+ zeros n.
Proof.
  induction n as [|n IH]; [reflexivity|].
  cbn [zeros]. rewrite append_assoc, IH. reflexivity.
Qed.

Lemma pretty_zeros (s : Z) (z : nat) :
  0 < s -> pretty (s * 10 ^ Z.of_nat z) = pretty s +:+ zeros z.
Proof.
  intros Hs. induction z as [|z IH].
  - change (10 ^ Z.of_nat 0) with 1. rewrite Z.mul_1_r.
    cbn [zeros]. symmetry. apply append_empty_r.
  - rewrite Nat2Z.inj_succ. unfold Z.succ. rewrite Z.pow_add_r by lia.
    change (10 ^ 1) with 10.
    assert (Hp : 0 < 10 ^ Z.of_nat z) by (apply Z.pow_pos_nonneg; lia).
    replace (s * (10 ^ Z.of_nat z * 10)) with (10 * (s * 10 ^ Z.of_nat z) + 0)
      by lia.
    rewrite pretty_snoc by nia. rewrite IH.
    change (pretty 0) with "0". cbn [zeros].
    rewrite append_assoc, zeros_snoc. reflexivity.
Qed.

(** ** Decomposing an integer into digits and trailing zeros *)

Lemma strip_zeros (c : Z) :
  0 < c -> exists s z, 0 < s /\ 0 <= z /\ c = s * 10 ^ z /\ s mod 10 <> 0.
Proof.
  intros Hc. assert (H0 : 0 <= c) by lia. revert Hc.
  pattern c. apply Z_lt_induction; [|exact H0]. clear c H0.
  intros c IH Hc.
  destruct (Z.eq_dec (c mod 10) 0) as [E|N].
  - pose proof (Z.div_mod c 10 ltac:(lia)) as Hdm. rewrite E in Hdm.
    destruct (IH (c / 10)) as (s & z & Hs & Hz & Ec & Hs10); [lia|lia|].
    exists s, (z + 1). repeat split; try lia.
    rewrite Z.pow_add_r by lia. change (10 ^ 1) with 10. lia.
  - exists c, 0. repeat split; try lia.
Qed.

Lemma digits_count (s : Z) :
  0 < s < 10 ^ 15 ->
  exists k, 1 <= k <= 15 /\ 10 ^ (k - 1) <= s < 10 ^ k.
Proof.
  change (10 ^ 15) with 1000000000000000. intros Hs.
  assert (C : s < 10 \/ 10 <= s < 100 \/ 100 <= s < 1000 \/
              1000 <= s < 10000 \/ 10000 <= s < 100000 \/
              100000 <= s < 1000000 \/ 1000000 <= s < 10000000 \/
              10000000 <= s < 100000000 \/
              100000000 <= s < 1000000000 \/
              1000000000 <= s < 10000000000 \/
              10000000000 <= s < 100000000000 \/
              100000000000 <= s < 1000000000000 \/
              1000000000000 <= s < 10000000000000 \/
              10000000000000 <= s < 100000000000000 \/
              100000000000000 <= s < 1000000000000000) by lia.
  destruct C as [C|[C|[C|[C|[C|[C|[C|[C|[C|[C|[C|[C|[C|[C|C]]]]]]]]]]]]]];
    [exists 1|exists 2|exists 3|exists 4|exists 5|exists 6|exists 7|exists 8
    |exists 9|exists 10|exists 11|exists 12|exists 13|exists 14|exists 15];
    (split; [lia|]); simpl; lia.
Qed.

(** *** Printing integers *)

(** When the first digit is not all there is, the double stays within the
    decade of the decimal. *)
Lemma digits_lower s k n :
  1 <= k <= 15 -> 10 ^ (k - 1) <= s < 10 ^ k -> -6 <= n <= 21 ->
  10 ^ (k - 1) < s ->
  (pow10 (n - 1) <= val (of_Q (inject_Z s * pow10 (n - k))))%Q.
Proof.
  intros Hk Hs Hn Hlt.
  destruct (digits_g k n Hk Hn) as (G0 & _).
  destruct (digits_V s k n Hk Hs Hn) as (V1 & _).
  destruct (digits_s s k Hk Hs) as (S1 & S2).
  assert (H1 : 10 ^ (k - 1) + 1 <= s) by lia.
  rewrite Zle_Qle, inject_Z_succ, <- pow10_Z in H1 by lia.
  assert (E : (pow10 (n - 1) == pow10 (k - 1) * pow10 (n - k))%Q).
  { rewrite <- pow10_add. f_equiv. lia. }
  rewrite E.
  rewrite <- (Qdiv_mult_cancel (val (of_Q (inject_Z s * pow10 (n - k))))
                (pow10 (n - k)) G0).
  apply Qmult_le_compat_r; lra.
Qed.

(** *** Integers *)

Lemma toString_of_Z_pos c : 0 < c < 10 ^ 15 -> toString (of_Z c) = pretty c.
Proof.
  intros Hc. destruct (strip_zeros c) as (s & z & Hs & Hz & Ec & Hs10); [lia|].
  assert (Hp : 0 < 10 ^ z) by (apply Z.pow_pos_nonneg; lia).
  assert (Hsc : s <= c) by nia.
  destruct (digits_count s) as (k & Hk & Hsk); [lia|].
  assert (Hk1 : 0 < 10 ^ (k - 1)) by (apply Z.pow_pos_nonneg; lia).
  assert (Hn : k + z <= 15).
  { destruct (Z_le_gt_dec (k + z) 15) as [|Hgt]; [assumption|exfalso].
    assert (10 ^ 15 <= 10 ^ (k - 1 + z)) by (apply Z.pow_le_mono_r; lia).
    rewrite Z.pow_add_r in H by lia. nia. }
  assert (Eq : (inject_Z c == inject_Z s * pow10 (k + z - k))%Q).
  { replace (k + z - k) with z by lia. rewrite pow10_Z by lia.
    rewrite <- inject_Z_mult, Ec. reflexivity. }
  unfold of_Z. rewrite (of_Q_comp _ _ Eq).
  rewrite (toString_digits s k (k + z) Hk Hsk Hs10 ltac:(lia)).
  - unfold notation. cbv zeta.
    assert ((k <=? k + z) && (k + z <=? 21) = true) as ->
      by (apply andb_true_intro; split; apply Z.leb_le; lia).
    replace (k + z - k) with z by lia.
    rewrite Ec. rewrite <- (Z2Nat.id z) at 2 by lia.
    symmetry. apply pretty_zeros. exact Hs.
  - rewrite <- (of_Q_comp _ _ Eq).
    assert (F : fits (inject_Z c)).
    { apply fits_Z. change (2 ^ 53) with 9007199254740992.
      change (10 ^ 15) with 1000000000000000 in Hc. lia. }
    destruct (of_Q_fits _ F) as (V & _). rewrite V.
    rewrite pow10_Z by lia. rewrite <- Zle_Qle.
    replace (k + z - 1) with (k - 1 + z) by lia.
    rewrite Z.pow_add_r by lia. rewrite Ec. nia.
Qed.

Lemma Qabs_opp_eq x : Qabs (- x) = Qabs x.
Proof. destruct x as [a b]. unfold Qabs, Qopp. simpl. rewrite Z.abs_opp. reflexivity. Qed.

Lemma of_Q_opp x : ~ (x == 0)%Q -> of_Q (- x) = opp (of_Q x).
Proof.
  intros N. assert (N' : ~ (- x == 0)%Q) by (intros E; apply N; lra).
  rewrite (of_Q_unfold _ N), (of_Q_unfold _ N'). cbv zeta.
  rewrite Qabs_opp_eq.
  assert (S : (Qnum (- x) <? 0) = negb (Qnum x <? 0)).
  { rewrite <- Qnum_0 in N. destruct x as [a b]. simpl in *.
    destruct a; simpl; try reflexivity. contradiction. }
  rewrite S.
  destruct (significand (Qabs x) =? 2 ^ 53).
  - change (2 ^ 52) with (Z.pos 4503599627370496).
    destruct (place (Qabs x) + 1 <=? 971); reflexivity.
  - destruct (significand (Qabs x)); try reflexivity.
    destruct (place (Qabs x) <=? 971); reflexivity.
Qed.

Lemma toString_negative m e :
  toString (S754_finite true m e) = "-" +:+ toString (S754_finite false m e).
Proof.
  unfold toString. cbv zeta.
  destruct (shortest 17 _ _ _ 1) as [s k].
  destruct (if s =? 10 ^ k then _ else _) as [s' n']. reflexivity.
Qed.

Lemma toString_of_Z c : Z.abs c < 10 ^ 15 -> toString (of_Z c) = pretty c.
Proof.
  intros Hc. destruct c as [|p|p].
  - reflexivity.
  - apply toString_of_Z_pos. lia.
  - assert (Hp : 0 < Z.pos p < 10 ^ 15) by lia.
    assert (E := toString_of_Z_pos _ Hp).
    change (of_Z (Z.neg p)) with (of_Q (- inject_Z (Z.pos p))).
    rewrite of_Q_opp by discriminate.
    assert (F : fits (inject_Z (Z.pos p))).
    { apply fits_Z. change (2 ^ 53) with 9007199254740992.
      change (10 ^ 15) with 1000000000000000 in Hp. lia. }
    destruct (fits_range _ F ltac:(discriminate)) as [L U].
    assert (L' : (pow2 (-1074) <= Qabs (inject_Z (Z.pos p)))%Q).
    { apply Qle_trans with (2 := L). apply pow2_le. lia. }
    destruct (of_Q_finite _ L' U) as (m & e & Ex & _).
    unfold of_Z in E. rewrite Ex in *.
    change (Qnum (inject_Z (Z.pos p)) <? 0) with false in *.
    cbn [opp negb]. rewrite toString_negative, E. reflexivity.
Qed.

(** *** The exact printing of a fraction that is not in lowest terms *)

Lemma fraction_digits_scale (fuel : nat) (t r d : Z) :
  0 < t -> 0 < d ->
  JS.fraction_digits fuel (t * r) (t * d) = JS.fraction_digits fuel r d.
Proof.
  intros Ht Hd. revert r. induction fuel as [|fuel IH]; intros r; [reflexivity|].
  cbn [JS.fraction_digits].
  assert ((t * r =? 0) = (r =? 0)) as ->.
  { destruct (Z.eqb_spec r 0) as [->|N]; [rewrite Z.mul_0_r; reflexivity|].
    apply Z.eqb_neq. nia. }
  destruct (r =? 0); [reflexivity|].
  replace (10 * (t * r)) with (t * (10 * r)) by lia.
  rewrite Z.div_mul_cancel_l by lia.
  rewrite Z.mul_mod_distr_l by lia. rewrite IH. reflexivity.
Qed.

Lemma Number_toString_positive (a : Z) (b : positive) :
  0 < a ->
  JS.Number_toString (a # b)
  = pretty (a / Z.pos b)
    +:+ (if a mod Z.pos b =? 0 then ""
         else "." +:+ JS.fraction_digits 17 (a mod Z.pos b) (Z.pos b)).
Proof.
  intros Ha. unfold JS.Number_toString, Qred.
  pose proof (Z.ggcd_gcd a (Z.pos b)) as Hg.
  pose proof (Z.ggcd_correct_divisors a (Z.pos b)) as Hd.
  pose proof (Z.gcd_nonneg a (Z.pos b)) as Hn.
  destruct (Z.ggcd a (Z.pos b)) as [g [r1 r2]]. cbn [fst snd] in *.
  destruct Hd as [E1 E2]. rewrite <- Hg in Hn.
  assert (G : 0 < g).
  { destruct (Z.eq_dec g 0) as [->|N]; [lia|lia]. }
  assert (R1 : 0 < r1) by nia. assert (R2 : 0 < r2) by nia.
  cbn [Qnum Qden]. rewrite Z2Pos.id by exact R2.
  assert ((r1 <? 0) = false) as -> by lia.
  rewrite Z.abs_eq by lia.
  rewrite E1, E2. rewrite Z.div_mul_cancel_l by lia.
  rewrite Z.mul_mod_distr_l by lia.
  assert ((g * (r1 mod r2) =? 0) = (r1 mod r2 =? 0)) as ->.
  { destruct (Z.eqb_spec (r1 mod r2) 0) as [->|N]; [rewrite Z.mul_0_r; reflexivity|].
    apply Z.eqb_neq. nia. }
  rewrite fraction_digits_scale by lia. reflexivity.
Qed.

Lemma Number_toString_negative (x : Q) :
  (0 < x)%Q -> JS.Number_toString (- x) = "-" +:+ JS.Number_toString x.
Proof.
  intros Hx. unfold JS.Number_toString. rewrite Qred_opp.
  assert (P : (0 < Qred x)%Q) by (rewrite Qred_correct; exact Hx).
  destruct (Qred x) as [a b]. unfold Qlt in P. simpl in P.
  cbn [Qopp Qnum Qden]. rewrite Z.abs_opp.
  assert ((- a <? 0) = true) as -> by lia.
  assert ((a <? 0) = false) as -> by lia. reflexivity.
Qed.

(** *** One and two decimals *)

Lemma fraction_one (r : Z) :
  0 < r < 10 -> JS.fraction_digits 17 r 10 = pretty r.
Proof.
  intros Hr. cbn [JS.fraction_digits].
  assert ((r =? 0) = false) as -> by lia.
  rewrite Z.mul_comm, Z.div_mul, Z.mod_mul by lia.
  cbn [Z.eqb]. apply append_empty_r.
Qed.

Lemma fraction_two (r : Z) :
  0 <= r < 100 -> r mod 10 <> 0 ->
  JS.fraction_digits 17 r 100 = pretty (r / 10) +:+ pretty (r mod 10).
Proof.
  intros Hr H0. cbn [JS.fraction_digits].
  pose proof (Z.div_mod r 10 ltac:(lia)) as Hdm.
  pose proof (Z.mod_pos_bound r 10 ltac:(lia)) as Hb.
  assert ((r =? 0) = false) as -> by (apply Z.eqb_neq; intros ->; apply H0; reflexivity).
  assert (E1 : 10 * r / 100 = r / 10).
  { symmetry. apply (Z.div_unique _ 100 _ (10 * (r mod 10))); lia. }
  assert (E2 : (10 * r) mod 100 = 10 * (r mod 10)).
  { symmetry. apply (Z.mod_unique _ 100 (r / 10)); lia. }
  rewrite E1, E2.
  assert ((10 * (r mod 10) =? 0) = false) as -> by lia.
  assert (E3 : 10 * (10 * (r mod 10)) / 100 = r mod 10).
  { symmetry. apply (Z.div_unique _ 100 _ 0); lia. }
  assert (E4 : (10 * (10 * (r mod 10))) mod 100 = 0).
  { symmetry. apply (Z.mod_unique _ 100 (r mod 10)); lia. }
  rewrite E3, E4. cbn [Z.eqb]. rewrite append_empty_r. reflexivity.
Qed.

Lemma pretty_length_digits (k a : Z) :
  1 <= k -> 10 ^ (k - 1) <= a < 10 ^ k ->
  String.length (pretty a) = Z.to_nat k.
Proof.
  intros Hk Ha.
  rewrite (pretty_length (Z.to_nat (k - 1))).
  - lia.
  - rewrite Z2Nat.id by lia. replace (k - 1 + 1) with k by lia. exact Ha.
Qed.

Lemma pow10_step (k : Z) : 1 <= k -> 10 ^ k = 10 * 10 ^ (k - 1).
Proof.
  intros Hk. rewrite <- Z.pow_succ_r by lia. f_equal. lia.
Qed.

Lemma of_Q_tenth_samples :
  toString (of_Q (inject_Z 1 / 10)) = "0.1"
  /\ toString (of_Q (inject_Z 1 / 100)) = "0.01".
Proof. split; vm_compute; reflexivity. Qed.

(** A number with one decimal. *)
Lemma toString_tenths (s : Z) :
  0 < s < 10 ^ 15 -> s mod 10 <> 0 ->
  toString (of_Q (inject_Z s / 10)) = JS.Number_toString (s # 10).
Proof.
  intros Hs H10.
  pose proof (Z.div_mod s 10 ltac:(lia)) as Hdm.
  pose proof (Z.mod_pos_bound s 10 ltac:(lia)) as Hb.
  rewrite Number_toString_positive by lia.
  assert ((s mod 10 =? 0) = false) as -> by lia.
  rewrite fraction_one by lia.
  destruct (Z.eq_dec s 1) as [->|N1]; [vm_compute; reflexivity|].
  destruct (digits_count s Hs) as (k & Hk & Hsk).
  assert (Hlt : 10 ^ (k - 1) < s).
  { destruct (Z.eq_dec k 1) as [->|Nk]; [change (10 ^ (1 - 1)) with 1; lia|].
    assert (10 ^ (k - 1) <> s); [|lia]. intros E. apply H10. rewrite <- E.
    replace (k - 1) with (1 + (k - 2)) by lia. rewrite Z.pow_add_r by lia.
    change (10 ^ 1) with 10. rewrite Z.mul_comm. apply Z.mod_mul. lia. }
  assert (Eq : (inject_Z s / 10 == inject_Z s * pow10 (k - 1 - k))%Q).
  { replace (k - 1 - k) with (-1) by lia. reflexivity. }
  rewrite (of_Q_comp _ _ Eq).
  rewrite (toString_digits s k (k - 1) Hk Hsk H10 ltac:(lia)
             (digits_lower s k (k - 1) Hk Hsk ltac:(lia) Hlt)).
  unfold notation. cbv zeta.
  assert ((k <=? k - 1) && (k - 1 <=? 21) = false) as ->
    by (apply andb_false_intro1; apply Z.leb_gt; lia).
  destruct (Z.eq_dec k 1) as [->|Nk].
  - change (10 ^ (1 - 1)) with 1 in *. change (10 ^ 1) with 10 in *.
    rewrite (Z.div_small s 10), (Z.mod_small s 10) by lia. reflexivity.
  - assert ((0 <? k - 1) && (k - 1 <=? 21) = true) as ->
      by (apply andb_true_intro; split; [apply Z.ltb_lt|apply Z.leb_le]; lia).
    assert (Hq : 10 ^ (k - 1 - 1) <= s / 10 < 10 ^ (k - 1)).
    { pose proof (pow10_step (k - 1) ltac:(lia)) as E1.
      pose proof (pow10_step k ltac:(lia)) as E2.
      split; [apply Z.div_le_lower_bound|apply Z.div_lt_upper_bound]; lia. }
    assert (Hp : 0 < 10 ^ (k - 1 - 1)) by (apply Z.pow_pos_nonneg; lia).
    rewrite Hdm at 1 2. rewrite pretty_snoc by lia.
    rewrite <- (pretty_length_digits (k - 1) (s / 10)) by lia.
    replace (Z.to_nat (k - (k - 1))) with (String.length (pretty (s mod 10)))
      by (rewrite pretty_digit_length by lia; lia).
    rewrite substring_prefix, substring_suffix. reflexivity.
Qed.

(** *** Printing hundredths *)

(** A number with two decimals. *)
Lemma toString_two_decimals (s : Z) :
  0 < s < 10 ^ 15 -> s mod 10 <> 0 ->
  toString (of_Q (inject_Z s / 100)) = JS.Number_toString (s # 100).
Proof.
  intros Hs H10.
  pose proof (Z.div_mod s 100 ltac:(lia)) as Hdm.
  pose proof (Z.mod_pos_bound s 100 ltac:(lia)) as Hb.
  pose proof (Z.div_mod s 10 ltac:(lia)) as Hdm1.
  pose proof (Z.mod_pos_bound s 10 ltac:(lia)) as Hb1.
  assert (Er : (s mod 100) mod 10 = s mod 10).
  { symmetry. apply (Z.mod_unique _ 10 (s / 10 - 10 * (s / 100))); lia. }
  assert (Eq1 : (s mod 100) / 10 = s / 10 - 10 * (s / 100)).
  { symmetry. apply (Z.div_unique _ 10 _ (s mod 10)); lia. }
  rewrite Number_toString_positive by lia.
  assert ((s mod 100 =? 0) = false) as -> by lia.
  rewrite fraction_two by (rewrite ?Er; lia). rewrite Er.
  destruct (Z.eq_dec s 1) as [->|N1]; [vm_compute; reflexivity|].
  destruct (digits_count s Hs) as (k & Hk & Hsk).
  assert (Hlt : 10 ^ (k - 1) < s).
  { destruct (Z.eq_dec k 1) as [->|Nk]; [change (10 ^ (1 - 1)) with 1; lia|].
    assert (10 ^ (k - 1) <> s); [|lia]. intros E. apply H10. rewrite <- E.
    rewrite (pow10_step (k - 1)) by lia. rewrite Z.mul_comm.
    apply Z.mod_mul. lia. }
  assert (Eq : (inject_Z s / 100 == inject_Z s * pow10 (k - 2 - k))%Q).
  { replace (k - 2 - k) with (-2) by lia. reflexivity. }
  rewrite (of_Q_comp _ _ Eq).
  rewrite (toString_digits s k (k - 2) Hk Hsk H10 ltac:(lia)
             (digits_lower s k (k - 2) Hk Hsk ltac:(lia) Hlt)).
  unfold notation. cbv zeta.
  assert ((k <=? k - 2) && (k - 2 <=? 21) = false) as ->
    by (apply andb_false_intro1; apply Z.leb_gt; lia).
  assert (C : k = 1 \/ k = 2 \/ 3 <= k) by lia.
  destruct C as [->|[->|K3]].
  - (* one digit: 0.0s *)
    change (10 ^ (1 - 1)) with 1 in *. change (10 ^ 1) with 10 in *.
    rewrite (Z.div_small s 100), (Z.mod_small s 100) by lia.
    rewrite (Z.div_small s 10), (Z.mod_small s 10) by lia. reflexivity.
  - (* two digits: 0.s *)
    change (10 ^ (2 - 1)) with 10 in *. change (10 ^ 2) with 100 in *.
    rewrite (Z.div_small s 100), (Z.mod_small s 100) by lia.
    assert (Ep : pretty s = pretty (s / 10) +:+ pretty (s mod 10))
      by (rewrite Hdm1 at 1; apply pretty_snoc; lia).
    rewrite Ep. reflexivity.
  - assert ((0 <? k - 2) && (k - 2 <=? 21) = true) as ->
      by (apply andb_true_intro; split; [apply Z.ltb_lt|apply Z.leb_le]; lia).
    pose proof (pow10_step k ltac:(lia)) as E1.
    pose proof (pow10_step (k - 1) ltac:(lia)) as E2.
    pose proof (pow10_step (k - 2) ltac:(lia)) as E3.
    replace (k - 1 - 1) with (k - 2) in E2 by lia.
    assert (Hp : 0 < 10 ^ (k - 2 - 1)) by (apply Z.pow_pos_nonneg; lia).
    assert (Hq : 10 ^ (k - 2 - 1) <= s / 100 < 10 ^ (k - 2)).
    { split; [apply Z.div_le_lower_bound|apply Z.div_lt_upper_bound]; lia. }
    assert (Ep : pretty s
                 = pretty (s / 100)
                   +:+ (pretty ((s mod 100) / 10) +:+ pretty (s mod 10))).
    { assert (Hs' : s = 10 * (10 * (s / 100) + (s mod 100) / 10) + s mod 10)
        by lia.
      rewrite Hs' at 1. rewrite pretty_snoc by lia.
      rewrite pretty_snoc by lia. apply append_assoc. }
    rewrite Ep.
    rewrite <- (pretty_length_digits (k - 2) (s / 100)) by lia.
    replace (Z.to_nat (k - (k - 2)))
      with (String.length (pretty ((s mod 100) / 10) +:+ pretty (s mod 10)))
      by (rewrite length_append, !pretty_digit_length by lia; lia).
    rewrite substring_prefix, substring_suffix. reflexivity.
Qed.

(** Hundredths print on doubles as they print exactly. *)
Lemma toString_hundredths_pos (c : Z) :
  0 < c < 10 ^ 15 ->
  toString (of_Q (inject_Z c / 100)) = JS.Number_toString (inject_Z c / 100).
Proof.
  intros Hc.
  pose proof (Z.div_mod c 10 ltac:(lia)) as Hdm1.
  pose proof (Z.mod_pos_bound c 10 ltac:(lia)) as Hb1.
  change (10 ^ 15) with 1000000000000000 in Hc.
  destruct (Z.eq_dec (c mod 10) 0) as [E0|N0].
  - pose proof (Z.div_mod (c / 10) 10 ltac:(lia)) as Hdm2.
    pose proof (Z.mod_pos_bound (c / 10) 10 ltac:(lia)) as Hb2.
    destruct (Z.eq_dec ((c / 10) mod 10) 0) as [E1|N1].
    + (* an integer *)
      assert (Eq : (inject_Z c / 100 == inject_Z (c / 10 / 10))%Q).
      { assert (Ec : c = 100 * (c / 10 / 10)) by lia. rewrite Ec at 1.
        rewrite inject_Z_mult. field. }
      rewrite (of_Q_comp _ _ Eq), (Number_toString_comp _ _ Eq).
      rewrite Number_toString_integer.
      apply toString_of_Z. change (10 ^ 15) with 1000000000000000. lia.
    + (* one decimal *)
      assert (Eq : (inject_Z c / 100 == inject_Z (c / 10) / 10)%Q).
      { assert (Ec : c = 10 * (c / 10)) by lia. rewrite Ec at 1.
        rewrite inject_Z_mult. field. }
      rewrite (of_Q_comp _ _ Eq), (Number_toString_comp _ _ Eq).
      rewrite toString_tenths
        by (change (10 ^ 15) with 1000000000000000; lia).
      apply Number_toString_comp. rewrite (Qmake_Qdiv (c / 10) 10).
      reflexivity.
  - rewrite toString_two_decimals
      by (change (10 ^ 15) with 1000000000000000; lia).
    apply Number_toString_comp. rewrite (Qmake_Qdiv c 100). reflexivity.
Qed.

Lemma toString_hundredths (c : Z) :
  Z.abs c < 10 ^ 15 ->
  toString (of_Q (inject_Z c / 100)) = JS.Number_toString (inject_Z c / 100).
Proof.
  intros Hc. destruct c as [|p|p].
  - vm_compute. reflexivity.
  - apply toString_hundredths_pos. lia.
  - assert (Hp : 0 < Z.pos p < 10 ^ 15) by lia.
    assert (E := toString_hundredths_pos _ Hp).
    assert (Eq : (inject_Z (Z.neg p) / 100 == - (inject_Z (Z.pos p) / 100))%Q).
    { change (inject_Z (Z.neg p)) with (- inject_Z (Z.pos p))%Q. field. }
    rewrite (of_Q_comp _ _ Eq), (Number_toString_comp _ _ Eq).
    assert (P : (0 < inject_Z (Z.pos p) / 100)%Q).
    { apply Qlt_shift_div_l; [reflexivity|]. rewrite Qmult_0_l. reflexivity. }
    rewrite Number_toString_negative by exact P.
    rewrite of_Q_opp by lra.
    assert (L : (pow2 (-1074) <= Qabs (inject_Z (Z.pos p) / 100))%Q).
    { rewrite Qabs_pos by lra.
      apply Qle_trans with (1 # 100)%Q.
      - apply Qle_trans with (pow2 (-10)); [apply pow2_le; lia|].
        vm_compute. discriminate.
      - apply Qle_shift_div_l; [reflexivity|].
        assert (1 <= inject_Z (Z.pos p))%Q by (rewrite <- (Zle_Qle 1); lia).
        lra. }
    assert (U : (Qabs (inject_Z (Z.pos p) / 100) < pow2 1023)%Q).
    { rewrite Qabs_pos by lra.
      apply Qlt_trans with (inject_Z (10 ^ 15)).
      - apply Qlt_shift_div_r; [reflexivity|].
        assert (inject_Z (Z.pos p) < inject_Z (10 ^ 15))%Q
          by (rewrite <- Zlt_Qlt; lia).
        assert (0 < inject_Z (10 ^ 15))%Q by reflexivity. lra.
      - apply Qlt_le_trans with (pow2 60); [reflexivity|apply pow2_le; lia]. }
    destruct (of_Q_finite _ L U) as (m & e & Ex & _).
    rewrite Ex in *.
    assert (S : (Qnum (inject_Z (Z.pos p) / 100) <? 0) = false).
    { destruct (Qnum _ <? 0) eqn:N; [|reflexivity]. apply Qnum_neg in N. lra. }
    rewrite S in *. cbn [opp negb]. rewrite toString_negative, E. reflexivity.
Qed.

End PrintingFacts.

(** ** The program on doubles, on integers within the safe range *)

Module DoublesFacts.

Import Double DoubleFacts PrintingFacts.

Lemma eqb_of_Z_0 a : fits (inject_Z a) -> eqb (of_Z a) (of_Z 0) = (a =? 0).
Proof.
  intros F. destruct (of_Z_fits a F) as (V & _).
  change (of_Z 0) with (S754_zero false).
  destruct (Z.eqb_spec a 0) as [->|N]; [reflexivity|].
  destruct (of_Z a) as [s|s| |s m e] eqn:E; try reflexivity.
  exfalso. apply N. apply inject_Z_injective. rewrite <- V. reflexivity.
Qed.

Lemma billing_cents m p :
  (billing m p == inject_Z (bill_in_cents m p) / 100)%Q.
Proof. unfold billing, round2. rewrite bill_in_cents_floor. reflexivity. Qed.

(** The bill of the program prints as the double nearest to the exact
    bill. *)
Lemma bill_toString m p :
  Z.abs m <= 2 ^ 53 -> Z.abs p <= 2 ^ 53 -> Z.abs (m * p) <= 10 ^ 14 ->
  toString (Doubles.bill (of_Z m) (of_Z p)) = toString (of_Q (billing m p)).
Proof.
  intros Hm Hp HP. rewrite (of_Q_comp _ _ (billing_cents m p)).
  destruct (Z.eq_dec (m * p) 0) as [E|N].
  - destruct (bill_zero m p Hm Hp E) as (s & ->).
    unfold bill_in_cents. rewrite E. reflexivity.
  - rewrite (bill_nonzero m p HP N). reflexivity.
Qed.

Lemma total_magnitude_nonneg E : 0 <= total_magnitude E.
Proof. induction E as [|e E IH]; simpl; lia. Qed.

Lemma total_minutes_magnitude E : Z.abs (total_minutes E) <= total_magnitude E.
Proof. induction E as [|e E IH]; simpl; lia. Qed.

Lemma entry_magnitude E (i : nat) entry :
  E !! i = Some entry -> Z.abs (minutes_spent entry) <= total_magnitude E.
Proof.
  revert i. induction E as [|e E IH]; intros [|i] Hi; try discriminate.
  - injection Hi as ->. assert (H := total_magnitude_nonneg E). simpl. lia.
  - assert (H := IH i Hi). simpl. lia.
Qed.

(** The [reduce] adds integers exactly as long as the sums stay within
    [2^53]. *)
Lemma totalMins_parsed E acc :
  Z.abs acc + total_magnitude E <= 2 ^ 53 ->
  fold_left
    (fun accumulator entry =>
       add accumulator (Doubles.minutes_spent entry))
    (map parsed_entry E) (of_Z acc)
  = of_Z (acc + total_minutes E).
Proof.
  revert acc. induction E as [|e E IH]; intros acc H; simpl in *.
  - f_equal. lia.
  - assert (N := total_magnitude_nonneg E).
    rewrite add_of_Z by (apply fits_Z; lia).
    rewrite IH by lia. f_equal. lia.
Qed.

Lemma rows_on_doubles (response : Doubles.Response) :
  Doubles.prepareTableData response
  = header_row
    :: map (Doubles.entry_row (Doubles.per_hour response))
         (Doubles.entries response)
    ++ [Doubles.total_row (Doubles.per_hour response)
          (Doubles.entries response)].
Proof.
  unfold Doubles.prepareTableData. cbv zeta.
  rewrite (push_rows (Doubles.entry_row (Doubles.per_hour response))).
  reflexivity.
Qed.

Lemma entry_on_doubles (response : Doubles.Response) (i : nat) entry :
  Doubles.entries response !! i = Some entry ->
  Doubles.prepareTableData response !! S i
  = Some (Doubles.entry_row (Doubles.per_hour response) entry).
Proof.
  intros Hi. rewrite rows_on_doubles.
  change ((map (Doubles.entry_row (Doubles.per_hour response))
             (Doubles.entries response)
           ++ [Doubles.total_row (Doubles.per_hour response)
                 (Doubles.entries response)]) !! i
          = Some (Doubles.entry_row (Doubles.per_hour response) entry)).
  rewrite lookup_app_l.
  - change (map ?f ?l) with (f <$> l). by rewrite list_lookup_fmap, Hi.
  - rewrite length_map. eapply lookup_lt_Some, Hi.
Qed.

Lemma last_on_doubles (response : Doubles.Response) :
  last (Doubles.prepareTableData response)
  = Some (Doubles.total_row (Doubles.per_hour response)
            (Doubles.entries response)).
Proof. rewrite rows_on_doubles, app_comm_cons. apply last_snoc. Qed.

Lemma parsed_lookup (response : Response) (i : nat) entry :
  entries response !! i = Some entry ->
  Doubles.entries (parsed response) !! i = Some (parsed_entry entry).
Proof.
  intros Hi. cbn [parsed Doubles.entries].
  change (map ?f ?l) with (f <$> l). by rewrite list_lookup_fmap, Hi.
Qed.

Lemma totalMins_response (response : Response) :
  total_magnitude (entries response) <= 2 ^ 53 ->
  Doubles.totalMins (Doubles.entries (parsed response))
  = of_Z (total_minutes (entries response)).
Proof.
  intros H. unfold Doubles.totalMins. cbn [parsed Doubles.entries].
  rewrite (totalMins_parsed (entries response) 0) by (simpl; lia).
  reflexivity.
Qed.

Lemma minutesToHoursMinutes_exact m :
  utils.minutesToHoursMinutes m = (m / 60, m mod 60).
Proof.
  unfold utils.minutesToHoursMinutes. f_equal.
  rewrite (Z.mod_eq m 60) by lia. lia.
Qed.

(** ** The program on doubles returns what the exact reading returns *)

Lemma minutesToLabel_refines (m : Z) :
  Z.abs m < 10 ^ 15 ->
  Doubles.minutesToLabel (Some (of_Z m)) = utils.minutesToLabel (Some m).
Proof.
  intros Hm. change (10 ^ 15) with 1000000000000000 in Hm.
  assert (Hb : Z.abs m <= 2 ^ 53)
    by (change (2 ^ 53) with 9007199254740992; lia).
  pose proof (Z.div_mod m 60 ltac:(lia)) as Hdm.
  pose proof (Z.mod_pos_bound m 60 ltac:(lia)) as Hr.
  unfold Doubles.minutesToLabel, utils.minutesToLabel.
  rewrite eqb_of_Z_0 by (apply fits_Z; exact Hb).
  destruct (m =? 0); [reflexivity|]. cbv zeta.
  rewrite (minutesToHoursMinutes_safe m Hb), minutesToHoursMinutes_exact.
  cbn [fst snd].
  rewrite !eqb_of_Z_0
    by (apply fits_Z; change (2 ^ 53) with 9007199254740992; lia).
  rewrite !toString_of_Z by (change (10 ^ 15) with 1000000000000000; lia).
  reflexivity.
Qed.

Lemma bill_refines (m p : Z) :
  Z.abs m <= 2 ^ 53 -> Z.abs p <= 2 ^ 53 -> Z.abs (m * p) <= 10 ^ 14 ->
  toString (Doubles.bill (of_Z m) (of_Z p))
  = JS.Number_toString (billing m p).
Proof.
  intros Hm Hp HP. rewrite (bill_toString m p Hm Hp HP).
  rewrite (of_Q_comp _ _ (billing_cents m p)).
  rewrite (Number_toString_comp _ _ (billing_cents m p)).
  apply toString_hundredths. unfold bill_in_cents.
  change (10 ^ 14) with 100000000000000 in HP.
  change (10 ^ 15) with 1000000000000000.
  pose proof (Z.div_mod (10 * (m * p) + 3) 6 ltac:(lia)) as Hdm.
  pose proof (Z.mod_pos_bound (10 * (m * p) + 3) 6 ltac:(lia)) as Hr.
  lia.
Qed.

Lemma entry_row_refines (rate : Z) (entry : Entry) :
  (1 + Z.abs (minutes_spent entry)) * (1 + Z.abs rate) <= 10 ^ 14 ->
  Doubles.entry_row (of_Z rate) (parsed_entry entry) = entry_row rate entry.
Proof.
  intros Hb. change (10 ^ 14) with 100000000000000 in Hb.
  assert (Hm : Z.abs (minutes_spent entry) <= 100000000000000) by nia.
  assert (Hp : Z.abs rate <= 100000000000000) by nia.
  unfold Doubles.entry_row, entry_row.
  cbn [parsed_entry Doubles.story_name Doubles.minutes_spent Doubles.notes].
  rewrite minutesToLabel_refines
    by (change (10 ^ 15) with 1000000000000000; lia).
  rewrite toString_of_Z by (change (10 ^ 15) with 1000000000000000; lia).
  rewrite bill_refines; [reflexivity| | |].
  - change (2 ^ 53) with 9007199254740992. lia.
  - change (2 ^ 53) with 9007199254740992. lia.
  - change (10 ^ 14) with 100000000000000. rewrite Z.abs_mul. nia.
Qed.

Lemma total_row_refines (rate : Z) (E : list Entry) :
  (1 + total_magnitude E) * (1 + Z.abs rate) <= 10 ^ 14 ->
  Doubles.total_row (of_Z rate) (map parsed_entry E) = total_row rate E.
Proof.
  intros Hb. change (10 ^ 14) with 100000000000000 in Hb.
  pose proof (total_magnitude_nonneg E) as Hn.
  pose proof (total_minutes_magnitude E) as Ht.
  assert (Hm : total_magnitude E <= 100000000000000) by nia.
  assert (Hp : Z.abs rate <= 100000000000000) by nia.
  unfold Doubles.total_row, total_row, Doubles.totalMins.
  rewrite (totalMins_parsed E 0)
    by (change (2 ^ 53) with 9007199254740992; simpl; lia).
  rewrite Z.add_0_l.
  rewrite minutesToLabel_refines
    by (change (10 ^ 15) with 1000000000000000; lia).
  rewrite bill_refines; [reflexivity| | |].
  - change (2 ^ 53) with 9007199254740992. lia.
  - change (2 ^ 53) with 9007199254740992. lia.
  - change (10 ^ 14) with 100000000000000. rewrite Z.abs_mul. nia.
Qed.

Lemma prepareTableData_refines (response : Response) :
  (1 + total_magnitude (entries response)) * (1 + Z.abs (per_hour response))
  <= 10 ^ 14 ->
  Doubles.prepareTableData (parsed response) = prepareTableData response.
Proof.
  intros Hb.
  rewrite DoublesFacts.rows_on_doubles, prepareTableData_rows.
  cbn [parsed Doubles.entries Doubles.per_hour].
  rewrite (total_row_refines _ _ Hb). f_equal. f_equal.
  pose proof (total_magnitude_nonneg (entries response)) as Hn.
  apply list_eq. intros i. change (map ?f ?l) with (f <$> l).
  rewrite !list_lookup_fmap.
  destruct (entries response !! i) as [entry|] eqn:Hi; [|reflexivity].
  cbn [fmap option_fmap option_map]. f_equal.
  apply entry_row_refines.
  pose proof (entry_magnitude _ _ _ Hi) as He.
  change (10 ^ 14) with 100000000000000 in *. nia.
Qed.

End DoublesFacts.

(** C4, within the safe integers.  For every integer [m] with
    [0 <= m <= 2^53], the program's [minutesToHoursMinutes], applied to the
    double that is [m], returns the doubles that are [h] and [r], where [h]
    is the floor of [m / 60] (the integer with [60 h <= m < 60 (h + 1)]),
    [r = m - h * 60], [h * 60 + r = m] and [0 <= r < 60]; these are the
    components the exact reading computes. *)
Theorem minutesToHoursMinutes_decomposition (m : Z) :
  0 <= m <= 2 ^ 53 ->
  exists h r : Z,
    Doubles.minutesToHoursMinutes (Double.of_Z m)
    = (Double.of_Z h, Double.of_Z r)
    /\ (Double.val (Double.of_Z m) == inject_Z m)%Q
    /\ (Double.val (Double.of_Z h) == inject_Z h)%Q
    /\ (Double.val (Double.of_Z r) == inject_Z r)%Q
    /\ utils.minutesToHoursMinutes m = (h, r)
    /\ 60 * h <= m < 60 * (h + 1)
    /\ r = m - h * 60
    /\ h * 60 + r = m
    /\ 0 <= r < 60.
Proof.
  intros Hm. exists (m / 60), (m mod 60).
  assert (Hb : Z.abs m <= 2 ^ 53) by lia.
  pose proof (Z.div_mod m 60 ltac:(lia)) as Hdm.
  pose proof (Z.mod_pos_bound m 60 ltac:(lia)) as Hr.
  change (2 ^ 53) with 9007199254740992 in Hm.
  split; [exact (DoubleFacts.minutesToHoursMinutes_safe m Hb)|].
  split; [apply DoubleFacts.of_Z_fits, DoubleFacts.fits_Z; exact Hb|].
  split.
  { apply DoubleFacts.of_Z_fits, DoubleFacts.fits_Z.
    change (2 ^ 53) with 9007199254740992. lia. }
  split.
  { apply DoubleFacts.of_Z_fits, DoubleFacts.fits_Z.
    change (2 ^ 53) with 9007199254740992. lia. }
  split; [apply DoublesFacts.minutesToHoursMinutes_exact|].
  repeat split; lia.
Qed.

Lemma minutesToHoursMinutes_decomposition_witness :
  0 <= 90 <= 2 ^ 53
  /\ exists h r : Z,
       Doubles.minutesToHoursMinutes (Double.of_Z 90)
       = (Double.of_Z h, Double.of_Z r)
       /\ (Double.val (Double.of_Z 90) == inject_Z 90)%Q
       /\ (Double.val (Double.of_Z h) == inject_Z h)%Q
       /\ (Double.val (Double.of_Z r) == inject_Z r)%Q
       /\ utils.minutesToHoursMinutes 90 = (h, r)
       /\ 60 * h <= 90 < 60 * (h + 1)
       /\ r = 90 - h * 60
       /\ h * 60 + r = 90
       /\ 0 <= r < 60.
Proof.
  assert (H : 0 <= 90 <= 2 ^ 53) by (vm_compute; split; discriminate).
  split; [exact H|]. exact (minutesToHoursMinutes_decomposition 90 H).
Defined.

(** C4 fails beyond the safe integers: 280000000000000000 is a double, and
    on it the program returns hours 4666666666666667, one more than the
    floor of the quotient, and the remainder -32. *)
Lemma minutesToHoursMinutes_beyond_safe_integers :
  (Double.val (Double.of_Z 280000000000000000)
   == inject_Z 280000000000000000)%Q
  /\ Doubles.minutesToHoursMinutes (Double.of_Z 280000000000000000)
     = (Double.of_Z 4666666666666667, Double.of_Z (-32))
  /\ (Double.val (Double.of_Z 4666666666666667)
      == inject_Z 4666666666666667)%Q
  /\ (Double.val (Double.of_Z (-32)) == inject_Z (-32))%Q
  /\ 280000000000000000 / 60 = 4666666666666666
  /\ ~ (0 <= -32).
Proof.
  split; [vm_compute; reflexivity|].
  split; [vm_compute; reflexivity|].
  split; [vm_compute; reflexivity|].
  split; [vm_compute; reflexivity|].
  split; [vm_compute; reflexivity|]. lia.
Qed.



(** ** The derived rows *)

Example Number_toString_samples :
  map JS.Number_toString
    [10 # 1; 21 # 2; 1 # 20; -1 # 2; 1025 # 100; 0 # 5; 1000 # 100]%Q
  = ["10"; "10.5"; "0.05"; "-0.5"; "10.25"; "0"; "10"].
Proof. vm_compute. reflexivity. Qed.

Lemma round2_half_up (x : Q) :
  exists k : Z,
    (round2 x == inject_Z k / 100)%Q
    /\ (x * 100 - (1 # 2) < inject_Z k)%Q
    /\ (inject_Z k <= x * 100 + (1 # 2))%Q.
Proof.
  exists (Qfloor (x * 100 + (1 # 2))). split; [reflexivity|].
  pose proof (Qfloor_le (x * 100 + (1 # 2))) as Hle.
  pose proof (Qlt_floor (x * 100 + (1 # 2))) as Hlt.
  rewrite inject_Z_plus in Hlt. change (inject_Z 1) with 1%Q in Hlt.
  split; lra.
Qed.

Lemma prepareTableData_billing_exact (response : Response) :
  let E := entries response in
  let rate := per_hour response in
  last (prepareTableData response)
  = Some ["<b>Total</b>";
          "<b>" +:+ utils.minutesToLabel (Some (total_minutes E)) +:+ "</b>";
          "";
          "";
          "<b>$"
          +:+ JS.Number_toString
                (round2 (inject_Z (total_minutes E) * inject_Z rate / 60))
          +:+ "</b>"]
  /\ (forall (i : nat) (entry : Entry),
        E !! i = Some entry ->
        prepareTableData response !! S i
        = Some [story_name entry;
                utils.minutesToLabel (Some (minutes_spent entry));
                notes entry;
                "$" +:+ pretty rate;
                "$"
                +:+ JS.Number_toString
                      (round2
                         (inject_Z (minutes_spent entry) * inject_Z rate
                          / 60))]).
Proof.
  cbv zeta. rewrite prepareTableData_rows. split.
  - rewrite app_comm_cons. apply last_snoc.
  - intros i entry Hi.
    change ((map (entry_row (per_hour response)) (entries response)
             ++ [total_row (per_hour response) (entries response)]) !! i
            = Some (entry_row (per_hour response) entry)).
    rewrite lookup_app_l.
    + change (map ?f ?l) with (f <$> l).
      rewrite list_lookup_fmap, Hi. reflexivity.
    + rewrite length_map. eapply lookup_lt_Some, Hi.
Qed.

(** C1, for integers of bounded magnitude.  Take a response whose minutes
    and rate are integers with
    [(1 + sum of |minutes_spent|) * (1 + |per_hour|) <= 10^14].  In the table
    the program derives from it on doubles, the minutes of the total row
    are the sum of [minutes_spent] over the entries (a sum the doubles hold
    exactly), the total row shows the label of that sum and the bill
    [round2 (total * per_hour / 60)], and the row of each entry shows the
    bill [round2 (minutes * per_hour / 60)], each bill printed as the
    decimal it is; [round2] is the multiple of 1/100 obtained by rounding
    the value scaled by 100 to the nearest integer, halves going up. *)
Theorem prepareTableData_billing (response : Response) :
  let E := entries response in
  let rate := per_hour response in
  (1 + total_magnitude E) * (1 + Z.abs rate) <= 10 ^ 14 ->
  let table := Doubles.prepareTableData (parsed response) in
  Doubles.totalMins (Doubles.entries (parsed response))
  = Double.of_Z (total_minutes E)
  /\ (Double.val (Double.of_Z (total_minutes E))
      == inject_Z (total_minutes E))%Q
  /\ last table
     = Some ["<b>Total</b>";
             "<b>" +:+ utils.minutesToLabel (Some (total_minutes E))
             +:+ "</b>";
             "";
             "";
             "<b>$"
             +:+ JS.Number_toString
                   (round2 (inject_Z (total_minutes E) * inject_Z rate / 60))
             +:+ "</b>"]
  /\ (forall (i : nat) (entry : Entry),
        E !! i = Some entry ->
        table !! S i
        = Some [story_name entry;
                utils.minutesToLabel (Some (minutes_spent entry));
                notes entry;
                "$" +:+ pretty rate;
                "$"
                +:+ JS.Number_toString
                      (round2
                         (inject_Z (minutes_spent entry) * inject_Z rate
                          / 60))])
  /\ (forall x : Q, exists k : Z,
        (round2 x == inject_Z k / 100)%Q
        /\ (x * 100 - (1 # 2) < inject_Z k)%Q
        /\ (inject_Z k <= x * 100 + (1 # 2))%Q).
Proof.
  cbv zeta. intros Hb.
  pose proof (DoublesFacts.total_magnitude_nonneg (entries response)) as Hn.
  pose proof (DoublesFacts.total_minutes_magnitude (entries response)) as Ht.
  pose proof (prepareTableData_billing_exact response) as [Hlast Hrows].
  cbv zeta in Hlast, Hrows.
  rewrite (DoublesFacts.prepareTableData_refines response Hb).
  change (10 ^ 14) with 100000000000000 in Hb.
  assert (Hmag : total_magnitude (entries response) <= 2 ^ 53)
    by (change (2 ^ 53) with 9007199254740992; nia).
  split; [|split; [|split; [|split]]].
  - apply DoublesFacts.totalMins_response, Hmag.
  - apply DoubleFacts.of_Z_fits, DoubleFacts.fits_Z. lia.
  - exact Hlast.
  - exact Hrows.
  - exact round2_half_up.
Qed.

Lemma prepareTableData_billing_witness :
  (1 + total_magnitude (entries sample_response))
  * (1 + Z.abs (per_hour sample_response)) <= 10 ^ 14
  /\ last (Doubles.prepareTableData (parsed sample_response))
     = Some ["<b>Total</b>"; "<b>1 hours</b>"; ""; ""; "<b>$10</b>"]
  /\ Doubles.prepareTableData (parsed sample_response) !! 1%nat
     = Some ["A"; "1 hours"; "x"; "$10"; "$10"].
Proof.
  assert (H : (1 + total_magnitude (entries sample_response))
              * (1 + Z.abs (per_hour sample_response)) <= 10 ^ 14)
    by (vm_compute; discriminate).
  pose proof (prepareTableData_billing sample_response H)
    as (_ & _ & Ht & Hr & _).
  split; [exact H|]. split.
  - rewrite Ht. vm_compute. reflexivity.
  - rewrite (Hr 0%nat sample_entry eq_refl). vm_compute. reflexivity.
Defined.

(** C1 fails on other responses.  At the rate 10.5, an entry of 3 minutes
    costs 0.525: the program scales it to the double 52.49999999999999 and
    prints [$0.52], where [round2] gives 0.53.  With integers beyond the
    bound, 417008578777 minutes at 977: the exact bill is 6790289691085.4816
    and [round2] gives .48, the program prints [.49]. *)
Lemma prepareTableData_billing_on_doubles :
  Doubles.prepareTableData
    {| Doubles.entries :=
         [{| Doubles.story_name := "A";
             Doubles.minutes_spent := Double.of_Z 3;
             Doubles.notes := "x" |}];
       Doubles.per_hour := Double.of_Q (21 # 2) |} !! 1%nat
  = Some ["A"; "3 minutes"; "x"; "$10.5"; "$0.52"]
  /\ (Double.val (Double.of_Q (21 # 2)) == 21 # 2)%Q
  /\ (round2 (inject_Z 3 * (21 # 2) / 60) == 53 # 100)%Q
  /\ Double.toString (Double.of_Q (53 # 100)) = "0.53"
  /\ Doubles.prepareTableData
       (parsed {| entries := [{| story_name := "B";
                                 minutes_spent := 417008578777;
                                 notes := "" |}];
                  per_hour := 977 |}) !! 1%nat
     = Some ["B"; "6950142979h:37m"; ""; "$977"; "$6790289691085.49"]
  /\ (round2 (inject_Z 417008578777 * inject_Z 977 / 60)
      == 679028969108548 # 100)%Q
  /\ Double.toString (Double.of_Q (679028969108548 # 100))
     = "6790289691085.48".
Proof.
  split; [vm_compute; reflexivity|].
  split; [vm_compute; reflexivity|].
  split; [vm_compute; reflexivity|].
  split; [vm_compute; reflexivity|].
  split; [vm_compute; reflexivity|].
  split; [vm_compute; reflexivity|].
  vm_compute; reflexivity.
Qed.


(** ** The block controller *)

Section Properties.

Context {Table : Type} `{!TableView Table}.

Implicit Types (w : World Table) (st : STATE) (a : Args).

Local Abbreviation new a := (new_TimesheetBlock (Table:=Table) a).
Local Abbreviation initial_data a := (data (constructor (Table:=Table) a)).

Lemma hide_after_add (classes : gset string) :
  bool_decide (CSS.hide ∉ classes ∪ {[CSS.hide]}) = false.
Proof.
  apply bool_decide_eq_false. intros Hnot. apply Hnot.
  apply elem_of_union_r, elem_of_singleton. reflexivity.
Qed.

Lemma hide_after_remove (classes : gset string) :
  bool_decide (CSS.hide ∉ classes ∖ {[CSS.hide]}) = true.
Proof.
  apply bool_decide_eq_true. intros [_ Hnot]%elem_of_difference.
  apply Hnot, elem_of_singleton. reflexivity.
Qed.

Lemma visible_regions_cases w :
  visible_regions w
  = (if visible InputRegion w then [InputRegion] else [])
    ++ (if visible TableRegion w then [TableRegion] else [])
    ++ (if visible LoadingRegion w then [LoadingRegion] else []).
Proof.
  unfold visible_regions.
  rewrite !filter_cons, filter_nil.
  destruct (visible InputRegion w), (visible TableRegion w),
    (visible LoadingRegion w);
    repeat (destruct (decide _); try congruence); reflexivity.
Qed.

Lemma shows_visible st w (r : Region) :
  shows st w -> visible r w = bool_decide (r = region_of st).
Proof.
  unfold shows. rewrite visible_regions_cases.
  destruct (visible InputRegion w) eqn:Ei, (visible TableRegion w) eqn:Et,
    (visible LoadingRegion w) eqn:El, st; simpl; try discriminate;
    intros _; destruct r; assumption.
Qed.

Ltac run_M :=
  unfold show, changeState, on_node, assign_node, the_table, get_this,
    modify_this, loadData, console_error, throw, catch, mbind, M_bind, mret,
    M_ret; simpl.

Ltac show_rendered := unfold rendered; simpl; simplify_map_eq; by eauto 10.

Ltac show_region :=
  unfold shows; rewrite visible_regions_cases; unfold visible; simpl;
  simplify_map_eq; rewrite ?hide_after_add, ?hide_after_remove; reflexivity.

Lemma changeState_spec st w :
  rendered w ->
  exists n',
    changeState st w = (Normal unit (), with_nodes n' w)
    /\ rendered (with_nodes n' w)
    /\ shows st (with_nodes n' w).
Proof.
  destruct w as [[a ro d c p t r n] net con].
  intros ([ih Hih] & [th Hth] & [lh Hlh] & [ti Hti] & Ht). simpl in *.
  destruct st; eexists; unfold with_nodes; run_M; simplify_map_eq; simpl;
    (split; [reflexivity|split]); first [show_rendered | show_region].
Qed.

Lemma render_spec w :
  exists el w',
    render w = (Normal DOM.Element el, w')
    /\ rendered w'
    /\ shows (if JS.truthy (snippet (data (this w))) then VIEW else EDIT) w'
    /\ data (this w') = data (this w)
    /\ table (this w')
       = Some (setHeadingsSetting (withHeadings (data (this w)))
                 (Table_new (readOnly (this w)) (api (this w))
                    (data (this w)) (config (this w))))
    /\ network w' = network w /\ console w' = console w.
Proof.
  destruct w as [[a ro d c p t r n] net con].
  unfold render, makeInputHolder, createPreloader.
  destruct (JS.truthy (snippet d)) eqn:Esn;
    run_M; rewrite Esn; run_M; simplify_map_eq; simpl;
    do 2 eexists; (split; [reflexivity|]);
    (split; [show_rendered|]); (split; [show_region|]); auto.
Qed.

Lemma embedTable_spec response w :
  rendered w ->
  exists w',
    embedTable response w = (Normal unit (), w')
    /\ rendered w'
    /\ shows VIEW w'
    /\ data (this w')
       = {| withHeadings := true; content := prepareTableData response;
            snippet := snippet (data (this w)) |}
    /\ network w' = network w /\ console w' = console w.
Proof.
  destruct w as [[a ro d c p t r n] net con].
  intros ([ih Hih] & [th Hth] & [lh Hlh] & [ti Hti] & Ht). simpl in *.
  unfold embedTable. run_M. simplify_map_eq. simpl.
  eexists; (split; [reflexivity|]);
    (split; [show_rendered|]); (split; [show_region|]); auto.
Qed.

Lemma input_match_spec text w :
  rendered w -> regex (this w) text = true ->
  exists w',
    dispatch (Input text) w = (Normal unit (), w')
    /\ rendered w'
    /\ shows LOADING w'
    /\ data (this w')
       = {| withHeadings := withHeadings (data (this w));
            content := content (data (this w));
            snippet := Some text |}
    /\ network w' = network w ++ [request_for text w]
    /\ console w' = console w.
Proof.
  destruct w as [[a ro d c p t r n] net con].
  intros ([ih Hih] & [th Hth] & [lh Hlh] & [ti Hti] & Ht) Hre. simpl in *.
  unfold dispatch, input_listener, request_for. run_M. simplify_map_eq. simpl.
  rewrite Hre. run_M. simplify_map_eq. simpl.
  eexists; (split; [reflexivity|]);
    (split; [show_rendered|]); (split; [show_region|]); auto.
Qed.

Lemma input_mismatch_spec text w :
  rendered w -> regex (this w) text = false ->
  exists n',
    dispatch (Input text) w = (Normal unit (), with_nodes n' w)
    /\ rendered (with_nodes n' w)
    /\ visible_regions (with_nodes n' w) = visible_regions w.
Proof.
  destruct w as [[a ro d c p t r n] net con].
  intros ([ih Hih] & [th Hth] & [lh Hlh] & [ti Hti] & Ht) Hre. simpl in *.
  unfold dispatch, input_listener, with_nodes. run_M. simplify_map_eq. simpl.
  rewrite Hre. run_M.
  eexists; (split; [reflexivity|]); (split; [show_rendered|]).
  rewrite !visible_regions_cases. unfold visible. simpl.
  by simplify_map_eq.
Qed.

Lemma onPaste_spec event w :
  onPaste event w
  = (Normal unit (),
     {| this := this w;
        network :=
          if decide (type event = "pattern")
          then network w ++ [request_for (detail_data event) w]
          else network w;
        console := console w |}).
Proof.
  unfold onPaste, request_for. destruct (decide _); run_M; by destruct w.
Qed.

Lemma settle_failure_spec i outcome error w :
  failure outcome error ->
  dispatch (Settled i outcome) w
  = (Normal unit (),
     {| this := this w; network := delete i (network w);
        console := console w ++ ["Error: " +:+ error] |}).
Proof. intros [-> | ->]; reflexivity. Qed.

Lemma settle_body_spec i response w :
  rendered w ->
  exists w',
    dispatch (Settled i (Body response)) w = (Normal unit (), w')
    /\ rendered w'
    /\ shows VIEW w'
    /\ data (this w')
       = {| withHeadings := true; content := prepareTableData response;
            snippet := snippet (data (this w)) |}
    /\ network w' = delete i (network w) /\ console w' = console w.
Proof.
  intros Hr.
  destruct (embedTable_spec response
              {| this := this w; network := delete i (network w);
                 console := console w |} Hr)
    as (w' & Hrun & Hw').
  exists w'. split; [|exact Hw'].
  unfold dispatch, settle. unfold catch, mbind, M_bind. simpl.
  rewrite Hrun. reflexivity.
Qed.

Lemma dispatch_steady ev w :
  steady w ->
  exists w', dispatch ev w = (Normal unit (), w') /\ steady w'.
Proof.
  intros [Hr [st Hst]]. destruct ev as [text | i outcome | event].
  - destruct (regex (this w) text) eqn:Hre.
    + destruct (input_match_spec text w Hr Hre) as (w' & Hrun & Hr' & Hs & _).
      exists w'. split; [exact Hrun|]. split; [exact Hr'|]. by exists LOADING.
    + destruct (input_mismatch_spec text w Hr Hre) as (n' & Hrun & Hr' & Hv).
      eexists. split; [exact Hrun|]. split; [exact Hr'|].
      exists st. unfold shows. by rewrite Hv.
  - destruct outcome as [error | error | response].
    + eexists. split; [apply (settle_failure_spec i _ error); by left|].
      split; [exact Hr|]. by exists st.
    + eexists. split; [apply (settle_failure_spec i _ error); by right|].
      split; [exact Hr|]. by exists st.
    + destruct (settle_body_spec i response w Hr) as (w' & Hrun & Hr' & Hs & _).
      exists w'. split; [exact Hrun|]. split; [exact Hr'|]. by exists VIEW.
  - eexists. split; [apply onPaste_spec|]. split; [exact Hr|]. by exists st.
Qed.

Lemma reachable_steady a w : reachable a w -> steady w.
Proof.
  induction 1 as [|w ev _ IH _].
  - destruct (render_spec (new a)) as (el & w' & Hrun & Hr & Hs & _).
    unfold exec. rewrite Hrun. split; [exact Hr|]. eauto.
  - destruct (dispatch_steady ev w IH) as (w' & Hrun & Hw').
    unfold exec. by rewrite Hrun.
Qed.

Lemma render_then_save_spec w :
  result render_then_save w
  = Normal BlockData
      {| withHeadings := withHeadings (data (this w));
         content :=
           getData
             (setHeadingsSetting (withHeadings (data (this w)))
                (Table_new (readOnly (this w)) (api (this w))
                   (data (this w)) (config (this w))));
         snippet := snippet (data (this w)) |}.
Proof.
  destruct (render_spec w) as (el & w' & Hrun & _ & _ & Hd & Ht & _).
  unfold result, render_then_save, mbind, M_bind. rewrite Hrun.
  unfold save. run_M. rewrite Ht, Hd. reflexivity.
Qed.

Lemma constructor_snippet a :
  snippet (initial_data a)
  = match args_data a ≫= TableData.snippet with
    | Some (String c s) => Some (String c s)
    | _ => None
    end.
Proof.
  unfold constructor. simpl. unfold JS.cond.
  destruct (args_data a ≫= TableData.snippet) as [[|c s]|]; reflexivity.
Qed.

(** C5, as the code has it.  After the constructor and [render], the block
    shows the table (state VIEW) when the persisted data carries a snippet
    that is a non-empty string, and the input (state EDIT) when there is no
    data, no snippet, or the snippet is the empty string. *)
Theorem initial_region a :
  let w := exec render (new a) in
  (forall s : string,
      args_data a ≫= TableData.snippet = Some s -> s <> "" ->
      visible_regions w = [region_of VIEW])
  /\ (args_data a ≫= TableData.snippet = None
      \/ args_data a ≫= TableData.snippet = Some "" ->
      visible_regions w = [region_of EDIT]).
Proof.
  cbv zeta. destruct (render_spec (new a)) as (el & w' & Hrun & _ & Hs & _).
  unfold exec. rewrite Hrun. cbn [snd].
  unfold new_TimesheetBlock in Hs. cbn [this] in Hs.
  rewrite constructor_snippet in Hs. split.
  - intros s Hsn Hne. rewrite Hsn in Hs. by destruct s.
  - intros [Hsn | Hsn]; rewrite Hsn in Hs; exact Hs.
Qed.

(** No handler throws on a world the host can bring about. *)
Lemma dispatch_returns a w ev :
  reachable a w -> result (dispatch ev) w = Normal unit ().
Proof.
  intros Hreach.
  destruct (dispatch_steady ev w (reachable_steady a w Hreach))
    as (w' & Hrun & _).
  unfold result. by rewrite Hrun.
Qed.

(** C6. When a request fails (it rejects, or its body does not parse), the
    error is logged and nothing else changes: the block, hence its data and
    its class lists, is the one it was, and the same region shows.  When the
    request was started by an input that matched the pattern, that region is
    the loading indicator. *)
Theorem fetch_failure_no_transition a w i outcome error :
  reachable a w ->
  is_Some (network w !! i) ->
  failure outcome error ->
  let w' := exec (dispatch (Settled i outcome)) w in
  result (dispatch (Settled i outcome)) w = Normal unit ()
  /\ this w' = this w
  /\ data (this w') = data (this w)
  /\ visible_regions w' = visible_regions w
  /\ console w' = console w ++ ["Error: " +:+ error]
  /\ (forall w0 text,
        reachable a w0 -> regex (this w0) text = true ->
        w = exec (dispatch (Input text)) w0 ->
        visible_regions w = [region_of LOADING]
        /\ visible_regions w' = [region_of LOADING]).
Proof.
  intros Hreach _ Hfail w'.
  assert (Hrun := settle_failure_spec i outcome error w Hfail).
  assert (Hthis : this w' = this w) by (unfold w', exec; by rewrite Hrun).
  assert (Hsame : visible_regions w' = visible_regions w).
  { rewrite !visible_regions_cases. unfold visible. by rewrite Hthis. }
  split; [unfold result; by rewrite Hrun|].
  split; [exact Hthis|]. split; [by rewrite Hthis|].
  split; [exact Hsame|].
  split; [unfold w', exec; by rewrite Hrun|].
  intros w0 text Hreach0 Hre Hw. rewrite Hsame.
  destruct (reachable_steady a w0 Hreach0) as [Hr _].
  destruct (input_match_spec text w0 Hr Hre) as (w1 & Hrun1 & _ & Hs & _).
  assert (Hw1 : w = w1) by (rewrite Hw; unfold exec; by rewrite Hrun1).
  rewrite Hw1. split; exact Hs.
Qed.

(** C8, as the code has it.  For every block data [d] whose snippet is
    [null] or a non-empty string, and a table view that serialises back the
    grid it was built from, constructing the block with [d], rendering it
    and saving it with no edit returns [d]. *)
Theorem save_round_trip `{!TableRoundTrip Table}
    (config : TableConfig) (api : Api) (readOnly : bool) (d : BlockData) :
  snippet d <> Some "" ->
  result render_then_save
    (new {| args_data := Some (persisted d); args_config := config;
            args_api := api; args_readOnly := readOnly |})
  = Normal BlockData d.
Proof.
  intros Hsn. rewrite render_then_save_spec.
  rewrite getData_setHeadingsSetting, getData_new.
  destruct d as [[] c [[|ch s]|]]; try reflexivity; by destruct Hsn.
Qed.

(** C9. In every world reached from [render] by inputs, settled requests
    (parsed or failed) and pastes, exactly one of the three regions shows:
    the one of a state among EDIT (the input), VIEW (the table) and LOADING
    (the loading indicator).  [changeState] called there with a state
    returns and shows the region of that state and no other: EDIT only the
    input, VIEW only the table, LOADING only the loading indicator.  The
    state shown is the one last asked for: after [render] it is VIEW or
    EDIT as [render] decides, and an event leaves the region of the state
    its handler asks [show] for, or the region shown before when it asks
    for none. *)
Theorem one_region_visible a w :
  reachable a w ->
  (exists st,
      visible_regions w = [region_of st]
      /\ forall r : Region, visible r w = bool_decide (r = region_of st))
  /\ (forall st,
        result (changeState st) w = Normal unit ()
        /\ visible_regions (exec (changeState st) w) = [region_of st]
        /\ (visible InputRegion (exec (changeState st) w),
            visible TableRegion (exec (changeState st) w),
            visible LoadingRegion (exec (changeState st) w))
           = match st with
             | EDIT => (true, false, false)
             | VIEW => (false, true, false)
             | LOADING => (false, false, true)
             end)
  /\ visible_regions (exec render (new a))
     = [region_of (state_after_render (new a))]
  /\ (forall ev st,
        visible_regions w = [region_of st] ->
        visible_regions (exec (dispatch ev) w)
        = [region_of (default st (requested ev w))]).
Proof.
  intros Hreach. destruct (reachable_steady a w Hreach) as [Hr [st Hst]].
  split; [|split; [|split]].
  - exists st. split; [exact Hst|]. intros r. by apply shows_visible.
  - intros st'. destruct (changeState_spec st' w Hr) as (n' & Hrun & _ & Hs).
    unfold result, exec. rewrite Hrun. cbn [fst snd].
    split; [reflexivity|]. split; [exact Hs|].
    rewrite !(shows_visible st' _ _ Hs). by destruct st'.
  - destruct (render_spec (new a)) as (el & w' & Hrun & _ & Hs & _).
    unfold exec. rewrite Hrun. exact Hs.
  - intros ev st' Hst'. destruct ev as [text | i outcome | event].
    + cbn [requested]. destruct (regex (this w) text) eqn:Hre.
      * destruct (input_match_spec text w Hr Hre) as (w' & Hrun & _ & Hs & _).
        unfold exec. rewrite Hrun. exact Hs.
      * destruct (input_mismatch_spec text w Hr Hre) as (n' & Hrun & _ & Hv).
        unfold exec. rewrite Hrun. cbn [snd default]. by rewrite Hv.
    + destruct outcome as [error | error | response].
      * unfold exec.
        rewrite (settle_failure_spec i _ error w (or_introl eq_refl)).
        exact Hst'.
      * unfold exec.
        rewrite (settle_failure_spec i _ error w (or_intror eq_refl)).
        exact Hst'.
      * destruct (settle_body_spec i response w Hr)
          as (w' & Hrun & _ & Hs & _).
        unfold exec. rewrite Hrun. exact Hs.
    + unfold exec, dispatch. rewrite onPaste_spec. exact Hst'.
Qed.

(** C10. The constructor replaces every falsy persisted field by a
    default: [withHeadings] is [false] when the data is absent or the field
    is missing or [false], [content] is the empty array when it is missing,
    [snippet] is [null] when it is missing or the empty string.  Hence a
    block constructed with the snippet [""] saves the snippet [null]. *)
Theorem constructor_defaults a :
  (args_data a = None ->
   initial_data a = {| withHeadings := false; content := []; snippet := None |})
  /\ (forall t : TableData.t, args_data a = Some t ->
      (TableData.withHeadings t = None \/ TableData.withHeadings t = Some false
       -> withHeadings (initial_data a) = false)
      /\ (TableData.content t = None -> content (initial_data a) = [])
      /\ (TableData.snippet t = None \/ TableData.snippet t = Some ""
          -> snippet (initial_data a) = None)
      /\ (TableData.snippet t = Some "" ->
          exists saved : BlockData,
            result render_then_save (new a) = Normal BlockData saved
            /\ snippet saved = None)).
Proof.
  split.
  - intros Hd. unfold constructor. simpl. by rewrite Hd.
  - intros t Hd. unfold constructor. simpl. rewrite Hd. simpl.
    split; [|split; [|split]].
    + by intros [-> | ->].
    + by intros ->.
    + by intros [-> | ->].
    + intros Hsn. rewrite render_then_save_spec. eexists. split; [reflexivity|].
      simpl. rewrite Hd. simpl. by rewrite Hsn.
Qed.

End Properties.

(** ** The properties at sample inputs *)

Lemma initial_region_witness :
  visible_regions
    (exec (render (Table := Grid))
       (new_TimesheetBlock (sample_args (Some (persisted sample_saved)))))
  = [TableRegion].
Proof.
  apply (proj1 (initial_region (Table := Grid)
                  (sample_args (Some (persisted sample_saved))))
           "http://x"); [reflexivity | discriminate].
Defined.

(** C5, as stated, fails: persisted data whose snippet is the empty string
    carries a snippet that is not [null], and the block shows the input, not
    the table. *)
Lemma initial_region_empty_snippet :
  let a :=
    sample_args
      (Some (persisted {| withHeadings := false; content := [];
                          snippet := Some "" |})) in
  let w := exec (render (Table := Grid)) (new_TimesheetBlock a) in
  args_data a ≫= TableData.snippet <> None
  /\ visible_regions w = [InputRegion]
  /\ visible TableRegion w = false.
Proof. cbv zeta. split; [discriminate|]. split; vm_compute; reflexivity. Qed.

Lemma fetch_failure_no_transition_witness :
  let w := exec (dispatch (Input "http://x")) fresh_block in
  let w' := exec (dispatch (Settled 0 (Rejected "offline"))) w in
  this w' = this w
  /\ console w' = console w ++ ["Error: offline"]
  /\ visible_regions w' = [LoadingRegion].
Proof.
  cbv zeta.
  assert (Hreach : reachable (sample_args None)
                     (exec (dispatch (Input "http://x")) fresh_block)).
  { apply (reach_event (sample_args None) fresh_block (Input "http://x"));
      [apply reach_render | exact I]. }
  assert (Hflight :
            is_Some (network (exec (dispatch (Input "http://x")) fresh_block)
                     !! 0%nat))
    by (vm_compute; eexists; reflexivity).
  pose proof (fetch_failure_no_transition (Table := Grid) (sample_args None)
                _ 0 (Rejected "offline") "offline"
                Hreach Hflight (or_introl eq_refl)) as H.
  cbv zeta in H. destruct H as (_ & Hthis & _ & _ & Hconsole & Hloading).
  split; [exact Hthis|]. split; [exact Hconsole|].
  assert (Hmatch : regex (this fresh_block) "http://x" = true)
    by (vm_compute; reflexivity).
  exact (proj2 (Hloading fresh_block "http://x" (reach_render _) Hmatch
                  eq_refl)).
Defined.

(** C7, on the code.  From a freshly rendered block, typing the address
    records it as snippet, shows the loading indicator and issues the
    request; pasting the same address only issues the request: the snippet
    stays [null] and the input keeps showing.  Once the pasted request
    succeeds, the block saves the fetched table with a [null] snippet, and a
    block constructed from that saved data shows the input, not the table. *)
Theorem paste_skips_snippet_and_loading :
  let typed := exec (dispatch (Input "http://x")) fresh_block in
  let pasted :=
    exec (dispatch (Paste (pattern_paste "http://x"))) fresh_block in
  let loaded := exec (dispatch (Settled 0 (Body sample_response))) pasted in
  let saved :=
    {| withHeadings := true; content := prepareTableData sample_response;
       snippet := None |} in
  (snippet (data (this typed)) = Some "http://x"
   /\ visible_regions typed = [LoadingRegion]
   /\ network typed = [request_for "http://x" fresh_block])
  /\ (snippet (data (this pasted)) = None
      /\ visible_regions pasted = [InputRegion]
      /\ network pasted = [request_for "http://x" fresh_block])
  /\ visible_regions loaded = [TableRegion]
  /\ result save loaded = Normal BlockData saved
  /\ visible_regions
       (exec (render (Table := Grid))
          (new_TimesheetBlock (sample_args (Some (persisted saved)))))
     = [InputRegion].
Proof.
  cbv zeta. split; [|split; [|split; [|split]]].
  1, 2: split; [|split].
  all: vm_compute; reflexivity.
Qed.

Lemma save_round_trip_witness :
  result (render_then_save (Table := Grid))
    (new_TimesheetBlock (sample_args (Some (persisted sample_saved))))
  = Normal BlockData sample_saved.
Proof.
  apply (save_round_trip (Table := Grid) sample_config sample_api false
           sample_saved).
  discriminate.
Defined.

(** C8, as stated, fails: block data of the persisted form whose snippet is
    the empty string comes back from [save] with the snippet [null]. *)
Lemma save_round_trip_empty_snippet :
  let d := {| withHeadings := false; content := []; snippet := Some "" |} in
  let saved :=
    result (render_then_save (Table := Grid))
      (new_TimesheetBlock (sample_args (Some (persisted d)))) in
  saved
  = Normal BlockData {| withHeadings := false; content := []; snippet := None |}
  /\ saved <> Normal BlockData d.
Proof.
  cbv zeta. split; [vm_compute; reflexivity|].
  vm_compute. discriminate.
Qed.

Lemma one_region_visible_witness :
  visible_regions fresh_block = [InputRegion]
  /\ visible_regions (exec (dispatch (Input "http://x")) fresh_block)
     = [LoadingRegion]
  /\ visible_regions (exec (changeState VIEW) fresh_block) = [TableRegion]
  /\ visible LoadingRegion (exec (changeState VIEW) fresh_block) = false.
Proof.
  pose proof (one_region_visible (Table := Grid) (sample_args None)
                fresh_block (reach_render (sample_args None)))
    as (_ & Hchange & Hrender & Hstep).
  assert (Hreq : requested (Input "http://x") fresh_block = Some LOADING)
    by (vm_compute; reflexivity).
  split; [exact Hrender|]. split.
  - pose proof (Hstep (Input "http://x") EDIT Hrender) as H.
    rewrite Hreq in H. exact H.
  - destruct (Hchange VIEW) as (_ & Hview & Hall).
    split; [exact Hview|]. exact (f_equal snd Hall).
Defined.

Lemma constructor_defaults_witness :
  snippet
    (data (constructor (Table := Grid)
             (sample_args
                (Some {| TableData.withHeadings := None;
                         TableData.content := None;
                         TableData.snippet := Some "" |}))))
  = None.
Proof.
  destruct (proj2 (constructor_defaults (Table := Grid)
                     (sample_args
                        (Some {| TableData.withHeadings := None;
                                 TableData.content := None;
                                 TableData.snippet := Some "" |})))
              _ eq_refl)
    as (_ & _ & Hsnippet & _).
  apply Hsnippet. right. reflexivity.
Defined.

(** * Further properties *)

(** ** The formatting helpers on every integer *)

(** X1. For every integer [m] with [|m| <= 2^53], negative ones included,
    [minutesToHoursMinutes] returns on doubles a pair of integers [(h, r)]
    with [h * 60 + r = m] and [0 <= r < 60]: the sign of a negative
    duration goes to the hours, never to the remainder.  Beyond [2^53] this
    fails: at 280000000000000000 the remainder is -32. *)
Theorem minutesToHoursMinutes_any_integer (m : Z) :
  Z.abs m <= 2 ^ 53 ->
  exists h r : Z,
    Doubles.minutesToHoursMinutes (Double.of_Z m)
    = (Double.of_Z h, Double.of_Z r)
    /\ (Double.val (Double.of_Z h) == inject_Z h)%Q
    /\ (Double.val (Double.of_Z r) == inject_Z r)%Q
    /\ h * 60 + r = m
    /\ 0 <= r < 60
    /\ (h < 0 <-> m < 0).
Proof.
  intros Hm. exists (m / 60), (m mod 60).
  pose proof (Z.div_mod m 60 ltac:(lia)) as Hdm.
  pose proof (Z.mod_pos_bound m 60 ltac:(lia)) as Hr.
  split; [apply DoubleFacts.minutesToHoursMinutes_safe, Hm|].
  change (2 ^ 53) with 9007199254740992 in Hm.
  split; [apply DoubleFacts.of_Z_fits, DoubleFacts.fits_Z;
          change (2 ^ 53) with 9007199254740992; lia|].
  split; [apply DoubleFacts.of_Z_fits, DoubleFacts.fits_Z;
          change (2 ^ 53) with 9007199254740992; lia|].
  lia.
Qed.

Lemma minutesToHoursMinutes_any_integer_witness :
  exists h r : Z,
    Doubles.minutesToHoursMinutes (Double.of_Z (-90))
    = (Double.of_Z h, Double.of_Z r)
    /\ (Double.val (Double.of_Z h) == inject_Z h)%Q
    /\ (Double.val (Double.of_Z r) == inject_Z r)%Q
    /\ h * 60 + r = -90
    /\ 0 <= r < 60
    /\ (h < 0 <-> -90 < 0).
Proof.
  apply (minutesToHoursMinutes_any_integer (-90)). vm_compute. discriminate.
Defined.

Lemma minutesToHoursMinutes_unique (h r : Z) :
  0 <= r < 60 -> utils.minutesToHoursMinutes (h * 60 + r) = (h, r).
Proof.
  intros Hr. unfold utils.minutesToHoursMinutes.
  assert (Hdiv : (h * 60 + r) / 60 = h).
  { symmetry. apply (Z.div_unique (h * 60 + r) 60 h r); lia. }
  rewrite Hdiv. f_equal. lia.
Qed.

(** X2. For integers [m], [h] and [r] of magnitude at most [2^53],
    [minutesToHoursMinutes] returns on doubles [(h, r)] for [m] exactly when
    [m = h * 60 + r] with [0 <= r < 60]: splitting a duration and putting
    the parts together again are inverse to each other. *)
Theorem minutesToHoursMinutes_iff (m h r : Z) :
  Z.abs m <= 2 ^ 53 -> Z.abs h <= 2 ^ 53 -> Z.abs r <= 2 ^ 53 ->
  Doubles.minutesToHoursMinutes (Double.of_Z m)
  = (Double.of_Z h, Double.of_Z r)
  <-> m = h * 60 + r /\ 0 <= r < 60.
Proof.
  intros Hm Hh Hr.
  rewrite (DoubleFacts.minutesToHoursMinutes_safe m Hm).
  pose proof (Z.div_mod m 60 ltac:(lia)) as Hdm.
  pose proof (Z.mod_pos_bound m 60 ltac:(lia)) as Hb.
  change (2 ^ 53) with 9007199254740992 in *.
  split.
  - intros [= E1 E2].
    apply DoubleFacts.of_Z_inj in E1;
      [|apply DoubleFacts.fits_Z; change (2 ^ 53) with 9007199254740992;
        lia..].
    apply DoubleFacts.of_Z_inj in E2;
      [|apply DoubleFacts.fits_Z; change (2 ^ 53) with 9007199254740992;
        lia..].
    lia.
  - intros [-> Hr60].
    assert (Hdiv : (h * 60 + r) / 60 = h).
    { symmetry. apply (Z.div_unique (h * 60 + r) 60 h r); lia. }
    assert (Hmod : (h * 60 + r) mod 60 = r).
    { symmetry. apply (Z.mod_unique (h * 60 + r) 60 h r); lia. }
    by rewrite Hdiv, Hmod.
Qed.

Lemma minutesToHoursMinutes_iff_witness :
  Doubles.minutesToHoursMinutes (Double.of_Z 150)
  = (Double.of_Z 2, Double.of_Z 30)
  <-> 150 = 2 * 60 + 30 /\ 0 <= 30 < 60.
Proof.
  apply (minutesToHoursMinutes_iff 150 2 30); vm_compute; discriminate.
Defined.











(** ** The derived rows, further *)

Lemma bill_cents (m p : Z) :
  (JS.Math_round (inject_Z m * (inject_Z p / 60) * 100) / 100
   == ((10 * m * p + 3) / 6) # 100)%Q.
Proof.
  unfold JS.Math_round.
  assert (E : (inject_Z m * (inject_Z p / 60) * 100 + (1 # 2)
               == (10 * m * p + 3) # 6)%Q).
  { unfold Qeq, inject_Z, Qdiv, Qmult, Qplus, Qinv; simpl. lia. }
  rewrite (Qfloor_comp _ _ E). unfold Qfloor.
  unfold Qeq, inject_Z, Qdiv, Qmult, Qinv; simpl. lia.
Qed.

Lemma printed_bill_cents (m p : Z) :
  printed_bill m p = JS.Number_toString (((10 * m * p + 3) / 6) # 100).
Proof. apply Number_toString_comp, bill_cents. Qed.

Lemma cents_close (m p : Z) :
  Z.abs (3 * ((10 * m * p + 3) / 6) - 5 * m * p) <= 1.
Proof.
  pose proof (Z.div_mod (10 * m * p + 3) 6 ltac:(lia)) as Hdm.
  pose proof (Z.mod_pos_bound (10 * m * p + 3) 6 ltac:(lia)) as Hb.
  lia.
Qed.

Lemma printed_bill_whole_hours (h p : Z) :
  printed_bill (60 * h) p = pretty (h * p).
Proof.
  rewrite printed_bill_cents, <- Number_toString_integer.
  apply Number_toString_comp.
  assert (Hc : (10 * (60 * h) * p + 3) / 6 = 100 * (h * p)).
  { symmetry. apply (Z.div_unique _ 6 _ 3); lia. }
  rewrite Hc. unfold Qeq, inject_Z; simpl. lia.
Qed.

Lemma prepareTableData_printed (response : Response) :
  prepareTableData response
  = header_row :: map (bill_row (per_hour response)) (entries response)
    ++ [bill_total (per_hour response) (entries response)].
Proof.
  unfold prepareTableData. cbv zeta.
  rewrite (push_rows (bill_row (per_hour response))).
  rewrite reduce_total_minutes, Z.add_0_l. reflexivity.
Qed.

Lemma prepareTableData_entry_row (response : Response) (i : nat)
    (entry : Entry) :
  entries response !! i = Some entry ->
  prepareTableData response !! S i
  = Some (bill_row (per_hour response) entry).
Proof.
  intros Hi. rewrite prepareTableData_printed.
  change ((map (bill_row (per_hour response)) (entries response)
           ++ [bill_total (per_hour response) (entries response)]) !! i
          = Some (bill_row (per_hour response) entry)).
  rewrite lookup_app_l.
  - change (map ?f ?l) with (f <$> l). by rewrite list_lookup_fmap, Hi.
  - rewrite length_map. eapply lookup_lt_Some, Hi.
Qed.


Lemma minutesToLabel_whole_hours (h : Z) :
  h <> 0 -> utils.minutesToLabel (Some (60 * h)) = pretty h +:+ " hours".
Proof.
  intros Hh. unfold utils.minutesToLabel.
  destruct (Z.eqb_spec (60 * h) 0) as [|_]; [lia|]. cbv zeta.
  replace (60 * h) with (h * 60 + 0) by lia.
  rewrite minutesToHoursMinutes_unique by lia. cbn [fst snd].
  destruct (Z.eqb_spec h 0) as [|_]; [contradiction|]. reflexivity.
Qed.

(** X6. An entry of a whole number [h] of hours ([h] not zero), at an
    integer rate with [(1 + |60 h|) * (1 + |rate|) <= 10^14], gets from the
    program on doubles the row
    [story; "<h> hours"; notes; $rate; $(h * rate)]: whole hours are billed
    at exactly [h] times the rate, printed without a fraction. *)
Theorem whole_hours_row (response : Response) (i : nat) (entry : Entry)
    (h : Z) :
  entries response !! i = Some entry ->
  minutes_spent entry = 60 * h ->
  h <> 0 ->
  (1 + Z.abs (60 * h)) * (1 + Z.abs (per_hour response)) <= 10 ^ 14 ->
  Doubles.prepareTableData (parsed response) !! S i
  = Some [story_name entry;
          pretty h +:+ " hours";
          notes entry;
          "$" +:+ pretty (per_hour response);
          "$" +:+ pretty (h * per_hour response)].
Proof.
  intros Hi Hm Hh Hb.
  rewrite (DoublesFacts.entry_on_doubles _ _ _
             (DoublesFacts.parsed_lookup response i entry Hi)).
  cbn [parsed Doubles.per_hour].
  rewrite DoublesFacts.entry_row_refines by (rewrite Hm; exact Hb).
  assert (E : JS.Number_toString (billing (60 * h) (per_hour response))
              = pretty (h * per_hour response)).
  { rewrite <- printed_bill_whole_hours. unfold printed_bill. symmetry.
    apply Number_toString_comp, code_bill_round2. }
  unfold entry_row. by rewrite Hm, E, minutesToLabel_whole_hours.
Qed.

Lemma whole_hours_row_witness :
  Doubles.prepareTableData
    (parsed {| entries := [{| story_name := "B"; minutes_spent := 180;
                              notes := "" |}];
               per_hour := 25 |}) !! 1%nat
  = Some ["B"; pretty 3 +:+ " hours"; ""; "$" +:+ pretty 25;
          "$" +:+ pretty (3 * 25)].
Proof.
  apply (whole_hours_row
           {| entries := [{| story_name := "B"; minutes_spent := 180;
                             notes := "" |}];
              per_hour := 25 |} 0
           {| story_name := "B"; minutes_spent := 180; notes := "" |} 3);
    [reflexivity | reflexivity | lia | vm_compute; discriminate].
Defined.

Lemma total_minutes_permutation (E E' : list Entry) :
  E ≡ₚ E' -> total_minutes E = total_minutes E'.
Proof.
  induction 1 as [|e E E' _ IH|e e' E|E E' E'' _ IH1 _ IH2]; simpl; lia.
Qed.

Lemma total_magnitude_permutation (E E' : list Entry) :
  E ≡ₚ E' -> total_magnitude E = total_magnitude E'.
Proof.
  induction 1 as [|e E E' _ IH|e e' E|E E' E'' _ IH1 _ IH2]; simpl; lia.
Qed.

(** X7. As long as the magnitudes of the minutes (integers) add up to at
    most [2^53], the order of the entries does not matter to the totals,
    whatever the rate: when the entries are permuted the program on doubles
    derives the same total row, and the table holds the same rows.  (Beyond
    that the sum depends on the order: [2^53, 1, 1] adds up to [2^53] and
    [1, 1, 2^53] to [2^53 + 2].) *)
Theorem prepareTableData_permutation (E E' : list Entry) (rate : Double.t) :
  E ≡ₚ E' ->
  total_magnitude E <= 2 ^ 53 ->
  let table :=
    Doubles.prepareTableData
      {| Doubles.entries := map parsed_entry E; Doubles.per_hour := rate |} in
  let table' :=
    Doubles.prepareTableData
      {| Doubles.entries := map parsed_entry E'; Doubles.per_hour := rate |} in
  last table' = last table /\ table' ≡ₚ table.
Proof.
  intros Hperm Hb. cbv zeta. rewrite !DoublesFacts.rows_on_doubles.
  cbn [Doubles.entries Doubles.per_hour].
  rewrite !app_comm_cons, !last_snoc.
  assert (Ht : Doubles.total_row rate (map parsed_entry E')
               = Doubles.total_row rate (map parsed_entry E)).
  { unfold Doubles.total_row, Doubles.totalMins.
    rewrite (DoublesFacts.totalMins_parsed E 0) by (simpl; lia).
    rewrite (DoublesFacts.totalMins_parsed E' 0)
      by (rewrite <- (total_magnitude_permutation E E' Hperm); simpl; lia).
    by rewrite (total_minutes_permutation E E' Hperm). }
  rewrite Ht. split; [reflexivity|].
  apply Permutation_app_tail. constructor.
  change (map ?f (map ?g ?l)) with (f <$> (g <$> l)). by rewrite Hperm.
Qed.

Lemma prepareTableData_permutation_witness :
  last (Doubles.prepareTableData
          {| Doubles.entries :=
               map parsed_entry
                 [sample_entry;
                  {| story_name := "B"; minutes_spent := 45; notes := "" |}];
             Doubles.per_hour := Double.of_Q (21 # 2) |})
  = last (Doubles.prepareTableData
            {| Doubles.entries :=
                 map parsed_entry
                   [{| story_name := "B"; minutes_spent := 45;
                       notes := "" |};
                    sample_entry];
               Doubles.per_hour := Double.of_Q (21 # 2) |}).
Proof.
  apply (prepareTableData_permutation
           [{| story_name := "B"; minutes_spent := 45; notes := "" |};
            sample_entry]
           [sample_entry;
            {| story_name := "B"; minutes_spent := 45; notes := "" |}]
           (Double.of_Q (21 # 2))).
  - apply perm_swap.
  - vm_compute. discriminate.
Defined.

(** X8. For integer minutes and rate with
    [(1 + |minutes|) * (1 + |rate|) <= 10^14], the bill the program on
    doubles prints for an entry is a number of cents within a third of a
    cent of the exact amount [minutes * rate / 60]: it is the nearest cent,
    and an exact half cent never occurs. *)
Theorem bills_to_the_nearest_cent (response : Response) (i : nat)
    (entry : Entry) :
  entries response !! i = Some entry ->
  (1 + Z.abs (minutes_spent entry)) * (1 + Z.abs (per_hour response))
  <= 10 ^ 14 ->
  exists cents : Z,
    Doubles.prepareTableData (parsed response) !! S i ≫= (.!! 4%nat)
    = Some ("$" +:+ JS.Number_toString (cents # 100))
    /\ Z.abs (3 * cents - 5 * minutes_spent entry * per_hour response) <= 1.
Proof.
  intros Hi Hb.
  rewrite (DoublesFacts.entry_on_doubles _ _ _
             (DoublesFacts.parsed_lookup response i entry Hi)).
  cbn [parsed Doubles.per_hour].
  rewrite DoublesFacts.entry_row_refines by exact Hb.
  exists ((10 * minutes_spent entry * per_hour response + 3) / 6).
  split; [|apply cents_close].
  unfold entry_row. cbn. rewrite <- printed_bill_cents.
  unfold printed_bill. do 2 f_equal. symmetry.
  apply Number_toString_comp, code_bill_round2.
Qed.

Lemma bills_to_the_nearest_cent_witness :
  exists cents : Z,
    Doubles.prepareTableData (parsed sample_response) !! 1%nat
    ≫= (.!! 4%nat)
    = Some ("$" +:+ JS.Number_toString (cents # 100))
    /\ Z.abs (3 * cents - 5 * 60 * 10) <= 1.
Proof.
  apply (bills_to_the_nearest_cent sample_response 0 sample_entry).
  - reflexivity.
  - vm_compute. discriminate.
Defined.

(** X24. On a response whose minutes and rate are integers with
    [(1 + sum of |minutes_spent|) * (1 + |per_hour|) <= 10^14], the program
    on doubles derives the very table the exact reading derives: the same
    rows with the same strings. *)
Theorem prepareTableData_on_doubles (response : Response) :
  (1 + total_magnitude (entries response)) * (1 + Z.abs (per_hour response))
  <= 10 ^ 14 ->
  Doubles.prepareTableData (parsed response) = prepareTableData response.
Proof. apply DoublesFacts.prepareTableData_refines. Qed.

Lemma prepareTableData_on_doubles_witness :
  Doubles.prepareTableData (parsed sample_response)
  = prepareTableData sample_response.
Proof.
  apply (prepareTableData_on_doubles sample_response).
  vm_compute. discriminate.
Defined.

(** X25. For every integer [m] with [|m| < 10^15], [minutesToLabel]
    returns on doubles the label the exact reading returns; far beyond, it
    does not: at 280000000000000000 the hours are one too many and the
    minutes negative. *)
Theorem minutesToLabel_on_doubles (m : Z) :
  Z.abs m < 10 ^ 15 ->
  Doubles.minutesToLabel (Some (Double.of_Z m))
  = utils.minutesToLabel (Some m).
Proof. apply DoublesFacts.minutesToLabel_refines. Qed.

Lemma minutesToLabel_on_doubles_witness :
  Doubles.minutesToLabel (Some (Double.of_Z 150))
  = utils.minutesToLabel (Some 150).
Proof. apply (minutesToLabel_on_doubles 150). vm_compute. reflexivity. Defined.

(** The labels beyond the safe integers. *)
Lemma minutesToLabel_beyond_safe_integers :
  Doubles.minutesToLabel (Some (Double.of_Z 280000000000000000))
  = "4666666666666667h:-32m"
  /\ utils.minutesToLabel (Some 280000000000000000)
     = "4666666666666666h:40m".
Proof. split; vm_compute; reflexivity. Qed.

(** ** The block controller, further *)

Section More_properties.

Context {Table : Type} `{!TableView Table}.

Implicit Types (w : World Table) (st : STATE) (a : Args).

Ltac step_M :=
  unfold show, changeState, on_node, assign_node, the_table, get_this,
    modify_this, loadData, console_error, throw, catch, mbind, M_bind, mret,
    M_ret; simpl.

Lemma input_match_exact text w :
  rendered w -> regex (this w) text = true ->
  exists n',
    exec (dispatch (Input text)) w
    = {| this :=
           set_nodes n'
             (set_data {| withHeadings := withHeadings (data (this w));
                          content := content (data (this w));
                          snippet := Some text |} (this w));
         network := network w ++ [request_for text w];
         console := console w |}.
Proof.
  destruct w as [[a ro d c p t r n] net con].
  intros ([ih Hih] & [th Hth] & [lh Hlh] & [ti Hti] & Ht) Hre. simpl in *.
  unfold exec, dispatch, input_listener, request_for. step_M.
  simplify_map_eq. simpl. rewrite Hre. step_M. simplify_map_eq. simpl.
  eexists. reflexivity.
Qed.

Lemma settle_body_exact i response w :
  rendered w ->
  exists n',
    let data' :=
      {| withHeadings := true; content := prepareTableData response;
         snippet := snippet (data (this w)) |} in
    exec (dispatch (Settled i (Body response))) w
    = {| this :=
           set_nodes n'
             (set_table
                (Some (Table_new (readOnly (this w)) (api (this w)) data'
                         (config (this w))))
                (set_data data' (this w)));
         network := delete i (network w);
         console := console w |}.
Proof.
  destruct w as [[a ro d c p t r n] net con].
  intros ([ih Hih] & [th Hth] & [lh Hlh] & [ti Hti] & Ht). simpl in *.
  unfold exec, dispatch, settle, embedTable. step_M.
  simplify_map_eq. simpl.
  eexists. reflexivity.
Qed.

Lemma render_exact w :
  exists n',
    exec render w
    = {| this :=
           set_nodes n'
             (set_table
                (Some (setHeadingsSetting (withHeadings (data (this w)))
                         (Table_new (readOnly (this w)) (api (this w))
                            (data (this w)) (config (this w)))))
                (this w));
         network := network w;
         console := console w |}.
Proof.
  destruct w as [[a ro d c p t r n] net con].
  unfold exec, render, makeInputHolder, createPreloader.
  destruct (JS.truthy (snippet d)) eqn:Esn;
    step_M; rewrite Esn; step_M; simplify_map_eq; simpl;
    eexists; reflexivity.
Qed.

Lemma dispatch_shape ev w :
  rendered w -> step_shape ev w (exec (dispatch ev) w).
Proof.
  intros Hr. destruct ev as [text | i outcome | event].
  - destruct (regex (this w) text) eqn:Hre.
    + destruct (input_match_exact text w Hr Hre) as [n' Hw'].
      by eapply shape_match.
    + destruct (input_mismatch_spec text w Hr Hre) as (n' & Hrun & _ & Hv).
      eapply (shape_mismatch _ _ _ text n'); [done | done | |].
      * unfold exec. by rewrite Hrun.
      * unfold exec. by rewrite Hrun.
  - destruct outcome as [error | error | response].
    + eapply (shape_failure _ _ _ i _ error); [done | by left |].
      unfold exec. by rewrite (settle_failure_spec i _ error) by (by left).
    + eapply (shape_failure _ _ _ i _ error); [done | by right |].
      unfold exec. by rewrite (settle_failure_spec i _ error) by (by right).
    + destruct (settle_body_exact i response w Hr) as [n' Hw'].
      by eapply shape_body.
  - eapply shape_paste; [done|]. unfold exec. cbn [dispatch].
    by rewrite onPaste_spec.
Qed.

Lemma exec_of_run {A} (m : M Table A) w r w' : m w = (r, w') -> exec m w = w'.
Proof. unfold exec. by intros ->. Qed.

Lemma visible_with_nodes_same (r : Region) w w' st :
  shows st w -> visible_regions w' = visible_regions w ->
  visible r w' = visible r w.
Proof.
  intros Hs Hv. rewrite (shows_visible st w r Hs).
  apply shows_visible. unfold shows. by rewrite Hv.
Qed.


Lemma step_steady ev w : steady w -> steady (exec (dispatch ev) w).
Proof.
  intros Hs. destruct (dispatch_steady ev w Hs) as (w' & Hrun & Hs').
  by rewrite (exec_of_run _ _ _ _ Hrun).
Qed.

Lemma run_steady events w : steady w -> steady (run events w).
Proof.
  revert w. induction events as [|ev events IH]; intros w Hs; [exact Hs|].
  apply IH, step_steady, Hs.
Qed.

(** X9. No handler ever throws on a block the host has rendered: after
    any sequence of events, whether or not the requests they settle exist,
    the handler of the next event returns normally. *)
Theorem handlers_never_throw a w (events : list Event) (ev : Event) :
  reachable a w ->
  result (dispatch ev) (run events w) = Normal unit ().
Proof.
  intros Hreach.
  pose proof (run_steady events w (reachable_steady a w Hreach)) as Hs.
  destruct (dispatch_steady ev _ Hs) as (w' & Hrun & _).
  unfold result. by rewrite Hrun.
Qed.

Lemma reachable_configured a w :
  reachable a w ->
  config (this w) = args_config a
  /\ regex (this w) = config_regex (args_config a)
  /\ api (this w) = args_api a
  /\ readOnly (this w) = args_readOnly a.
Proof.
  induction 1 as [|w ev Hreach IH _].
  - destruct (render_exact (new_TimesheetBlock a)) as [n' ->]. done.
  - destruct (reachable_steady a w Hreach) as [Hr _].
    destruct (dispatch_shape ev w Hr)
      as [text n' _ _ -> | text n' _ _ -> _ | i response n' _ ->
          | i outcome error _ _ -> | event _ ->]; exact IH.
Qed.

Lemma step_input_hidden ev w :
  steady w -> visible InputRegion w = false ->
  visible InputRegion (exec (dispatch ev) w) = false.
Proof.
  intros [Hr [st Hst]] Hhidden.
  destruct (dispatch_shape ev w Hr)
    as [text n' -> Hre _ | text n' _ _ _ Hv | i response n' -> _
        | i outcome error _ _ -> | event _ ->].
  - destruct (input_match_spec text w Hr Hre) as (w' & Hrun & _ & Hs & _).
    rewrite (exec_of_run _ _ _ _ Hrun). by rewrite (shows_visible _ _ _ Hs).
  - by rewrite (visible_with_nodes_same _ _ _ st Hst Hv).
  - destruct (settle_body_spec i response w Hr) as (w' & Hrun & _ & Hs & _).
    rewrite (exec_of_run _ _ _ _ Hrun). by rewrite (shows_visible _ _ _ Hs).
  - exact Hhidden.
  - exact Hhidden.
Qed.

(** X10. Once the input is hidden it never shows again: no sequence of
    inputs, settled requests and pastes brings a block that left EDIT back
    to it. *)
Theorem input_never_returns a w (events : list Event) :
  reachable a w ->
  visible InputRegion w = false ->
  visible InputRegion (run events w) = false.
Proof.
  intros Hreach. pose proof (reachable_steady a w Hreach) as Hs. clear Hreach.
  revert w Hs. induction events as [|ev events IH]; intros w Hs Hhidden.
  - exact Hhidden.
  - apply IH; [by apply step_steady | by apply step_input_hidden].
Qed.

(** X11. Every request the block has in flight is a GET request that carries
    the additional headers of the configuration the block was constructed
    with. *)
Theorem requests_are_configured_gets a w :
  reachable a w ->
  Forall (fun request =>
            method request = "GET"
            /\ headers request = additionalRequestHeaders (args_config a))
    (network w).
Proof.
  induction 1 as [|w ev Hreach IH _].
  - destruct (render_exact (new_TimesheetBlock a)) as [n' ->]. constructor.
  - destruct (reachable_steady a w Hreach) as [Hr _].
    destruct (reachable_configured a w Hreach) as (Hc & _).
    assert (Hreq : forall url,
               method (request_for url w) = "GET"
               /\ headers (request_for url w)
                  = additionalRequestHeaders (args_config a)).
    { intros url. unfold request_for. by rewrite Hc. }
    destruct (dispatch_shape ev w Hr)
      as [text n' _ _ -> | text n' _ _ -> _ | i response n' _ ->
          | i outcome error _ _ -> | event _ ->]; cbn [network with_nodes].
    + apply Forall_app. split; [exact IH|]. by apply Forall_singleton.
    + exact IH.
    + by apply Forall_delete.
    + by apply Forall_delete.
    + case_decide; [|exact IH].
      apply Forall_app. split; [exact IH|]. by apply Forall_singleton.
Qed.

(** X12. The snippet changes only when an input matches the pattern, and
    then it becomes the text typed: pastes, responses and failures leave
    it alone, and it is never reset to [null]. *)
Theorem snippet_set_only_by_matching_input a w (ev : Event) :
  reachable a w ->
  let w' := exec (dispatch ev) w in
  snippet (data (this w')) = snippet (data (this w))
  \/ exists text,
       ev = Input text /\ regex (this w) text = true
       /\ snippet (data (this w')) = Some text.
Proof.
  intros Hreach w'. destruct (reachable_steady a w Hreach) as [Hr _].
  destruct (dispatch_shape ev w Hr)
    as [text n' Hev Hre Hw' | text n' _ _ Hw' _ | i response n' _ Hw'
        | i outcome error _ _ Hw' | event _ Hw'];
    fold w' in Hw'; rewrite Hw'; try (by left).
  right. by exists text.
Qed.

(** X13. An input that does not match the pattern changes nothing but the
    text of the input element: the data, the table, the requests in flight,
    the console and the visible region stay as they were. *)
Theorem unmatched_input_is_inert a w (text : string) :
  reachable a w ->
  regex (this w) text = false ->
  let w' := exec (dispatch (Input text)) w in
  data (this w') = data (this w)
  /\ table (this w') = table (this w)
  /\ network w' = network w
  /\ console w' = console w
  /\ visible_regions w' = visible_regions w.
Proof.
  intros Hreach Hre w'. destruct (reachable_steady a w Hreach) as [Hr _].
  destruct (input_mismatch_spec text w Hr Hre) as (n' & Hrun & _ & Hv).
  unfold w'. rewrite (exec_of_run _ _ _ _ Hrun). by rewrite Hv.
Qed.

(** X14. The continuations of a request never throw, whatever the outcome
    and whatever the state of the block: what [embedTable] throws is caught
    and logged. *)
Theorem settle_never_throws w (outcome : FetchOutcome) :
  result (settle outcome) w = Normal unit ()
  /\ forall response error,
       outcome = Body response ->
       result (embedTable response) w = Throw unit error ->
       console (exec (settle outcome) w)
       = console (exec (embedTable response) w) ++ ["Error: " +:+ error].
Proof.
  unfold result, exec. destruct outcome as [e | e | response]; cbn [settle].
  - split; [reflexivity | discriminate].
  - split; [reflexivity | discriminate].
  - unfold catch. destruct (embedTable response w) as [[[]|e] w'] eqn:Hrun.
    + split; [reflexivity|]. intros r e [= <-]. rewrite Hrun. discriminate.
    + split; [reflexivity|]. intros r error [= <-]. rewrite Hrun.
      by intros [= ->].
Qed.

(** X15. While the loading indicator shows, the block holds a snippet, and
    it is a text the configured pattern accepts. *)
Theorem loading_has_matched_snippet a w :
  reachable a w ->
  visible LoadingRegion w = true ->
  exists text,
    snippet (data (this w)) = Some text
    /\ config_regex (args_config a) text = true.
Proof.
  induction 1 as [|w ev Hreach IH _].
  - destruct (render_spec (new_TimesheetBlock a))
      as (el & w' & Hrun & _ & Hs & _).
    rewrite (exec_of_run _ _ _ _ Hrun), (shows_visible _ _ _ Hs).
    by destruct (JS.truthy _).
  - destruct (reachable_steady a w Hreach) as [Hr [st Hst]].
    destruct (reachable_configured a w Hreach) as (_ & Hregex & _).
    destruct (dispatch_shape ev w Hr)
      as [text n' _ Hre -> | text n' _ _ Hw' Hv | i response n' -> _
          | i outcome error _ _ -> | event _ ->].
    + intros _. exists text. split; [reflexivity|]. by rewrite <- Hregex.
    + rewrite (visible_with_nodes_same _ _ _ st Hst Hv). rewrite Hw'.
      exact IH.
    + destruct (settle_body_spec i response w Hr)
        as (w' & Hrun & _ & Hs & _).
      rewrite (exec_of_run _ _ _ _ Hrun), (shows_visible _ _ _ Hs).
      discriminate.
    + exact IH.
    + exact IH.
Qed.


End More_properties.

Section Saving.

Context {Table : Type} `{!TableView Table} `{!TableRoundTrip Table}.

Implicit Types (w : World Table) (a : Args).

Lemma reachable_table a w :
  reachable a w ->
  exists t : Table,
    table (this w) = Some t /\ getData t = content (data (this w)).
Proof.
  induction 1 as [|w ev Hreach IH _].
  - destruct (render_exact (new_TimesheetBlock a)) as [n' ->].
    eexists. split; [reflexivity|].
    by rewrite getData_setHeadingsSetting, getData_new.
  - destruct (reachable_steady a w Hreach) as [Hr _].
    destruct (dispatch_shape ev w Hr)
      as [text n' _ _ -> | text n' _ _ -> _ | i response n' _ ->
          | i outcome error _ _ -> | event _ ->]; try exact IH.
    eexists. split; [reflexivity|]. by rewrite getData_new.
Qed.

(** X17. On a block that was never rendered [save] throws a [TypeError].
    On every block the host can bring about, [save] returns the block's
    data as it stands and changes nothing. *)
Theorem save_returns_block_data a :
  result save (new_TimesheetBlock (Table := Table) a)
  = Throw BlockData "TypeError"
  /\ forall w,
       reachable a w ->
       result save w = Normal BlockData (data (this w))
       /\ exec save w = w.
Proof.
  split; [reflexivity|]. intros w Hreach.
  destruct (reachable_table a w Hreach) as (t & Ht & Hdata).
  unfold result, exec, save, the_table, get_this, mbind, M_bind, mret, M_ret.
  rewrite Ht. cbn [fst snd]. rewrite Hdata.
  split; [|reflexivity]. by destruct (data (this w)).
Qed.


(** X19. Saving settles after one round: whatever data a block is
    constructed with, [render] followed by [save] returns the data the
    constructor stored, and a block constructed from that returned data
    stores and saves the very same data. *)
Theorem reload_is_stable a :
  let stored := data (constructor (Table := Table) a) in
  let again :=
    {| args_data := Some (persisted stored); args_config := args_config a;
       args_api := args_api a; args_readOnly := args_readOnly a |} in
  result render_then_save (new_TimesheetBlock (Table := Table) a)
  = Normal BlockData stored
  /\ data (constructor (Table := Table) again) = stored
  /\ result render_then_save (new_TimesheetBlock (Table := Table) again)
     = Normal BlockData stored.
Proof.
  cbv zeta.
  assert (Hsave : forall w : World Table,
             result render_then_save w = Normal BlockData (data (this w))).
  { intros w. rewrite render_then_save_spec.
    rewrite getData_setHeadingsSetting, getData_new.
    by destruct (data (this w)). }
  assert (Hagain :
            data (constructor (Table := Table)
                    {| args_data :=
                         Some (persisted
                                 (data (constructor (Table := Table) a)));
                       args_config := args_config a;
                       args_api := args_api a;
                       args_readOnly := args_readOnly a |})
            = data (constructor (Table := Table) a)).
  { pose proof (constructor_snippet (Table := Table) a) as Hsn.
    destruct (data (constructor (Table := Table) a)) as [h c sn].
    cbn [snippet] in Hsn. unfold constructor, persisted, JS.cond. cbn.
    destruct h; destruct (args_data a ≫= TableData.snippet) as [[|ch s]|];
      by rewrite Hsn. }
  split; [apply Hsave|]. split; [exact Hagain|].
  rewrite Hsave. f_equal. exact Hagain.
Qed.

End Saving.


Section Grid_shape.

Context {Table : Type} `{!TableView Table}.


End Grid_shape.

(** ** The settings panel *)

Section Settings_properties.

Context {Table : Type} `{!TableView Table}.

Variables (settingsButton settingsButtonActive : string).
Variables (withHeadings_svg withoutHeadings_svg : string).

Local Abbreviation is_active := (active settingsButtonActive).
Local Abbreviation carries button := (settingsButton ∈ DOM.classList button).
Local Abbreviation click :=
  (toggleTune (Table := Table) settingsButton settingsButtonActive).
Local Abbreviation settings :=
  (renderSettings (Table := Table) settingsButton settingsButtonActive
     withHeadings_svg withoutHeadings_svg).

Lemma cleared_inactive (button : DOM.Element) :
  carries button ->
  ~ is_active
      (if decide (carries button)
       then DOM.classList_remove settingsButtonActive button
       else button).
Proof.
  intros Hin. case_decide; [|contradiction].
  unfold active. cbn [DOM.classList DOM.classList_remove].
  intros [_ Hnot]%elem_of_difference. apply Hnot. by apply elem_of_singleton.
Qed.

Lemma toggle_inactive (button : DOM.Element) :
  ~ is_active button ->
  is_active (classList_toggle settingsButtonActive button).
Proof.
  intros Hnot. unfold classList_toggle. case_decide; [contradiction|].
  unfold active. cbn [DOM.classList DOM.classList_add].
  apply elem_of_union_r. by apply elem_of_singleton.
Qed.

Lemma toggleTune_marks (tune : Tune Table) (k : nat)
    (buttons : list DOM.Element) :
  Forall (fun button => carries button) buttons ->
  forall (j : nat) (button : DOM.Element),
    (click tune k buttons).1 !! j = Some button ->
    (is_active button <-> j = k).
Proof.
  intros Hall j button. unfold toggleTune. cbn [fst].
  change (map ?f ?l) with (f <$> l).
  rewrite list_lookup_alter. case_decide as Hkj; [subst k|];
    rewrite list_lookup_fmap;
    (destruct (buttons !! j) as [b|] eqn:Hb; [|discriminate]);
    pose proof (Forall_lookup_1 _ _ _ _ Hall Hb) as Hin;
    simpl; intros [= <-].
  - split; [done|]. intros _. by apply toggle_inactive, cleared_inactive.
  - split; [|done]. intros Hact. by destruct (cleared_inactive b Hin).
Qed.

Lemma made_button_inactive :
  settingsButton <> settingsButtonActive ->
  ~ is_active (DOM.make "div" [settingsButton]).
Proof.
  intros Hne. unfold active. cbn [DOM.classList DOM.make list_to_set].
  intros [Hin | Hin]%elem_of_union.
  - apply elem_of_singleton in Hin. by apply Hne.
  - by apply not_elem_of_empty in Hin.
Qed.

Lemma added_button_active (button : DOM.Element) :
  is_active (DOM.classList_add settingsButtonActive button).
Proof.
  unfold active. cbn [DOM.classList DOM.classList_add].
  apply elem_of_union_r. by apply elem_of_singleton.
Qed.

(** X20. [renderSettings] builds two buttons.  The first holds the tune
    named "With headings" (as the host translates it), whose click sets
    [withHeadings] to [true]; the second the tune named "Without headings",
    whose click sets it to [false].  The button marked active is the one
    that states the block's current setting; [renderSettings] leaves the
    block as it is. *)
Theorem renderSettings_marks_current (w : World Table) :
  settingsButton <> settingsButtonActive ->
  exists with_button without_button,
    settings w
    = (Normal (SettingsPanel Table)
         {| panel_wrapper := DOM.make "div" [CSS.settingsWrapper];
            panel_buttons :=
              [({| name := i18n_t (api (this w)) "With headings";
                   icon := withHeadings_svg;
                   isActive := withHeadings (data (this w));
                   setTune := set_withHeadings true |},
                with_button);
               ({| name := i18n_t (api (this w)) "Without headings";
                   icon := withoutHeadings_svg;
                   isActive := negb (withHeadings (data (this w)));
                   setTune := set_withHeadings false |},
                without_button)] |},
       w)
    /\ (is_active with_button <-> withHeadings (data (this w)) = true)
    /\ (is_active without_button <-> withHeadings (data (this w)) = false)
    /\ carries with_button
    /\ carries without_button
    /\ (forall h : bool,
          result (set_withHeadings (Table := Table) h) w = Normal unit ()
          /\ data (this (exec (set_withHeadings h) w))
             = {| withHeadings := h;
                  content := content (data (this w));
                  snippet := snippet (data (this w)) |}).
Proof.
  intros Hne. unfold renderSettings. cbn [map isActive].
  do 2 eexists. split; [reflexivity|].
  assert (Hc : carries (DOM.make "div" [settingsButton])).
  { cbn [DOM.classList DOM.make list_to_set].
    apply elem_of_union_l. by apply elem_of_singleton. }
  assert (Hc' : carries (DOM.classList_add settingsButtonActive
                           (DOM.make "div" [settingsButton]))).
  { cbn [DOM.classList DOM.classList_add]. by apply elem_of_union_l. }
  split; [|split; [|split; [|split]]].
  - destruct (withHeadings (data (this w))); split; try done.
    + intros _. by apply added_button_active.
    + intros Hact. by destruct (made_button_inactive Hne).
  - destruct (withHeadings (data (this w))); cbn [negb]; split; try done.
    + intros Hact. by destruct (made_button_inactive Hne).
    + intros _. by apply added_button_active.
  - by destruct (withHeadings (data (this w))).
  - by destruct (negb (withHeadings (data (this w)))).
  - intros h'. split; reflexivity.
Qed.

Lemma carries_remove (button : DOM.Element) :
  settingsButton <> settingsButtonActive ->
  carries button ->
  carries (DOM.classList_remove settingsButtonActive button).
Proof.
  intros Hne Hin. cbn [DOM.classList DOM.classList_remove].
  apply elem_of_difference. split; [done|].
  intros Heq%elem_of_singleton. by apply Hne.
Qed.

(** X21. After a click on the button at position [k] of a settings panel
    whose buttons all carry the settings-button class, that button is the
    only one marked active, and the buttons still all carry the class. *)
Theorem toggleTune_marks_clicked (tune : Tune Table) (k : nat)
    (buttons : list DOM.Element) :
  settingsButton <> settingsButtonActive ->
  Forall (fun button => carries button) buttons ->
  let marked := (click tune k buttons).1 in
  (forall (j : nat) (button : DOM.Element),
      marked !! j = Some button -> (is_active button <-> j = k))
  /\ Forall (fun button => carries button) marked
  /\ length marked = length buttons.
Proof.
  intros Hne Hall marked. split; [by apply toggleTune_marks|].
  unfold marked, toggleTune. cbn [fst]. split.
  - change (map ?f ?l) with (f <$> l).
    apply Forall_alter.
    + apply Forall_fmap. eapply Forall_impl; [exact Hall|].
      intros b Hb. change (carries
        (if decide (carries b)
         then DOM.classList_remove settingsButtonActive b else b)).
      case_decide; [|done]. by apply carries_remove.
    + intros b _ Hb. unfold classList_toggle. case_decide.
      * by apply carries_remove.
      * cbn [DOM.classList DOM.classList_add]. by apply elem_of_union_l.
  - by rewrite length_alter, length_map.
Qed.

Lemma click_exact (tune : Tune Table) (k : nat) (buttons : list DOM.Element)
    (h : bool) (t : Table) (w : World Table) :
  setTune tune = set_withHeadings h ->
  table (this w) = Some t ->
  (click tune k buttons).2 w
  = (Normal unit (),
     {| this :=
          set_table (Some (setHeadingsSetting h t))
            (set_data {| withHeadings := h;
                         content := content (data (this w));
                         snippet := snippet (data (this w)) |} (this w));
        network := network w; console := console w |}).
Proof.
  intros Hset Ht. unfold toggleTune. cbn [snd]. rewrite Hset.
  unfold mbind, M_bind, set_withHeadings, get_this, modify_this.
  cbn [this table set_data data withHeadings]. rewrite Ht. reflexivity.
Qed.

(** X22. On a block the host can bring about, with a table view that
    serialises back its grid, a click on a button of the panel
    [renderSettings] built returns normally and marks that button alone;
    from then on [save] returns headings on for the first button and off
    for the second, with the content and the snippet untouched; the visible
    region, the requests in flight and the console do not change. *)
Theorem toggleTune_switches_headings `{!TableRoundTrip Table}
    (a : Args) (w : World Table) (panel : SettingsPanel Table) (k : nat)
    (tune : Tune Table) (button : DOM.Element) :
  reachable a w ->
  result settings w = Normal (SettingsPanel Table) panel ->
  panel_buttons panel !! k = Some (tune, button) ->
  let clicked := click tune k (panel_buttons panel).*2 in
  let w' := exec clicked.2 w in
  result clicked.2 w = Normal unit ()
  /\ (forall (j : nat) (b : DOM.Element),
        clicked.1 !! j = Some b -> (is_active b <-> j = k))
  /\ result save w'
     = Normal BlockData
         {| withHeadings := bool_decide (k = 0%nat);
            content := content (data (this w));
            snippet := snippet (data (this w)) |}
  /\ visible_regions w' = visible_regions w
  /\ network w' = network w
  /\ console w' = console w.
Proof.
  intros Hreach Hpanel Hk clicked w'.
  destruct (reachable_table a w Hreach) as (t & Ht & Hdata).
  unfold result, renderSettings in Hpanel. cbn [fst map] in Hpanel.
  injection Hpanel as <-. cbn [panel_buttons] in *.
  assert (Hset : setTune tune = set_withHeadings (bool_decide (k = 0%nat))).
  { destruct k as [|[|k]]; cbn in Hk; [| |discriminate];
      by injection Hk as <- _. }
  assert (Hrun :
            clicked.2 w
            = (Normal unit (),
               {| this :=
                    set_table
                      (Some (setHeadingsSetting (bool_decide (k = 0%nat)) t))
                      (set_data
                         {| withHeadings := bool_decide (k = 0%nat);
                            content := content (data (this w));
                            snippet := snippet (data (this w)) |} (this w));
                  network := network w; console := console w |}))
    by (by apply click_exact).
  split; [unfold result; by rewrite Hrun|].
  split.
  { apply toggleTune_marks.
    cbn [fmap list_fmap snd]. repeat constructor;
      destruct (withHeadings (data (this w))); cbn [negb isActive];
      cbn [DOM.classList DOM.classList_add DOM.make list_to_set];
      [apply elem_of_union_l| | |apply elem_of_union_l];
      apply elem_of_union_l; by apply elem_of_singleton. }
  unfold w', exec. rewrite Hrun. cbn [snd].
  split; [|done].
  unfold result, save, the_table, get_this, mbind, M_bind, mret, M_ret.
  cbn [this table set_table set_data data fst withHeadings snippet].
  by rewrite getData_setHeadingsSetting, Hdata.
Qed.

End Settings_properties.

(** ** The further properties at sample inputs *)

Lemma handlers_never_throw_witness :
  result (dispatch (Settled 5 (Body sample_response)))
    (run [Input "http://x"; Paste (pattern_paste "http://y")] fresh_block)
  = Normal unit ().
Proof.
  exact (handlers_never_throw (Table := Grid) (sample_args None) fresh_block
           [Input "http://x"; Paste (pattern_paste "http://y")]
           (Settled 5 (Body sample_response)) (reach_render _)).
Defined.

Lemma typed_block_reachable : reachable (sample_args None) typed_block.
Proof.
  apply (reach_event (sample_args None) fresh_block (Input "http://x"));
    [apply reach_render | exact I].
Qed.

Lemma input_never_returns_witness :
  visible InputRegion
    (run [Settled 0 (Rejected "offline"); Input "again"] typed_block)
  = false.
Proof.
  assert (Hhidden : visible InputRegion typed_block = false)
    by (vm_compute; reflexivity).
  exact (input_never_returns (Table := Grid) (sample_args None) typed_block
           [Settled 0 (Rejected "offline"); Input "again"]
           typed_block_reachable Hhidden).
Defined.

Lemma requests_are_configured_gets_witness :
  Forall (fun request =>
            method request = "GET"
            /\ headers request
               = additionalRequestHeaders (args_config (sample_args None)))
    (network typed_block).
Proof.
  exact (requests_are_configured_gets (Table := Grid) (sample_args None)
           typed_block typed_block_reachable).
Defined.

Lemma snippet_set_only_by_matching_input_witness :
  snippet (data (this (exec (dispatch (Paste (pattern_paste "http://x")))
                         typed_block)))
  = snippet (data (this typed_block))
  \/ exists text,
       Paste (pattern_paste "http://x") = Input text
       /\ regex (this typed_block) text = true
       /\ snippet (data (this (exec (dispatch
                                       (Paste (pattern_paste "http://x")))
                                 typed_block)))
          = Some text.
Proof.
  exact (snippet_set_only_by_matching_input (Table := Grid)
           (sample_args None) typed_block (Paste (pattern_paste "http://x"))
           typed_block_reachable).
Defined.

Lemma unmatched_input_is_inert_witness :
  data (this (exec (dispatch (Input "hello")) fresh_block))
  = data (this fresh_block)
  /\ network (exec (dispatch (Input "hello")) fresh_block)
     = network fresh_block.
Proof.
  assert (Hmiss : regex (this fresh_block) "hello" = false)
    by (vm_compute; reflexivity).
  pose proof (unmatched_input_is_inert (Table := Grid) (sample_args None)
                fresh_block "hello" (reach_render _) Hmiss) as H.
  cbv zeta in H. destruct H as (Hdata & _ & Hnetwork & _).
  split; [exact Hdata | exact Hnetwork].
Defined.

Lemma settle_never_throws_witness :
  console (exec (settle (Body sample_response))
             (new_TimesheetBlock (Table := Grid) (sample_args None)))
  = console (exec (embedTable sample_response)
               (new_TimesheetBlock (Table := Grid) (sample_args None)))
    ++ ["Error: " +:+ "TypeError"].
Proof.
  assert (Hthrows :
            result (embedTable sample_response)
              (new_TimesheetBlock (Table := Grid) (sample_args None))
            = Throw unit "TypeError") by (vm_compute; reflexivity).
  exact (proj2 (settle_never_throws
                  (new_TimesheetBlock (Table := Grid) (sample_args None))
                  (Body sample_response))
           sample_response "TypeError" eq_refl Hthrows).
Defined.

Lemma loading_has_matched_snippet_witness :
  exists text,
    snippet (data (this typed_block)) = Some text
    /\ config_regex (args_config (sample_args None)) text = true.
Proof.
  assert (Hloading : visible LoadingRegion typed_block = true)
    by (vm_compute; reflexivity).
  exact (loading_has_matched_snippet (Table := Grid) (sample_args None)
           typed_block typed_block_reachable Hloading).
Defined.


Lemma save_returns_block_data_witness :
  result save typed_block = Normal BlockData (data (this typed_block)).
Proof.
  exact (proj1 (proj2 (save_returns_block_data (Table := Grid)
                         (sample_args None))
                  typed_block typed_block_reachable)).
Defined.


Lemma reload_is_stable_witness :
  result render_then_save
    (new_TimesheetBlock (Table := Grid)
       (sample_args
          (Some {| TableData.withHeadings := None;
                   TableData.content := Some [["a"]];
                   TableData.snippet := Some "" |})))
  = Normal BlockData
      (data (constructor (Table := Grid)
               (sample_args
                  (Some {| TableData.withHeadings := None;
                           TableData.content := Some [["a"]];
                           TableData.snippet := Some "" |})))).
Proof.
  exact (proj1 (reload_is_stable (Table := Grid)
                  (sample_args
                     (Some {| TableData.withHeadings := None;
                              TableData.content := Some [["a"]];
                              TableData.snippet := Some "" |})))).
Defined.

Lemma renderSettings_marks_current_witness :
  exists with_button without_button,
    renderSettings sample_button sample_button_active sample_svg sample_svg
      fresh_block
    = (Normal (SettingsPanel Grid)
         {| panel_wrapper := DOM.make "div" [CSS.settingsWrapper];
            panel_buttons :=
              [({| name := i18n_t (api (this fresh_block)) "With headings";
                   icon := sample_svg;
                   isActive := withHeadings (data (this fresh_block));
                   setTune := set_withHeadings true |},
                with_button);
               ({| name :=
                     i18n_t (api (this fresh_block)) "Without headings";
                   icon := sample_svg;
                   isActive := negb (withHeadings (data (this fresh_block)));
                   setTune := set_withHeadings false |},
                without_button)] |},
       fresh_block)
    /\ (active sample_button_active without_button
        <-> withHeadings (data (this fresh_block)) = false).
Proof.
  destruct (renderSettings_marks_current (Table := Grid) sample_button
              sample_button_active sample_svg sample_svg fresh_block)
    as (with_button & without_button & Hpanel & _ & Hoff & _);
    [discriminate|].
  exists with_button, without_button. split; [exact Hpanel | exact Hoff].
Defined.

Lemma sample_buttons_carry :
  Forall (fun button => sample_button ∈ DOM.classList button)
    (panel_buttons sample_panel).*2.
Proof.
  apply Forall_cons. split.
  - apply elem_of_union_l. by apply elem_of_singleton.
  - apply Forall_singleton.
    apply elem_of_union_l, elem_of_union_l. by apply elem_of_singleton.
Qed.

Lemma toggleTune_marks_clicked_witness :
  length (toggleTune sample_button sample_button_active sample_off_tune 0
            (panel_buttons sample_panel).*2).1
  = length (panel_buttons sample_panel).*2.
Proof.
  assert (Hne : sample_button <> sample_button_active) by discriminate.
  exact (proj2 (proj2 (toggleTune_marks_clicked (Table := Grid)
                         sample_button sample_button_active sample_off_tune
                         0 (panel_buttons sample_panel).*2 Hne
                         sample_buttons_carry))).
Defined.

Lemma toggleTune_switches_headings_witness :
  result save
    (exec (toggleTune sample_button sample_button_active sample_off_tune 1
             (panel_buttons sample_panel).*2).2
       typed_block)
  = Normal BlockData
      {| withHeadings := bool_decide (1%nat = 0%nat);
         content := content (data (this typed_block));
         snippet := snippet (data (this typed_block)) |}.
Proof.
  assert (Hpanel :
            result (renderSettings sample_button sample_button_active
                      sample_svg sample_svg) typed_block
            = Normal (SettingsPanel Grid) sample_panel)
    by (vm_compute; reflexivity).
  assert (Hbutton :
            panel_buttons sample_panel !! 1%nat
            = Some (sample_off_tune,
                    DOM.classList_add sample_button_active
                      (DOM.make "div" [sample_button])))
    by reflexivity.
  pose proof (toggleTune_switches_headings (Table := Grid) sample_button
                sample_button_active sample_svg sample_svg
                (sample_args None) typed_block sample_panel 1
                sample_off_tune _ typed_block_reachable Hpanel Hbutton) as H.
  cbv zeta in H. exact (proj1 (proj2 (proj2 H))).
Defined.

